(** * CoastSat Narrabeen validation script: consensus filter and temporal validator

    Shallow embedding of [validation_Narrabeen.py] (section 3, the extra QA step
    that discards badly classified images, and section 5, the comparison to the
    surveyed ground truth), followed by the properties of the written
    specification that were checked against it.

    Conventions of the embedding.
    - A numpy float is either a finite value, idealised as an exact rational
      ([Q]), or NaN; a float cell is therefore an [option Q] with [None] for NaN.
    - Python exceptions are values of [exn]; code that may raise returns a
      [result].
    - Library routines (numpy, scipy, skimage) are modelled by their documented
      behaviour on the arguments the script passes to them. *)

From Stdlib Require Import ZArith QArith Qround Qabs Lia List.
From stdpp Require Import gmap strings list fin_maps sorting.
From Stdlib Require OrderedTypeEx.

Open Scope nat_scope.

(** ** Exceptions and results *)

Inductive exn : Type :=
  | ValueError
  | IndexError
  | KeyError
  | TypeError.

Inductive result (A : Type) : Type :=
  | Ok (a : A)
  | Raise (e : exn).

Arguments Ok {A} a.
Arguments Raise {A} e.

#[global] Instance result_ret : MRet result := fun A a => Ok a.

#[global] Instance result_bind : MBind result := fun A B k c =>
  match c with
  | Ok a => k a
  | Raise e => Raise e
  end.

(** [l[i]] for a Python list and a non-negative index. *)
Definition getitem {A : Type} (l : list A) (i : nat) : result A :=
  match l !! i with
  | Some a => Ok a
  | None => Raise IndexError
  end.

(** ** Floats with NaN *)

Abbreviation cell := (option Q).

Definition NaN : cell := None.

Definition Qltb (x y : Q) : bool := negb (Qle_bool y x).

(** Comparisons with NaN are false. *)
Definition cell_gt (c : cell) (t : Q) : bool :=
  match c with Some v => Qltb t v | None => false end.

Definition cell_lt (c : cell) (t : Q) : bool :=
  match c with Some v => Qltb v t | None => false end.

Definition cell_eqb (c : cell) (t : Q) : bool :=
  match c with Some v => Qeq_bool v t | None => false end.

Definition isnan (c : cell) : bool :=
  match c with Some _ => false | None => true end.

Definition cell_sub (a b : cell) : cell :=
  match a, b with
  | Some x, Some y => Some (x - y)%Q
  | _, _ => None
  end.

Definition cell_abs (a : cell) : cell :=
  match a with Some x => Some (Qabs x) | None => None end.

(** [np.round]: round half to even. *)
Definition Qround_half_even (q : Q) : Q :=
  let f := Qfloor q in
  let r := (q - inject_Z f)%Q in
  if Qltb r (1 # 2) then inject_Z f
  else if Qltb (1 # 2) r then inject_Z (f + 1)
  else if Z.even f then inject_Z f else inject_Z (f + 1).

Definition cell_round (a : cell) : cell :=
  match a with Some x => Some (Qround_half_even x) | None => None end.

Definition Qsum (l : list Q) : Q := foldr Qplus 0%Q l.

Definition Qmean (l : list Q) : Q := (Qsum l / inject_Z (Z.of_nat (length l)))%Q.

(** [np.nanmean]: mean of the entries that are not NaN; NaN when there is none
    (in particular on the empty list). *)
Definition nanmean (l : list cell) : cell :=
  match omap id l with
  | [] => NaN
  | vs => Some (Qmean vs)
  end.

(** Quotient of two numpy integers ([/] on [np.int64]): division by zero does
    not raise, it yields NaN for 0/0 and infinity otherwise. *)
Inductive ratio : Type :=
  | ratio_nan
  | ratio_inf
  | ratio_val (q : Q).

Definition true_divide (n d : nat) : ratio :=
  if d =? 0 then (if n =? 0 then ratio_nan else ratio_inf)
  else ratio_val (inject_Z (Z.of_nat n) / inject_Z (Z.of_nat d))%Q.

Definition ratio_gt (r : ratio) (t : Q) : bool :=
  match r with
  | ratio_nan => false
  | ratio_inf => true
  | ratio_val q => Qltb t q
  end.

(** ** numpy helpers on integer lists *)

(** [np.unique]: the distinct values in ascending order. *)
Fixpoint insert_unique (x : nat) (l : list nat) : list nat :=
  match l with
  | [] => [x]
  | y :: r =>
      if x <? y then x :: y :: r
      else if x =? y then y :: r
      else y :: insert_unique x r
  end.

Definition np_unique (l : list nat) : list nat := foldr insert_unique [] l.

(** [sum(l == v)]: number of entries of [l] equal to [v]. *)
Definition count_eq (l : list nat) (v : nat) : nat :=
  length (filter (fun x => x = v) l).

(** [np.argmax]: index of the first maximal entry; raises on an empty
    sequence. *)
Fixpoint argmax_from (best_i best_v i : nat) (l : list nat) : nat :=
  match l with
  | [] => best_i
  | x :: r =>
      if best_v <? x then argmax_from i x (S i) r
      else argmax_from best_i best_v (S i) r
  end.

Definition np_argmax (l : list nat) : result nat :=
  match l with
  | [] => Raise ValueError
  | x :: r => Ok (argmax_from 0 x 1 r)
  end.

(** [np.where(mask)[0]]: the indices at which a boolean vector is true, in
    ascending order. *)
Definition np_where (mask : list bool) : list nat :=
  filter (fun i => mask !! i = Some true) (seq 0 (length mask)).

(** ** Section 3 of the script: discarding badly classified images *)

(** A classified image: rows of float cells (class index, or NaN where the
    pixel was masked). *)
Abbreviation raster := (list (list cell)).

Definition shape0 (im : raster) : nat := length im.

Definition shape1 (im : raster) : nat :=
  match im with
  | [] => 0
  | row :: _ => length row
  end.

(** [im[i,j]] for non-negative indices. *)
Definition pixel (im : raster) (i j : nat) : result cell :=
  row ← getitem im i; getitem row j.

Record qa_settings : Type := {
  prc_pixel : Q;   (* settings['prc_pixel'] *)
  prc_image : Q    (* settings['prc_image'] *)
}.

(** Lines 116-124: the size all images are brought to. Heights and widths are
    treated separately, each by the same code. *)
Definition mode_dim (dim : list nat) : result nat :=
  if length (np_unique dim) =? 1 then getitem dim 0
  else
    let counts := map (count_eq dim) (np_unique dim) in
    i ← np_argmax counts;
    getitem (np_unique dim) i.

Definition canonical_size (im_classif : list raster) : result (nat * nat) :=
  height ← mode_dim (map shape0 im_classif);
  width ← mode_dim (map shape1 im_classif);
  Ok (height, width).

(** Lines 127-129: images with a completely different size. *)
Definition dim_skip (prc : Q) (canon : nat) (d : nat) : bool :=
  Qltb (prc * inject_Z (Z.of_nat canon))
       (inject_Z (Z.abs (Z.of_nat d - Z.of_nat canon))).

Definition is_skipped (s : qa_settings) (height width : nat) (im : raster) : bool :=
  dim_skip (prc_image s) height (shape0 im) || dim_skip (prc_image s) width (shape1 im).

Definition idx_skip (s : qa_settings) (height width : nat)
    (im_classif : list raster) : list nat :=
  np_where (map (is_skipped s height width) im_classif).

(** [k in idx_skip] *)
Definition in_list (k : nat) (l : list nat) : bool := bool_decide (k ∈ l).

(** Lines 135-137: masked assignment [im[cond] = v], and the two assignments
    that group the classes, in the order the script performs them. *)
Definition assign_where (cond : cell -> bool) (v : Q) (im : raster) : raster :=
  map (map (fun c => if cond c then Some v else c)) im.

Definition collapse_classes (im : raster) : raster :=
  let im1 := assign_where (fun c => cell_eqb c 1) 0 im in
  assign_where (fun c => cell_eqb c 3 || cell_eqb c 2) 1 im1.

Section ConsensusFilter.

(** [skimage.transform.resize(im, (height, width), order=0,
    preserve_range=True, mode='constant')], kept abstract. *)
Variable resize : raster -> nat -> nat -> raster.

(** Lines 132-142: skipped images are left untouched, the others are
    collapsed and resized. *)
Definition format_images (skip : list nat) (height width : nat)
    (im_classif : list raster) : list raster :=
  imap (fun k im =>
          if in_list k skip then im
          else resize (collapse_classes im) height width)
       im_classif.

(** Lines 148-152: the values averaged at pixel (i,j). *)
Fixpoint pixel_values_from (k : nat) (skip : list nat) (cloud_cover : list Q)
    (ims : list raster) (i j : nat) : result (list cell) :=
  match ims with
  | [] => Ok []
  | im :: rest =>
      cc ← getitem cloud_cover k;
      if Qltb (1 # 10) cc || in_list k skip
      then pixel_values_from (S k) skip cloud_cover rest i j
      else
        v ← pixel im i j;
        vs ← pixel_values_from (S k) skip cloud_cover rest i j;
        Ok (v :: vs)
  end.

Definition pixel_values := pixel_values_from 0.

(** Python [for] loops that fill an array, with exceptions propagated. *)
Fixpoint for_each {A B : Type} (f : A -> result B) (l : list A) : result (list B) :=
  match l with
  | [] => Ok []
  | a :: r => b ← f a; bs ← for_each f r; Ok (b :: bs)
  end.

(** Lines 145-153: the average probability of being land or water. *)
Definition im_av (skip : list nat) (cloud_cover : list Q) (ims : list raster)
    (height width : nat) : result raster :=
  for_each (fun i =>
    for_each (fun j =>
      vs ← pixel_values skip cloud_cover ims i j;
      Ok (nanmean vs))
    (seq 0 width))
  (seq 0 height).

(** Lines 157-160: the part of the image with high confidence, edges
    excluded. [im_bin[:,[0,-1]] = False] and [im_bin[[0,-1],:] = False] raise
    when the indexed axis is empty. *)
Definition confident (s : qa_settings) (c : cell) : bool :=
  cell_gt c (1 - prc_pixel s) || cell_lt c (prc_pixel s).

Definition clear_edge_cols (width : nat) (m : list (list bool))
    : result (list (list bool)) :=
  if width =? 0 then Raise IndexError
  else Ok (map (fun row => <[width - 1 := false]> (<[0 := false]> row)) m).

Definition clear_edge_rows (height width : nat) (m : list (list bool))
    : result (list (list bool)) :=
  if height =? 0 then Raise IndexError
  else Ok (<[height - 1 := replicate width false]>
           (<[0 := replicate width false]> m)).

Definition im_bin (s : qa_settings) (height width : nat) (av : raster)
    : result (list (list bool)) :=
  m ← clear_edge_cols width (map (map (confident s)) av);
  clear_edge_rows height width m.

(** Element-wise operations need operands of one shape (the resized images
    have the shape of [im_av]; broadcasting of unit dimensions is not
    modelled, a mismatch is numpy's ValueError). *)
Fixpoint same_shape {A B : Type} (a : list (list A)) (b : list (list B)) : bool :=
  match a, b with
  | [], [] => true
  | ra :: a', rb :: b' => (length ra =? length rb) && same_shape a' b'
  | _, _ => false
  end.

(** Lines 183-184. *)
Definition im_diff (av : raster) (bin : list (list bool)) (im : raster)
    : result raster :=
  if same_shape av im then
    let d := zip_with (zip_with (fun a v => cell_abs (cell_sub (cell_round a) v)))
                      av im in
    Ok (zip_with (zip_with (fun (b : bool) c => if b then c else NaN)) bin d)
  else Raise ValueError.

(** [sum(sum(m))] of a boolean matrix. *)
Definition count2 {A : Type} (p : A -> bool) (m : list (list A)) : nat :=
  sum_list (map (fun row => length (filter (fun x => p x = true) row)) m).

(** Line 186. *)
Definition prc_change (av : raster) (bin : list (list bool)) (im : raster)
    : result ratio :=
  d ← im_diff av bin im;
  Ok (true_divide (count2 (fun c => cell_eqb c 1) d) (count2 id bin)).

(** Lines 170-195: the indices of the images to discard (moving the picture
    of a rejected image to another folder is left out). *)
Fixpoint idx_remove_from (k : nat) (s : qa_settings) (skip : list nat)
    (av : raster) (bin : list (list bool)) (ims : list raster)
    : result (list nat) :=
  match ims with
  | [] => Ok []
  | im :: rest =>
      if in_list k skip then
        r ← idx_remove_from (S k) s skip av bin rest; Ok (k :: r)
      else
        p ← prc_change av bin im;
        r ← idx_remove_from (S k) s skip av bin rest;
        Ok (if ratio_gt p (prc_image s) then k :: r else r)
  end.

Definition idx_remove := idx_remove_from 0.

Record qa_result : Type := {
  qa_height : nat;
  qa_width : nat;
  qa_idx_skip : list nat;
  qa_im_av : raster;
  qa_im_bin : list (list bool);
  qa_idx_remove : list nat
}.

(** Lines 113-195 as one computation. *)
Definition discard_misclassified (s : qa_settings) (im_classif : list raster)
    (cloud_cover : list Q) : result qa_result :=
  hw ← canonical_size im_classif;
  let height := hw.1 in
  let width := hw.2 in
  let skip := idx_skip s height width im_classif in
  let ims := format_images skip height width im_classif in
  av ← im_av skip cloud_cover ims height width;
  bin ← im_bin s height width av;
  rm ← idx_remove s skip av bin ims;
  Ok {| qa_height := height; qa_width := width; qa_idx_skip := skip;
        qa_im_av := av; qa_im_bin := bin; qa_idx_remove := rm |}.

End ConsensusFilter.

(** Lines 215-219: the classified images are dropped from [output], then every
    remaining entry is restricted to the indices that were not removed. *)
Definition idx_keep (n : nat) (idx_remove : list nat) : list nat :=
  np_where (map (fun i => negb (in_list i idx_remove)) (seq 0 n)).

Section Prune.

Context {V : Type}.

(** [[l[_] for _ in idx]] *)
Definition take_indices (l : list V) (idx : list nat) : list V :=
  omap (fun i => l !! i) idx.

Definition prune_output (output : gmap string (list V)) (idx_remove : list nat)
    : result (gmap string (list V)) :=
  match output !! "im_classif" with
  | None => Raise KeyError
  | Some _ =>
      let output1 := delete "im_classif" output in
      match output1 !! "dates" with
      | None => Raise KeyError
      | Some dates =>
          let keep := idx_keep (length dates) idx_remove in
          if bool_decide
               (map_Forall (fun _ (l : list V) => Forall (fun i => i < length l) keep)
                           output1)
          then Ok ((fun l => take_indices l keep) <$> output1)
          else Raise IndexError
      end
  end.

End Prune.

(** ** Section 5 of the script: comparison to the surveyed ground truth *)

(** A timezone-aware datetime brought to UTC, as the number of microseconds
    since 0001-01-01 00:00 UTC. *)
Abbreviation datetime := Z (only parsing).

Definition us_per_day : Z := 86400000000.

(** [(a - b).days]: a timedelta is normalised with non-negative seconds and
    microseconds, so [days] is the floor of the difference in days. *)
Definition timedelta_days (a b : datetime) : Z := (a - b) / us_per_day.

(** [d.toordinal()] *)
Definition toordinal (d : datetime) : Z := d / us_per_day + 1.

Record survey : Type := {
  gt_dates : list datetime;     (* gt[key]['dates'] *)
  gt_chainage : list cell       (* gt[key]['chainage'] *)
}.

Record match_settings : Type := {
  min_days : Z;   (* sett['min_days'] *)
  max_days : Z    (* sett['max_days'] *)
}.

(** [np.min] of an integer vector; raises on an empty one. *)
Definition np_min (l : list Z) : result Z :=
  match l with
  | [] => Raise ValueError
  | x :: r => Ok (foldl Z.min x r)
  end.

(** [np.where(cond)[0][0]]: the first index satisfying [p]. *)
Fixpoint first_index_from {A : Type} (p : A -> bool) (i : nat) (l : list A)
    : result nat :=
  match l with
  | [] => Raise IndexError
  | x :: r => if p x then Ok i else first_index_from p (S i) r
  end.

Definition first_index {A : Type} (p : A -> bool) := first_index_from p 0.

(** [l[i]] for a possibly negative index, counted from the end when negative. *)
Definition getitem_signed {A : Type} (l : list A) (i : Z) : result A :=
  if (0 <=? i)%Z then getitem l (Z.to_nat i)
  else if (0 <=? Z.of_nat (length l) + i)%Z
       then getitem l (Z.to_nat (Z.of_nat (length l) + i))
       else Raise IndexError.

(** [float(interpolate.interp1d(x, y, bounds_error=True)(t))] for two points:
    the points are ordered by abscissa (stable), a [t] outside them is an
    error, and the value is read off the segment. *)
Definition interp1d (x0 x1 : Z) (y0 y1 : cell) (t : Z) : result cell :=
  let '(xlo, ylo, xhi, yhi) :=
    if (x0 <=? x1)%Z then (x0, y0, x1, y1) else (x1, y1, x0, y0) in
  if (t <? xlo)%Z || (xhi <? t)%Z then Raise ValueError
  else
    match ylo, yhi with
    | Some a, Some b =>
        if (xhi =? xlo)%Z then Ok NaN
        else Ok (Some (a + (b - a) / inject_Z (xhi - xlo) * inject_Z (t - xlo))%Q)
    | _, _ => Ok NaN
    end.

(** What one pass of the loop body (lines 384-402) does with [chain_int[k]]. *)
Inductive step : Type :=
  | Assign (c : cell)
  | Break.

Definition days_diff (gt : survey) (date : datetime) : list Z :=
  map (fun d => timedelta_days d date) (gt_dates gt).

Definition match_date (sett : match_settings) (gt : survey) (date : datetime)
    : result step :=
  let dd := days_diff gt date in
  m ← np_min (map Z.abs dd);
  if (max_days sett <? m)%Z then Ok (Assign NaN)
  else if (m <? min_days sett)%Z then
    idx_closest ← first_index (fun d => (Z.abs d =? m)%Z) dd;
    c ← getitem (gt_chainage gt) idx_closest;
    Ok (Assign c)
  else if length (filter (fun d => (0 < d)%Z) dd) =? 0 then Ok Break
  else
    idx_after ← first_index (fun d => (0 <? d)%Z) dd;
    let idx_before := (Z.of_nat idx_after - 1)%Z in
    xb ← getitem_signed (gt_dates gt) idx_before;
    xa ← getitem (gt_dates gt) idx_after;
    yb ← getitem_signed (gt_chainage gt) idx_before;
    ya ← getitem (gt_chainage gt) idx_after;
    c ← interp1d (toordinal xb) (toordinal xa) yb ya (toordinal date);
    Ok (Assign c).

(** Lines 382-402: [chain_int] starts as a vector of NaN and is filled date by
    date until the dates are exhausted or the loop is left. *)
Fixpoint matching_loop (sett : match_settings) (gt : survey) (k : nat)
    (dates : list datetime) (chain_int : list cell) : result (list cell) :=
  match dates with
  | [] => Ok chain_int
  | date :: rest =>
      st ← match_date sett gt date;
      match st with
      | Assign c => matching_loop sett gt (S k) rest (<[k := c]> chain_int)
      | Break => Ok chain_int
      end
  end.

Definition chain_int (sett : match_settings) (gt : survey)
    (dates_nonans : list datetime) : result (list cell) :=
  matching_loop sett gt 0 dates_nonans (replicate (length dates_nonans) NaN).

(** [[l[k] for k in idx]] with Python's bounds check. *)
Definition select {A : Type} (l : list A) (idx : list nat) : result (list A) :=
  for_each (getitem l) idx.

(** [np.where(~np.isnan(v))[0]] *)
Definition where_not_nan (v : list cell) : list nat :=
  np_where (map (fun c => negb (isnan c)) v).

(** The matched observations of one transect (lines 406-409). *)
Record aligned : Type := {
  chain_sat : list Q;
  chain_sur : list Q;
  dates_sat : list datetime;
  satnames : list string
}.

(** Lines 359-363: the observations of the transect that are not NaN. *)
Record nonans : Type := {
  dates_nonans : list datetime;
  satnames_nonans : list string;
  chain_nonans : list cell
}.

Definition remove_nans (out_dates : list datetime) (out_satname : list string)
    (chainage : list cell) : result nonans :=
  let keep := where_not_nan chainage in
  d ← select out_dates keep;
  s ← select out_satname keep;
  c ← select chainage keep;
  Ok {| dates_nonans := d; satnames_nonans := s; chain_nonans := c |}.

(** Lines 359-409 for one transect. *)
Definition align_transect (sett : match_settings) (out_dates : list datetime)
    (out_satname : list string) (chainage : list cell) (gt : survey)
    : result aligned :=
  nn ← remove_nans out_dates out_satname chainage;
  ci ← chain_int sett gt (dates_nonans nn);
  let keep := where_not_nan ci in
  sat ← select (chain_nonans nn) keep;
  sur ← select ci keep;
  d ← select (dates_nonans nn) keep;
  s ← select (satnames_nonans nn) keep;
  Ok {| chain_sat := omap id sat; chain_sur := omap id sur;
        dates_sat := d; satnames := s |}.

(** *** Error statistics *)

(** [stats.linregress(x, y)]: least-squares line of [y] against [x]; [R2] is
    the square of [rvalue]. On fewer than two pairs every field of the result
    is NaN (scipy 1.13 and later; the call does not raise), and abscissae that
    are all identical are refused with [ValueError]. The script always passes
    two vectors of one length. *)
Record regression : Type := {
  slope : cell;
  intercept : cell;
  R2 : cell
}.

Definition Qcov (x y : list Q) : Q :=
  Qmean (zip_with (fun a b => (a - Qmean x) * (b - Qmean y))%Q x y).

Definition all_identical (x : list Q) : bool :=
  match x with
  | [] => true
  | a :: r => forallb (Qeq_bool a) r
  end.

Definition linregress (x y : list Q) : result regression :=
  if negb (length x =? length y) then Raise ValueError
  else if length x <? 2
  then Ok {| slope := NaN; intercept := NaN; R2 := NaN |}
  else if all_identical x then Raise ValueError
  else
    let ssxm := Qcov x x in
    let ssxym := Qcov x y in
    let ssym := Qcov y y in
    let r2 := if Qeq_bool ssxm 0 || Qeq_bool ssym 0 then 0%Q
              else (ssxym * ssxym / (ssxm * ssym))%Q in
    if Qeq_bool ssxm 0
    then Ok {| slope := NaN; intercept := NaN; R2 := Some r2 |}
    else Ok {| slope := Some (ssxym / ssxm)%Q;
               intercept := Some (Qmean y - ssxym / ssxm * Qmean x)%Q;
               R2 := Some r2 |}.

Fixpoint Qinsert (x : Q) (l : list Q) : list Q :=
  match l with
  | [] => [x]
  | y :: r => if Qle_bool x y then x :: y :: r else y :: Qinsert x r
  end.

Definition Qsort (l : list Q) : list Q := foldr Qinsert [] l.

(** [np.percentile(a, p)], linear interpolation between order statistics. *)
Definition percentile (a : list Q) (p : Q) : result Q :=
  match a with
  | [] => Raise IndexError
  | _ =>
      let s := Qsort a in
      let pos := (p / 100 * inject_Z (Z.of_nat (length a - 1)))%Q in
      let lo := Z.to_nat (Qfloor pos) in
      let frac := (pos - inject_Z (Qfloor pos))%Q in
      vlo ← getitem s lo;
      vhi ← getitem s (Nat.min (S lo) (length a - 1));
      Ok (vlo + frac * (vhi - vlo))%Q
  end.

(** The error metrics of lines 418-422 and 475-481. The script reports
    [rmse = sqrt(mean(error^2))] and [std = sqrt(mean((error - mean)^2))];
    their squares are recorded here, the square root not being rational. On
    an empty error vector the means are NaN, with a warning only, and
    [np.percentile] raises [IndexError], so that no record is returned. *)
Record error_statistics : Type := {
  regr : regression;
  rmse_sq : Q;
  mean_error : Q;
  std_sq : Q;
  q90 : Q
}.

Definition error_metrics (r : regression) (chain_error : list Q)
    : result error_statistics :=
  q ← percentile (map Qabs chain_error) 90;
  Ok {| regr := r;
        rmse_sq := Qmean (map (fun e => e * e)%Q chain_error);
        mean_error := Qmean chain_error;
        std_sq := Qcov chain_error chain_error;
        q90 := q |}.

(** [a - b] on two numpy vectors of one length. *)
Definition vec_sub (a b : list Q) : result (list Q) :=
  if length a =? length b then Ok (zip_with Qminus a b) else Raise ValueError.

(** Lines 415-422. *)
Definition transect_statistics (a : aligned) : result error_statistics :=
  r ← linregress (chain_sur a) (chain_sat a);
  e ← vec_sub (chain_sat a) (chain_sur a);
  error_metrics r e.

(** The script-level variables the loop over the transects leaves behind:
    the pooled vectors, and [chain_sat], [chain_sur] as last assigned. *)
Record validation_state : Type := {
  chain_sat_all : list Q;
  chain_sur_all : list Q;
  satnames_all : list string;
  last_aligned : option aligned;
  per_transect : list error_statistics
}.

Definition initial_state : validation_state :=
  {| chain_sat_all := []; chain_sur_all := []; satnames_all := [];
     last_aligned := None; per_transect := [] |}.

Record transect_data : Type := {
  cross_distance : list cell;   (* cross_distance[key] *)
  ground_truth : survey         (* gt[key] *)
}.

(** Lines 356-472: one pass per transect. *)
Fixpoint transect_loop (sett : match_settings) (out_dates : list datetime)
    (out_satname : list string) (transects : list transect_data)
    (st : validation_state) : result validation_state :=
  match transects with
  | [] => Ok st
  | t :: rest =>
      a ← align_transect sett out_dates out_satname (cross_distance t)
                         (ground_truth t);
      es ← transect_statistics a;
      transect_loop sett out_dates out_satname rest
        {| chain_sat_all := chain_sat_all st ++ chain_sat a;
           chain_sur_all := chain_sur_all st ++ chain_sur a;
           satnames_all := satnames_all st ++ satnames a;
           last_aligned := Some a;
           per_transect := per_transect st ++ [es] |}
  end.

(** Lines 475-481: the statistics for all transects together. With no
    transect at all, line 475 subtracts two Python lists. *)
Definition aggregate_statistics (st : validation_state) : result error_statistics :=
  match last_aligned st with
  | None => Raise TypeError
  | Some a =>
      chain_error ← vec_sub (chain_sat_all st) (chain_sur_all st);
      r ← linregress (chain_sur a) (chain_sat a);
      error_metrics r chain_error
  end.

Definition validation (sett : match_settings) (out_dates : list datetime)
    (out_satname : list string) (transects : list transect_data)
    : result (list error_statistics * error_statistics) :=
  st ← transect_loop sett out_dates out_satname transects initial_state;
  agg ← aggregate_statistics st;
  Ok (per_transect st, agg).

(** ** Section 4 of the script: tidal correction (lines 301-307) *)

Definition reference_elevation : Q := 7 # 10.

Definition beach_slope : Q := 1 # 10.

Definition cell_add (a b : cell) : cell :=
  match a, b with
  | Some x, Some y => Some (x + y)%Q
  | _, _ => NaN
  end.

(** [correction = (tides_sat - reference_elevation) / beach_slope], on one
    tide level; a missing tide level is NaN and stays NaN. *)
Definition correction (tide : cell) : cell :=
  match tide with
  | Some t => Some ((t - reference_elevation) / beach_slope)%Q
  | None => NaN
  end.

(** [cross_distance[key] + correction] on two numpy vectors: element by
    element when the lengths agree, a vector of length one being stretched to
    the other's length, and an error otherwise. *)
Definition tidal_correction (tides_sat : list cell) (cross : list cell)
    : result (list cell) :=
  if length cross =? length tides_sat
  then Ok (zip_with (fun c t => cell_add c (correction t)) cross tides_sat)
  else
    match cross, tides_sat with
    | _, [t] => Ok (map (fun c => cell_add c (correction t)) cross)
    | [c], _ => Ok (map (fun t => cell_add c (correction t)) tides_sat)
    | _, _ => Raise ValueError
    end.

(** ** Errors grouped by satellite (lines 437-445 and 501-509) *)

(** [np.unique] on an array of strings: the distinct strings, sorted by code
    point. *)
Fixpoint insert_unique_str (x : string) (l : list string) : list string :=
  match l with
  | [] => [x]
  | y :: r =>
      match String.compare x y with
      | Lt => x :: y :: r
      | Eq => y :: r
      | Gt => y :: insert_unique_str x r
      end
  end.

Definition np_unique_str (l : list string) : list string :=
  foldr insert_unique_str [] l.

(** The order in which [np.unique] sorts strings. *)
Definition str_lt (x y : string) : Prop := String.compare x y = Lt.

(** [idx = np.where([_ == sat for _ in satnames])[0]] *)
Definition idx_of_sat (satnames : list string) (sat : string) : list nat :=
  np_where (map (fun x => bool_decide (x = sat)) satnames).

(** [np.median]: the middle order statistic, or the mean of the two middle
    ones; NaN on an empty vector. *)
Definition np_median (a : list Q) : cell :=
  let s := Qsort a in
  let n := length a in
  if n =? 0 then NaN
  else if Nat.even n
       then match s !! (n / 2 - 1), s !! (n / 2) with
            | Some x, Some y => Some ((x + y) / 2)%Q
            | _, _ => NaN
            end
       else s !! (n / 2).

Record satellite_boxes : Type := {
  data : list (list Q);
  median_data : list cell;
  n_data : list nat
}.

(** The loop over [np.unique(satnames)] that collects, for each satellite,
    its errors, their median and their number. *)
Definition errors_by_satellite (satnames : list string) (chain_error : list Q)
    : result satellite_boxes :=
  groups ← for_each (fun sat => select chain_error (idx_of_sat satnames sat))
                    (np_unique_str satnames);
  Ok {| data := groups;
        median_data := map np_median groups;
        n_data := map length groups |}.

(** ** Notions used to state the properties *)

(** What the two masked assignments of the class collapse do to one cell. *)
Definition collapse_cell (c : cell) : cell :=
  if cell_eqb c 1 then Some 0%Q
  else if cell_eqb c 3 || cell_eqb c 2 then Some 1%Q
  else c.

(** [m] is the most frequent value of [l], the smallest one among the most
    frequent. *)
Definition is_mode (l : list nat) (m : nat) : Prop :=
  m ∈ l /\
  forall x, count_eq l x <= count_eq l m /\
            (count_eq l x = count_eq l m -> m <= x).

(** The (height, width) pair of an image, and how often a pair occurs in a
    stack. *)
Definition shape (im : raster) : nat * nat := (shape0 im, shape1 im).

Definition count_shape (ims : list raster) (p : nat * nat) : nat :=
  length (filter (fun im => shape im = p) ims).

(** What the script relies on from [transform.resize]: the output has the
    requested shape. *)
Definition resize_contract (resize : raster -> nat -> nat -> raster) : Prop :=
  forall im height width,
    length (resize im height width) = height /\
    Forall (fun row => length row = width) (resize im height width).

(** The straight line through [(x0, y0)] and [(x1, y1)] read at [t]; NaN as
    soon as one of the two values is. *)
Definition linear_interpolation (x0 : Z) (y0 : cell) (x1 : Z) (y1 : cell) (t : Z)
    : cell :=
  match y0, y1 with
  | Some a, Some b =>
      Some (a + (b - a) / inject_Z (x1 - x0) * inject_Z (t - x0))%Q
  | _, _ => NaN
  end.

(** The smallest absolute day offset between a date and the survey dates. *)
Definition min_abs_offset (gt : survey) (date : Z) : result Z :=
  np_min (map Z.abs (days_diff gt date)).

(** The divergence of an image in the words of the specification: among the
    pixels of the confidence mask, the share of those where the rounded
    consensus and the value of the image differ by exactly 1. *)
Definition diverges (a v : cell) : bool :=
  cell_eqb (cell_abs (cell_sub (cell_round a) v)) 1.

Definition diverging_confident_pixels (av : raster) (bin : list (list bool))
    (im : raster) : nat :=
  count2 (fun bav : bool * (cell * cell) => bav.1 && diverges bav.2.1 bav.2.2)
         (zip_with zip bin (zip_with zip av im)).

Definition divergence (av : raster) (bin : list (list bool)) (im : raster) : ratio :=
  true_divide (diverging_confident_pixels av bin im) (count2 id bin).

(** ** Sample inputs

    Small inputs on which the properties below are exercised. *)

Definition demo_settings : qa_settings :=
  {| prc_pixel := 15 # 100; prc_image := 3 # 10 |}.

(** A 3x3 image of land with one pixel of class [c] in the middle. *)
Definition demo_image (c : Q) : raster :=
  [[Some 0%Q; Some 0%Q; Some 0%Q];
   [Some 0%Q; Some c; Some 0%Q];
   [Some 0%Q; Some 0%Q; Some 0%Q]].

(** Two land images, a cloudy image with water in the middle, and a 1x1
    image. *)
Definition demo_stack : list raster :=
  [demo_image 0; demo_image 1; demo_image 3; [[Some 0%Q]]].

Definition demo_cloud_cover : list Q := [0%Q; 5 # 100; 2 # 10; 0%Q].

(** A nearest-neighbour resampling, one function that meets
    [resize_contract]; it returns an image of the requested size unchanged. *)
Definition demo_resize (im : raster) (height width : nat) : raster :=
  map (fun i =>
         map (fun j =>
                match im !! (i * shape0 im / height) with
                | Some row => default NaN (row !! (j * shape1 im / width))
                | None => NaN
                end)
             (seq 0 width))
      (seq 0 height).

Definition demo_av : raster :=
  [[Some (0 / 2)%Q; Some (0 / 2)%Q; Some (0 / 2)%Q];
   [Some (0 / 2)%Q; Some (0 / 2)%Q; Some (0 / 2)%Q];
   [Some (0 / 2)%Q; Some (0 / 2)%Q; Some (0 / 2)%Q]].

Definition demo_bin : list (list bool) :=
  [[false; false; false]; [false; true; false]; [false; false; false]].

Definition demo_formatted : list raster :=
  [demo_image 0; demo_image 0; demo_image 1; [[Some 0%Q]]].

(** Images of 2x2 pixels: every pixel is on an edge. *)
Definition demo_small_stack : list raster :=
  [[[Some 0%Q; Some 1%Q]; [Some 0%Q; Some 1%Q]];
   [[Some 1%Q; Some 0%Q]; [Some 1%Q; Some 0%Q]]].

Definition demo_small_av : raster :=
  [[Some (1 # 2); Some (1 # 2)]; [Some (1 # 2); Some (1 # 2)]].

Definition demo_small_bin : list (list bool) :=
  [[false; false]; [false; false]].

(** A stack in which no image has the most frequent height together with the
    most frequent width. *)
Definition blank (height width : nat) : raster :=
  replicate height (replicate width (Some 0%Q)).

Definition demo_mixed_stack : list raster :=
  [blank 1 2; blank 1 2; blank 3 4; blank 5 4; blank 6 4].

(** The [output] dictionary of two images, its entries written as strings. *)
Definition demo_output : gmap string (list string) :=
  <["dates" := ["1999-02-17"; "1999-03-05"]]>
  (<["filename" := ["a_L5_x.tif"; "b_L7_x.tif"]]>
  (<["cloud_cover" := ["0.0"; "0.2"]]>
  (<["satname" := ["L5"; "L7"]]>
  (<["im_classif" := ["raster 0"; "raster 1"]]> ∅)))).

(** A survey every ten days and satellite dates around it, in days. *)
Definition day (n : Z) : Z := (n * us_per_day)%Z.

Definition demo_survey : survey :=
  {| gt_dates := [day 100; day 110; day 120];
     gt_chainage := [Some 10%Q; Some 20%Q; Some 40%Q] |}.

Definition demo_match_settings : match_settings :=
  {| min_days := 3; max_days := 10 |}.

Definition demo_sat_dates : list Z :=
  [day 101; day 103; day 115; day 125; day 131; day 140].

(** Two transects observed on the same two dates and surveyed on those very
    dates: on the first the satellite agrees with the survey, on the second it
    doubles the surveyed change. *)
Definition demo_out_dates : list Z := [day 100; day 110].

Definition demo_out_satname : list string := ["L8"; "S2"].

Definition demo_ground_truth : survey :=
  {| gt_dates := [day 100; day 110]; gt_chainage := [Some 0%Q; Some 1%Q] |}.

Definition demo_transects : list transect_data :=
  [ {| cross_distance := [Some 0%Q; Some 1%Q]; ground_truth := demo_ground_truth |};
    {| cross_distance := [Some 0%Q; Some 2%Q]; ground_truth := demo_ground_truth |} ].

(** A transect observed on four dates, once without a shoreline, and matched
    against the sample survey. *)
Definition demo_transect_dates : list Z := [day 101; day 103; day 115; day 131].

Definition demo_transect_satname : list string := ["L5"; "L7"; "L8"; "S2"].

Definition demo_transect_chainage : list cell :=
  [Some 12%Q; NaN; Some 31%Q; Some 50%Q].

Definition demo_aligned : aligned :=
  Eval vm_compute in
    match align_transect demo_match_settings demo_transect_dates
            demo_transect_satname demo_transect_chainage demo_survey with
    | Ok a => a
    | Raise _ => {| chain_sat := []; chain_sur := []; dates_sat := []; satnames := [] |}
    end.

Definition demo_state : validation_state :=
  Eval vm_compute in
    match transect_loop demo_match_settings demo_out_dates demo_out_satname
            demo_transects initial_state with
    | Ok st => st
    | Raise _ => initial_state
    end.

(** * Properties *)

(** ** Basic facts about the numeric helpers *)

Lemma Qltb_lt (x y : Q) : Qltb x y = true <-> (x < y)%Q.
Proof.
  unfold Qltb. rewrite negb_true_iff. split.
  - intros H. apply Qnot_le_lt. intros Hle.
    apply Qle_bool_iff in Hle. congruence.
  - intros H. destruct (Qle_bool y x) eqn:E; [|reflexivity].
    apply Qle_bool_iff in E. exfalso. exact (Qlt_not_le _ _ H E).
Qed.

Lemma Qltb_irrefl (x y : Q) : (x == y)%Q -> Qltb x y = false.
Proof.
  intros H. destruct (Qltb x y) eqn:E; [|reflexivity].
  apply Qltb_lt in E. rewrite H in E. exfalso. exact (Qlt_irrefl _ E).
Qed.

Lemma cell_gt_spec (c : cell) (t : Q) :
  cell_gt c t = true <-> exists v, c = Some v /\ (t < v)%Q.
Proof.
  destruct c as [v|]; simpl.
  - rewrite Qltb_lt. split; [eauto|]. intros (w & [= ->] & H). exact H.
  - split; [discriminate|]. intros (w & [=] & _).
Qed.

Lemma cell_lt_spec (c : cell) (t : Q) :
  cell_lt c t = true <-> exists v, c = Some v /\ (v < t)%Q.
Proof.
  destruct c as [v|]; simpl.
  - rewrite Qltb_lt. split; [eauto|]. intros (w & [= ->] & H). exact H.
  - split; [discriminate|]. intros (w & [=] & _).
Qed.

Lemma cell_eqb_spec (c : cell) (t : Q) :
  cell_eqb c t = true <-> exists v, c = Some v /\ (v == t)%Q.
Proof.
  destruct c as [v|]; simpl.
  - rewrite Qeq_bool_iff. split; [eauto|]. intros (w & [= ->] & H). exact H.
  - split; [discriminate|]. intros (w & [=] & _).
Qed.

Lemma cell_eqb_distinct (c : cell) (a b : Q) :
  ~ (a == b)%Q -> cell_eqb c a = true -> cell_eqb c b = false.
Proof.
  intros Hab Ha. destruct (cell_eqb c b) eqn:Hb; [|reflexivity].
  apply cell_eqb_spec in Ha as (v & -> & Hva).
  apply cell_eqb_spec in Hb as (w & [= <-] & Hvb).
  exfalso. apply Hab. rewrite <- Hva. exact Hvb.
Qed.

Lemma getitem_Ok {A : Type} (l : list A) (i : nat) (a : A) :
  getitem l i = Ok a <-> l !! i = Some a.
Proof.
  unfold getitem. destruct (l !! i); split; intros H; inversion H; reflexivity.
Qed.

Lemma getitem_lt {A : Type} (l : list A) (i : nat) :
  i < length l -> exists a, getitem l i = Ok a /\ l !! i = Some a.
Proof.
  intros H. destruct (lookup_lt_is_Some_2 l i H) as [a Ha].
  exists a. split; [|exact Ha]. apply getitem_Ok. exact Ha.
Qed.

Lemma pixel_Ok (im : raster) (i j : nat) (c : cell) :
  pixel im i j = Ok c <-> exists row, im !! i = Some row /\ row !! j = Some c.
Proof.
  unfold pixel, getitem, mbind, result_bind.
  destruct (im !! i) as [row|].
  - destruct (row !! j) as [c'|] eqn:E.
    + split.
      * intros H. inversion H. subst. exists row. split; [reflexivity|exact E].
      * intros (r & Hr & H). inversion Hr. subst. rewrite E in H.
        inversion H. reflexivity.
    + split; [discriminate|].
      intros (r & Hr & H). inversion Hr. subst. rewrite E in H. discriminate.
  - split; [discriminate|]. intros (r & Hr & _). discriminate.
Qed.

(** ** The class collapse (lines 135-137) *)

Lemma collapse_classes_map (im : raster) :
  collapse_classes im = map (map collapse_cell) im.
Proof.
  unfold collapse_classes, assign_where.
  rewrite map_map. apply map_ext. intros row.
  rewrite map_map. apply map_ext. intros c.
  unfold collapse_cell. destruct (cell_eqb c 1) eqn:E1; [reflexivity|].
  reflexivity.
Qed.

Lemma pixel_map (f : cell -> cell) (im : raster) (i j : nat) (c : cell) :
  pixel im i j = Ok c -> pixel (map (map f) im) i j = Ok (f c).
Proof.
  rewrite !pixel_Ok. intros (row & Hi & Hj).
  exists (map f row). split.
  - rewrite list_lookup_fmap, Hi. reflexivity.
  - rewrite list_lookup_fmap, Hj. reflexivity.
Qed.

(** C2, a cell the claim gets wrong: class 1 is not the land class 0, and the
    collapse sends it to 0, not to 1. *)
Lemma collapse_class_one_counterexample :
  collapse_classes [[Some 1%Q]] = [[Some 0%Q]] /\
  collapse_classes [[Some 1%Q]] <> [[Some 1%Q]].
Proof. split; [reflexivity | discriminate]. Qed.

(** C2 (amended): the collapse keeps the shape of the image and acts cell by
    cell: classes 0 and 1 end as 0, classes 2 and 3 end as 1, any other cell
    (NaN included) is left as it was; so a cell whose class is one of 0, 1, 2,
    3 is 0 or 1 afterwards. *)
Theorem collapse_classes_cells (im : raster) (i j : nat) (c : cell) :
  pixel im i j = Ok c ->
  exists c', pixel (collapse_classes im) i j = Ok c' /\
    (cell_eqb c 0 = true \/ cell_eqb c 1 = true -> cell_eqb c' 0 = true) /\
    (cell_eqb c 2 = true \/ cell_eqb c 3 = true -> cell_eqb c' 1 = true) /\
    (cell_eqb c 0 = false -> cell_eqb c 1 = false ->
     cell_eqb c 2 = false -> cell_eqb c 3 = false -> c' = c).
Proof.
  intros Hpx. exists (collapse_cell c). split.
  - rewrite collapse_classes_map. apply pixel_map. exact Hpx.
  - unfold collapse_cell. split; [|split].
    + intros [H|H].
      * assert (H1 : cell_eqb c 1 = false)
          by (apply (cell_eqb_distinct c 0 1); [discriminate | exact H]).
        assert (H2 : cell_eqb c 2 = false)
          by (apply (cell_eqb_distinct c 0 2); [discriminate | exact H]).
        assert (H3 : cell_eqb c 3 = false)
          by (apply (cell_eqb_distinct c 0 3); [discriminate | exact H]).
        rewrite H1, H2, H3. exact H.
      * rewrite H. reflexivity.
    + intros [H|H].
      * assert (H1 : cell_eqb c 1 = false)
          by (apply (cell_eqb_distinct c 2 1); [discriminate | exact H]).
        rewrite H1, H, orb_true_r. reflexivity.
      * assert (H1 : cell_eqb c 1 = false)
          by (apply (cell_eqb_distinct c 3 1); [discriminate | exact H]).
        rewrite H1, H. reflexivity.
    + intros _ H1 H2 H3. rewrite H1, H2, H3. reflexivity.
Qed.

Lemma collapse_classes_cells_witness :
  exists c', pixel (collapse_classes [[Some 1%Q; Some 3%Q]]) 0 1 = Ok c' /\
    (cell_eqb (Some 3%Q) 0 = true \/ cell_eqb (Some 3%Q) 1 = true ->
     cell_eqb c' 0 = true) /\
    (cell_eqb (Some 3%Q) 2 = true \/ cell_eqb (Some 3%Q) 3 = true ->
     cell_eqb c' 1 = true) /\
    (cell_eqb (Some 3%Q) 0 = false -> cell_eqb (Some 3%Q) 1 = false ->
     cell_eqb (Some 3%Q) 2 = false -> cell_eqb (Some 3%Q) 3 = false ->
     c' = Some 3%Q).
Proof.
  apply (collapse_classes_cells [[Some 1%Q; Some 3%Q]] 0 1 (Some 3%Q)).
  reflexivity.
Defined.

(** ** The consensus raster and the confidence mask (lines 145-160) *)

Lemma for_each_Ok {A B : Type} (f : A -> result B) (l : list A) (bs : list B) :
  for_each f l = Ok bs ->
  length bs = length l /\
  forall i a, l !! i = Some a -> exists b, bs !! i = Some b /\ f a = Ok b.
Proof.
  revert bs. induction l as [|a l IH]; simpl; intros bs H.
  - inversion H. split; [reflexivity|]. intros i a Hi. discriminate.
  - unfold mbind, result_bind in H.
    destruct (f a) as [b|] eqn:Ef; [|discriminate].
    destruct (for_each f l) as [bs'|] eqn:El; [|discriminate].
    inversion H; subst. destruct (IH bs' eq_refl) as [Hlen Hlk].
    split; [simpl; congruence|].
    intros [|i] x Hi; simpl in *.
    + inversion Hi; subst. eauto.
    + apply Hlk. exact Hi.
Qed.

Lemma for_each_total {A B : Type} (f : A -> result B) (l : list A) :
  (forall a, a ∈ l -> exists b, f a = Ok b) -> exists bs, for_each f l = Ok bs.
Proof.
  induction l as [|a l IH]; simpl; intros H.
  - eauto.
  - destruct (H a) as [b Hb]; [left|].
    destruct IH as [bs Hbs]; [intros x Hx; apply H; right; exact Hx|].
    exists (b :: bs). unfold mbind, result_bind. rewrite Hb, Hbs. reflexivity.
Qed.

Lemma im_av_lookup (skip : list nat) (cloud_cover : list Q) (ims : list raster)
    (height width : nat) (av : raster) (i j : nat) :
  im_av skip cloud_cover ims height width = Ok av ->
  i < height -> j < width ->
  length av = height /\
  exists row vs, av !! i = Some row /\ length row = width /\
    pixel_values skip cloud_cover ims i j = Ok vs /\
    row !! j = Some (nanmean vs).
Proof.
  intros Hav Hi Hj. unfold im_av in Hav.
  apply for_each_Ok in Hav as [Hlen Hrows].
  rewrite length_seq in Hlen. split; [exact Hlen|].
  destruct (Hrows i i) as (row & Hrow & Hf).
  { apply lookup_seq. lia. }
  apply for_each_Ok in Hf as [Hlenr Hcells].
  rewrite length_seq in Hlenr.
  destruct (Hcells j j) as (c & Hc & Hv).
  { apply lookup_seq. lia. }
  unfold mbind, result_bind in Hv.
  destruct (pixel_values skip cloud_cover ims i j) as [vs|] eqn:Evs; [|discriminate].
  inversion Hv; subst. exists row, vs. auto.
Qed.

Lemma im_av_shape (skip : list nat) (cloud_cover : list Q) (ims : list raster)
    (height width : nat) (av : raster) :
  im_av skip cloud_cover ims height width = Ok av ->
  length av = height /\ Forall (fun row => length row = width) av.
Proof.
  intros Hav. unfold im_av in Hav.
  apply for_each_Ok in Hav as [Hlen Hrows].
  rewrite length_seq in Hlen. split; [exact Hlen|].
  apply Forall_lookup. intros i row Hrow.
  assert (Hi : i < height) by (rewrite <- Hlen; eapply lookup_lt_Some; eauto).
  destruct (Hrows i i) as (row' & Hrow' & Hf).
  { apply lookup_seq. lia. }
  rewrite Hrow in Hrow'. inversion Hrow'; subst.
  apply for_each_Ok in Hf as [Hlenr _]. rewrite length_seq in Hlenr. exact Hlenr.
Qed.

Lemma nanmean_all_nan (vs : list cell) :
  Forall (fun v => v = NaN) vs -> nanmean vs = NaN.
Proof.
  intros H. unfold nanmean.
  replace (omap id vs) with (@nil Q); [reflexivity|].
  induction H as [|v vs Hv _ IH]; [reflexivity|].
  subst v. simpl. exact IH.
Qed.

Lemma confident_spec (s : qa_settings) (c : cell) :
  confident s c = true <->
  exists v, c = Some v /\ ((1 - prc_pixel s < v)%Q \/ (v < prc_pixel s)%Q).
Proof.
  unfold confident. rewrite orb_true_iff, cell_gt_spec, cell_lt_spec. split.
  - intros [(v & -> & H)|(v & -> & H)]; eauto.
  - intros (v & -> & [H|H]); eauto.
Qed.

Lemma im_bin_lookup (s : qa_settings) (height width : nat) (av : raster)
    (bin : list (list bool)) (i j : nat) (row : list cell) (c : cell) :
  im_bin s height width av = Ok bin ->
  length av = height -> Forall (fun r => length r = width) av ->
  av !! i = Some row -> row !! j = Some c ->
  exists brow, bin !! i = Some brow /\ length brow = width /\
    brow !! j = Some (confident s c && negb (i =? 0) && negb (i =? height - 1)
                      && negb (j =? 0) && negb (j =? width - 1)).
Proof.
  intros Hbin Hh Hw Hrow Hc.
  assert (Hi : i < height) by (rewrite <- Hh; eapply lookup_lt_Some; eauto).
  assert (Hlr : length row = width).
  { rewrite Forall_lookup in Hw. eapply Hw; eauto. }
  assert (Hj : j < width) by (rewrite <- Hlr; eapply lookup_lt_Some; eauto).
  unfold im_bin, clear_edge_cols, clear_edge_rows, mbind, result_bind in Hbin.
  destruct (width =? 0) eqn:Ew; [discriminate|].
  destruct (height =? 0) eqn:Eh; [discriminate|].
  inversion Hbin; subst bin; clear Hbin.
  set (m := map _ (map _ av)).
  assert (Hm : m !! i = Some (<[width - 1 := false]>
                 (<[0 := false]> (map (confident s) row)))).
  { unfold m. rewrite !list_lookup_fmap, Hrow. reflexivity. }
  assert (Hlm : length m = height).
  { unfold m. rewrite !length_map. exact Hh. }
  destruct (Nat.eqb_spec i (height - 1)) as [Ei|Ei].
  - subst i. rewrite list_lookup_insert_eq by (rewrite length_insert; lia).
    exists (replicate width false). split; [reflexivity|].
    split; [apply length_replicate|].
    rewrite lookup_replicate_2 by lia.
    rewrite !andb_false_r. reflexivity.
  - rewrite list_lookup_insert_ne by lia.
    destruct (Nat.eqb_spec i 0) as [E0|E0].
    + subst i. rewrite list_lookup_insert_eq by lia.
      exists (replicate width false). split; [reflexivity|].
      split; [apply length_replicate|].
      rewrite lookup_replicate_2 by lia.
      rewrite !andb_false_r. reflexivity.
    + rewrite list_lookup_insert_ne by lia. rewrite Hm.
      eexists. split; [reflexivity|].
      split; [rewrite !length_insert, length_map; exact Hlr|].
      simpl. rewrite !andb_true_r.
      destruct (Nat.eqb_spec j (width - 1)) as [Ej|Ej].
      * subst j. rewrite list_lookup_insert_eq
          by (rewrite length_insert, length_map; lia).
        rewrite !andb_false_r. reflexivity.
      * rewrite list_lookup_insert_ne by lia.
        destruct (Nat.eqb_spec j 0) as [Ej0|Ej0].
        -- subst j. rewrite list_lookup_insert_eq by (rewrite length_map; lia).
           rewrite !andb_false_r. reflexivity.
        -- rewrite list_lookup_insert_ne by lia.
           rewrite list_lookup_fmap, Hc. simpl. rewrite !andb_true_r. reflexivity.
Qed.

Lemma im_bin_total (s : qa_settings) (height width : nat) (av : raster) :
  0 < height -> 0 < width -> exists bin, im_bin s height width av = Ok bin.
Proof.
  intros Hh Hw. unfold im_bin, clear_edge_cols, clear_edge_rows, mbind, result_bind.
  destruct (Nat.eqb_spec width 0); [lia|].
  destruct (Nat.eqb_spec height 0); [lia|]. eauto.
Qed.

(** C7: a pixel is in the confidence mask exactly when its consensus value is
    a number above [1 - prc_pixel] or below [prc_pixel] and the pixel lies on
    none of the four edges; a pixel whose consensus value is NaN, as when no
    image contributes a value to it, is not in the mask. *)
Theorem confidence_mask_spec (skip : list nat) (cloud_cover : list Q)
    (ims : list raster) (s : qa_settings) (height width : nat) (av : raster)
    (i j : nat) :
  im_av skip cloud_cover ims height width = Ok av ->
  i < height -> j < width ->
  exists bin vs brow b,
    im_bin s height width av = Ok bin /\
    pixel_values skip cloud_cover ims i j = Ok vs /\
    pixel av i j = Ok (nanmean vs) /\
    bin !! i = Some brow /\ brow !! j = Some b /\
    (b = true <->
       (exists v, nanmean vs = Some v /\
                  ((1 - prc_pixel s < v)%Q \/ (v < prc_pixel s)%Q)) /\
       0 < i /\ i < height - 1 /\ 0 < j /\ j < width - 1) /\
    (nanmean vs = NaN -> b = false) /\
    (Forall (fun v => v = NaN) vs -> b = false).
Proof.
  intros Hav Hi Hj.
  destruct (im_bin_total s height width av) as [bin Hbin]; [lia|lia|].
  destruct (im_av_lookup _ _ _ _ _ _ i j Hav Hi Hj)
    as (Hlen & row & vs & Hrow & Hlr & Hvs & Hc).
  destruct (im_av_shape _ _ _ _ _ _ Hav) as [_ Hshape].
  destruct (im_bin_lookup s height width av bin i j row (nanmean vs)
              Hbin Hlen Hshape Hrow Hc) as (brow & Hb & _ & Hbj).
  eexists bin, vs, brow, _. split; [exact Hbin|]. split; [exact Hvs|].
  split; [apply pixel_Ok; eauto|].
  split; [exact Hb|]. split; [exact Hbj|].
  assert (Hiff : forall P : Prop, (confident s (nanmean vs) = true <-> P) ->
    (confident s (nanmean vs) && negb (i =? 0) && negb (i =? height - 1)
       && negb (j =? 0) && negb (j =? width - 1) = true <->
     P /\ 0 < i /\ i < height - 1 /\ 0 < j /\ j < width - 1)).
  { intros P HP. rewrite !andb_true_iff, !negb_true_iff, !Nat.eqb_neq, HP.
    split; [intros ((((H0 & H1) & H2) & H3) & H4)|intros (H0 & H1)];
      repeat split; try lia; exact H0. }
  split; [apply Hiff, confident_spec|].
  assert (Hnan : nanmean vs = NaN ->
    confident s (nanmean vs) && negb (i =? 0) && negb (i =? height - 1)
       && negb (j =? 0) && negb (j =? width - 1) = false).
  { intros ->. reflexivity. }
  split; [exact Hnan|].
  intros Hall. apply Hnan, nanmean_all_nan, Hall.
Qed.

Lemma confidence_mask_spec_witness :
  exists bin vs brow b,
    im_bin demo_settings 3 3 demo_av = Ok bin /\
    pixel_values [3] demo_cloud_cover demo_formatted 1 1 = Ok vs /\
    pixel demo_av 1 1 = Ok (nanmean vs) /\
    bin !! 1 = Some brow /\ brow !! 1 = Some b /\
    (b = true <->
       (exists v, nanmean vs = Some v /\
                  ((1 - prc_pixel demo_settings < v)%Q \/
                   (v < prc_pixel demo_settings)%Q)) /\
       0 < 1 /\ 1 < 3 - 1 /\ 0 < 1 /\ 1 < 3 - 1) /\
    (nanmean vs = NaN -> b = false) /\
    (Forall (fun v => v = NaN) vs -> b = false).
Proof.
  apply (confidence_mask_spec [3] demo_cloud_cover demo_formatted demo_settings
           3 3 demo_av 1 1).
  - vm_compute. reflexivity.
  - lia.
  - lia.
Defined.

(** ** Rejection of diverging images (lines 170-195) *)

Lemma in_list_true (k : nat) (l : list nat) : in_list k l = true <-> k ∈ l.
Proof. unfold in_list. apply bool_decide_eq_true. Qed.

Lemma in_list_false (k : nat) (l : list nat) : in_list k l = false <-> k ∉ l.
Proof. unfold in_list. apply bool_decide_eq_false. Qed.

Lemma idx_remove_from_bounds (k0 : nat) (s : qa_settings) (skip : list nat)
    (av : raster) (bin : list (list bool)) (ims : list raster) (rm : list nat) :
  idx_remove_from k0 s skip av bin ims = Ok rm ->
  Forall (fun x => k0 <= x < k0 + length ims) rm.
Proof.
  revert k0 rm. induction ims as [|im ims IH]; simpl; intros k0 rm H.
  - inversion H. constructor.
  - unfold mbind, result_bind in H.
    assert (Hweak : forall r, Forall (fun x => S k0 <= x < S k0 + length ims) r ->
                              Forall (fun x => k0 <= x < k0 + S (length ims)) r).
    { intros r Hr. eapply Forall_impl; [exact Hr|]. intros x Hx. simpl in Hx. lia. }
    destruct (in_list k0 skip).
    + destruct (idx_remove_from (S k0) s skip av bin ims) as [r|] eqn:E; [|discriminate].
      inversion H; subst. constructor; [lia|]. apply Hweak, IH, E.
    + destruct (prc_change av bin im) as [p|]; [|discriminate].
      destruct (idx_remove_from (S k0) s skip av bin ims) as [r|] eqn:E; [|discriminate].
      inversion H; subst.
      destruct (ratio_gt p (prc_image s)); [constructor; [lia|]|]; apply Hweak, IH, E.
Qed.

Lemma idx_remove_from_spec (k0 : nat) (s : qa_settings) (skip : list nat)
    (av : raster) (bin : list (list bool)) (ims : list raster) (rm : list nat) :
  idx_remove_from k0 s skip av bin ims = Ok rm ->
  forall k im, ims !! k = Some im ->
    if in_list (k0 + k) skip then (k0 + k) ∈ rm
    else exists p, prc_change av bin im = Ok p /\
                   ((k0 + k) ∈ rm <-> ratio_gt p (prc_image s) = true).
Proof.
  revert k0 rm. induction ims as [|im0 ims IH]; simpl; intros k0 rm H k im Hk.
  - discriminate.
  - unfold mbind, result_bind in H.
    destruct k as [|k]; simpl in Hk.
    + inversion Hk; subst im0; clear Hk. rewrite Nat.add_0_r.
      destruct (in_list k0 skip).
      * destruct (idx_remove_from (S k0) s skip av bin ims) as [r|]; [|discriminate].
        inversion H; subst. left.
      * destruct (prc_change av bin im) as [p|]; [|discriminate].
        destruct (idx_remove_from (S k0) s skip av bin ims) as [r|] eqn:E;
          [|discriminate].
        inversion H; subst. exists p. split; [reflexivity|].
        apply idx_remove_from_bounds in E.
        assert (Hnot : k0 ∉ r).
        { intros Hin. rewrite Forall_forall in E. apply E in Hin. lia. }
        destruct (ratio_gt p (prc_image s)).
        -- split; [reflexivity|]. intros _. left.
        -- split; [intros Hin; contradiction|discriminate].
    + replace (k0 + S k) with (S k0 + k) by lia.
      assert (Hne : S k0 + k <> k0) by lia.
      destruct (in_list k0 skip).
      * destruct (idx_remove_from (S k0) s skip av bin ims) as [r|] eqn:E;
          [|discriminate].
        inversion H; subst. specialize (IH _ _ E k im Hk).
        destruct (in_list (S k0 + k) skip).
        -- right. exact IH.
        -- destruct IH as (p & Hp & Hiff). exists p. split; [exact Hp|].
           rewrite elem_of_cons. rewrite <- Hiff. tauto.
      * destruct (prc_change av bin im0) as [p0|]; [|discriminate].
        destruct (idx_remove_from (S k0) s skip av bin ims) as [r|] eqn:E;
          [|discriminate].
        inversion H; subst. specialize (IH _ _ E k im Hk).
        destruct (ratio_gt p0 (prc_image s)).
        -- destruct (in_list (S k0 + k) skip).
           ++ right. exact IH.
           ++ destruct IH as (p & Hp & Hiff). exists p. split; [exact Hp|].
              rewrite elem_of_cons. rewrite <- Hiff. tauto.
        -- exact IH.
Qed.

Lemma idx_remove_from_total (k0 : nat) (s : qa_settings) (skip : list nat)
    (av : raster) (bin : list (list bool)) (ims : list raster) :
  (forall k im, ims !! k = Some im -> in_list (k0 + k) skip = false ->
                exists p, prc_change av bin im = Ok p) ->
  exists rm, idx_remove_from k0 s skip av bin ims = Ok rm.
Proof.
  revert k0. induction ims as [|im ims IH]; simpl; intros k0 H.
  - eauto.
  - destruct (IH (S k0)) as [r Hr].
    { intros k im' Hk Hs. apply (H (S k) im' Hk).
      replace (k0 + S k) with (S k0 + k) by lia. exact Hs. }
    unfold mbind, result_bind. rewrite Hr.
    destruct (in_list k0 skip) eqn:Es; [eauto|].
    destruct (H 0 im eq_refl) as [p Hp].
    { rewrite Nat.add_0_r. exact Es. }
    rewrite Hp. eauto.
Qed.

Lemma ratio_gt_spec (p : ratio) (t : Q) :
  ratio_gt p t = true <->
  match p with
  | ratio_nan => False
  | ratio_inf => True
  | ratio_val q => (t < q)%Q
  end.
Proof.
  destruct p; simpl.
  - split; [discriminate|contradiction].
  - tauto.
  - apply Qltb_lt.
Qed.

Lemma prc_change_total (av : raster) (bin : list (list bool)) (im : raster) :
  same_shape av im = true -> exists p, prc_change av bin im = Ok p.
Proof.
  intros H. unfold prc_change, im_diff, mbind, result_bind. rewrite H. eauto.
Qed.

Lemma masked_row_count (brow : list bool) (arow vrow : list cell) :
  length (filter (fun c => cell_eqb c 1 = true)
            (zip_with (fun (b : bool) (c : cell) => if b then c else NaN) brow
               (zip_with (fun a v => cell_abs (cell_sub (cell_round a) v))
                         arow vrow))) =
  length (filter (fun bav : bool * (cell * cell) =>
                    bav.1 && diverges bav.2.1 bav.2.2 = true)
            (zip brow (zip arow vrow))).
Proof.
  revert arow vrow. induction brow as [|b brow IH]; intros [|a arow] [|v vrow];
    try reflexivity.
  change (zip_with (fun (b : bool) (c : cell) => if b then c else NaN) (b :: brow)
            (zip_with (fun a v => cell_abs (cell_sub (cell_round a) v))
                      (a :: arow) (v :: vrow)))
    with ((if b then cell_abs (cell_sub (cell_round a) v) else NaN)
          :: zip_with (fun (b : bool) (c : cell) => if b then c else NaN) brow
               (zip_with (fun a v => cell_abs (cell_sub (cell_round a) v))
                         arow vrow)).
  change (zip (b :: brow) (zip (a :: arow) (v :: vrow)))
    with ((b, (a, v)) :: zip brow (zip arow vrow)).
  rewrite !filter_cons. specialize (IH arow vrow).
  destruct b; simpl.
  - unfold diverges in *.
    destruct (decide (cell_eqb (cell_abs (cell_sub (cell_round a) v)) 1 = true));
      simpl; [f_equal|]; exact IH.
  - exact IH.
Qed.

Lemma masked_count (bin : list (list bool)) (av im : raster) :
  count2 (fun c => cell_eqb c 1)
    (zip_with (zip_with (fun (b : bool) (c : cell) => if b then c else NaN)) bin
       (zip_with (zip_with (fun a v => cell_abs (cell_sub (cell_round a) v)))
                 av im)) =
  diverging_confident_pixels av bin im.
Proof.
  unfold diverging_confident_pixels, count2.
  revert av im. induction bin as [|brow bin IH]; intros [|arow av] [|vrow im];
    try reflexivity.
  simpl. rewrite masked_row_count. f_equal. apply IH.
Qed.

Lemma prc_change_divergence (av : raster) (bin : list (list bool)) (im : raster)
    (p : ratio) :
  prc_change av bin im = Ok p -> p = divergence av bin im.
Proof.
  unfold prc_change, im_diff, divergence, mbind, result_bind.
  destruct (same_shape av im); [|discriminate].
  intros H. inversion H. rewrite masked_count. reflexivity.
Qed.

(** C4: an image that was not skipped for its size is removed for its
    classification exactly when its divergence, the share of the confident
    pixels where the rounded consensus and the image differ by exactly 1, is
    strictly greater than [prc_image]; a divergence equal to [prc_image] keeps
    the image. *)
Theorem divergence_rejection_strict (s : qa_settings) (skip : list nat)
    (av : raster) (bin : list (list bool)) (ims : list raster) :
  (forall k im, ims !! k = Some im -> k ∉ skip -> same_shape av im = true) ->
  exists rm, idx_remove s skip av bin ims = Ok rm /\
    forall k im, ims !! k = Some im -> k ∉ skip ->
      prc_change av bin im = Ok (divergence av bin im) /\
      (k ∈ rm <-> match divergence av bin im with
                  | ratio_nan => False
                  | ratio_inf => True
                  | ratio_val q => (prc_image s < q)%Q
                  end) /\
      (forall q, divergence av bin im = ratio_val q ->
                 (q == prc_image s)%Q -> k ∉ rm).
Proof.
  intros Hshape.
  destruct (idx_remove_from_total 0 s skip av bin ims) as [rm Hrm].
  { intros k im Hk Hs. simpl in Hs. apply in_list_false in Hs.
    apply prc_change_total, (Hshape k im Hk Hs). }
  exists rm. split; [exact Hrm|]. intros k im Hk Hskip.
  pose proof (idx_remove_from_spec 0 s skip av bin ims rm Hrm k im Hk) as H.
  simpl in H. apply in_list_false in Hskip. rewrite Hskip in H.
  destruct H as (p & Hp & Hiff).
  pose proof (prc_change_divergence av bin im p Hp) as ->.
  split; [exact Hp|].
  rewrite <- ratio_gt_spec. split; [exact Hiff|].
  intros q Hq Heq Hin. apply Hiff in Hin. rewrite Hq in Hin. simpl in Hin.
  rewrite Qltb_irrefl in Hin; [discriminate|]. symmetry. exact Heq.
Qed.

Lemma divergence_rejection_strict_witness :
  exists rm, idx_remove demo_settings [3] demo_av demo_bin demo_formatted = Ok rm /\
    forall k im, demo_formatted !! k = Some im -> k ∉ [3] ->
      prc_change demo_av demo_bin im = Ok (divergence demo_av demo_bin im) /\
      (k ∈ rm <-> match divergence demo_av demo_bin im with
                  | ratio_nan => False
                  | ratio_inf => True
                  | ratio_val q => (prc_image demo_settings < q)%Q
                  end) /\
      (forall q, divergence demo_av demo_bin im = ratio_val q ->
                 (q == prc_image demo_settings)%Q -> k ∉ rm).
Proof.
  apply (divergence_rejection_strict demo_settings [3] demo_av demo_bin
           demo_formatted).
  intros [|[|[|[|k]]]] im Hk Hs; simpl in Hk; inversion Hk; subst;
    try reflexivity.
  exfalso. apply Hs. left.
Defined.

Lemma masked_row_no_match (brow : list bool) (drow : list cell) :
  length (filter (fun b => id b = true) brow) = 0 ->
  length (filter (fun c => cell_eqb c 1 = true)
            (zip_with (fun (b : bool) (c : cell) => if b then c else NaN)
                      brow drow)) = 0.
Proof.
  revert drow. induction brow as [|b brow IH]; intros [|c drow] H; simpl;
    try reflexivity.
  destruct b.
  - rewrite filter_cons_True in H by reflexivity.
    rewrite length_cons in H. discriminate H.
  - rewrite filter_cons_False in H by (simpl; discriminate).
    rewrite filter_cons_False by (simpl; discriminate).
    apply IH. exact H.
Qed.

Lemma masked_no_match (bin : list (list bool)) (d : raster) :
  count2 id bin = 0 ->
  count2 (fun c => cell_eqb c 1)
    (zip_with (zip_with (fun (b : bool) (c : cell) => if b then c else NaN))
              bin d) = 0.
Proof.
  unfold count2. revert d. induction bin as [|brow bin IH]; intros [|drow d] H;
    simpl; try reflexivity.
  simpl in H. apply Nat.eq_add_0 in H as [H1 H2].
  rewrite masked_row_no_match by exact H1. rewrite IH by exact H2. reflexivity.
Qed.

Lemma prc_change_empty_mask (av : raster) (bin : list (list bool)) (im : raster) :
  count2 id bin = 0 -> same_shape av im = true ->
  prc_change av bin im = Ok ratio_nan.
Proof.
  intros Hbin Hshape. unfold prc_change, im_diff, mbind, result_bind.
  rewrite Hshape, Hbin, masked_no_match by exact Hbin. reflexivity.
Qed.

(** C10: when no pixel is in the confidence mask, the share of diverging
    pixels of every image that was not skipped is the NaN of 0/0, the
    comparison with [prc_image] fails, and the loop ends normally having
    removed the skipped images only. *)
Theorem empty_mask_rejects_nothing (s : qa_settings) (skip : list nat)
    (av : raster) (bin : list (list bool)) (ims : list raster) :
  count2 id bin = 0 ->
  (forall k im, ims !! k = Some im -> k ∉ skip -> same_shape av im = true) ->
  (forall k im, ims !! k = Some im -> k ∉ skip ->
                prc_change av bin im = Ok ratio_nan) /\
  exists rm, idx_remove s skip av bin ims = Ok rm /\
             forall k, k ∈ rm <-> k < length ims /\ k ∈ skip.
Proof.
  intros Hbin Hshape.
  assert (Hnan : forall k im, ims !! k = Some im -> k ∉ skip ->
                              prc_change av bin im = Ok ratio_nan).
  { intros k im Hk Hs. apply prc_change_empty_mask; [exact Hbin|].
    exact (Hshape k im Hk Hs). }
  split; [exact Hnan|].
  destruct (idx_remove_from_total 0 s skip av bin ims) as [rm Hrm].
  { intros k im Hk Hs. simpl in Hs. apply in_list_false in Hs.
    exists ratio_nan. exact (Hnan k im Hk Hs). }
  exists rm. split; [exact Hrm|].
  intros k. split.
  - intros Hin.
    pose proof (idx_remove_from_bounds _ _ _ _ _ _ _ Hrm) as Hb.
    rewrite Forall_forall in Hb. pose proof (Hb k Hin) as Hk. simpl in Hk.
    split; [lia|].
    destruct (lookup_lt_is_Some_2 ims k) as [im Him]; [lia|].
    pose proof (idx_remove_from_spec 0 s skip av bin ims rm Hrm k im Him) as H.
    simpl in H. destruct (in_list k skip) eqn:Es; [apply in_list_true, Es|].
    destruct H as (p & Hp & Hiff). apply in_list_false in Es.
    rewrite (Hnan k im Him Es) in Hp. inversion Hp; subst p.
    apply Hiff in Hin. discriminate Hin.
  - intros [Hlt Hs].
    destruct (lookup_lt_is_Some_2 ims k Hlt) as [im Him].
    pose proof (idx_remove_from_spec 0 s skip av bin ims rm Hrm k im Him) as H.
    simpl in H. apply in_list_true in Hs. rewrite Hs in H. exact H.
Qed.

Lemma empty_mask_rejects_nothing_witness :
  (forall k im, demo_small_stack !! k = Some im -> k ∉ [] ->
                prc_change demo_small_av demo_small_bin im = Ok ratio_nan) /\
  exists rm, idx_remove demo_settings [] demo_small_av demo_small_bin
                        demo_small_stack = Ok rm /\
             forall k, k ∈ rm <-> k < length demo_small_stack /\ k ∈ [].
Proof.
  apply (empty_mask_rejects_nothing demo_settings [] demo_small_av
           demo_small_bin demo_small_stack).
  - reflexivity.
  - intros [|[|k]] im H _; simpl in H; inversion H; reflexivity.
Defined.

(** ** The canonical size (lines 113-124) *)

Lemma insert_unique_elem (x y : nat) (l : list nat) :
  y ∈ insert_unique x l <-> y = x \/ y ∈ l.
Proof.
  induction l as [|z l IH]; simpl.
  - rewrite list_elem_of_singleton. split; [auto|].
    intros [H|H]; [exact H|inversion H].
  - destruct (Nat.ltb_spec x z).
    + rewrite elem_of_cons. tauto.
    + destruct (Nat.eqb_spec x z).
      * subst. rewrite elem_of_cons. tauto.
      * rewrite !elem_of_cons, IH. tauto.
Qed.

Lemma insert_unique_sorted (x : nat) (l : list nat) :
  StronglySorted lt l -> StronglySorted lt (insert_unique x l).
Proof.
  induction l as [|z l IH]; simpl; intros Hs.
  - repeat constructor.
  - apply StronglySorted_cons in Hs as [Hz Hl].
    destruct (Nat.ltb_spec x z).
    + apply StronglySorted_cons. split.
      * constructor; [exact H|]. eapply Forall_impl; [exact Hz|]. intros; simpl in *; lia.
      * apply StronglySorted_cons. auto.
    + destruct (Nat.eqb_spec x z).
      * apply StronglySorted_cons. auto.
      * apply StronglySorted_cons. split; [|auto].
        apply Forall_forall. intros y Hy.
        apply insert_unique_elem in Hy as [->|Hy]; [lia|].
        rewrite Forall_forall in Hz. auto.
Qed.

Lemma np_unique_elem (x : nat) (l : list nat) : x ∈ np_unique l <-> x ∈ l.
Proof.
  unfold np_unique. induction l as [|y l IH]; simpl.
  - reflexivity.
  - rewrite insert_unique_elem, elem_of_cons, IH. reflexivity.
Qed.

Lemma np_unique_sorted (l : list nat) : StronglySorted lt (np_unique l).
Proof.
  unfold np_unique. induction l as [|y l IH]; simpl.
  - constructor.
  - apply insert_unique_sorted, IH.
Qed.

Lemma sorted_lookup_lt (l : list nat) (i j a b : nat) :
  StronglySorted lt l -> i < j -> l !! i = Some a -> l !! j = Some b -> a < b.
Proof.
  intros Hs. revert i j. induction Hs as [|x l Hs IH Hx]; intros i j Hij Hi Hj.
  - discriminate.
  - destruct j as [|j]; [lia|]. simpl in Hj.
    destruct i as [|i]; simpl in Hi.
    + inversion Hi; subst. rewrite Forall_forall in Hx. apply Hx.
      apply list_elem_of_lookup. eauto.
    + apply (IH i j); [lia|assumption|assumption].
Qed.

Lemma count_eq_pos (l : list nat) (x : nat) : 0 < count_eq l x <-> x ∈ l.
Proof.
  unfold count_eq. split.
  - intros H. destruct (filter (fun y => y = x) l) as [|y r] eqn:E; [simpl in H; lia|].
    assert (Hy : y ∈ filter (fun y => y = x) l) by (rewrite E; left).
    apply list_elem_of_filter in Hy as [-> Hy]. exact Hy.
  - intros H.
    assert (Hx : x ∈ filter (fun y => y = x) l) by (apply list_elem_of_filter; auto).
    destruct (filter (fun y => y = x) l); [inversion Hx|simpl; lia].
Qed.

Lemma argmax_from_spec (l : list nat) (bi bv i : nat) :
  (argmax_from bi bv i l = bi /\ Forall (fun w => w <= bv) l) \/
  (exists j v, argmax_from bi bv i l = i + j /\ l !! j = Some v /\ bv < v /\
     forall j' w, l !! j' = Some w -> w <= v /\ (j' < j -> w < v)).
Proof.
  revert bi bv i. induction l as [|x r IH]; intros bi bv i; simpl.
  - left. split; [reflexivity|constructor].
  - destruct (Nat.ltb_spec bv x) as [Hlt|Hge].
    + right. destruct (IH i x (S i)) as [[Ha Hall]|(j & v & Ha & Hj & Hv & Hmax)].
      * exists 0, x. split; [lia|]. split; [reflexivity|]. split; [exact Hlt|].
        intros [|j'] w Hw; simpl in Hw.
        -- inversion Hw; subst. split; lia.
        -- rewrite Forall_forall in Hall. split; [|lia].
           apply Hall. apply list_elem_of_lookup. eauto.
      * exists (S j), v. split; [lia|]. split; [exact Hj|]. split; [lia|].
        intros [|j'] w Hw; simpl in Hw.
        -- inversion Hw; subst. split; lia.
        -- destruct (Hmax j' w Hw). split; [assumption|]. intros. apply H0. lia.
    + destruct (IH bi bv (S i)) as [[Ha Hall]|(j & v & Ha & Hj & Hv & Hmax)].
      * left. split; [exact Ha|]. constructor; assumption.
      * right. exists (S j), v. split; [lia|]. split; [exact Hj|]. split; [exact Hv|].
        intros [|j'] w Hw; simpl in Hw.
        -- inversion Hw; subst. split; lia.
        -- destruct (Hmax j' w Hw). split; [assumption|]. intros. apply H0. lia.
Qed.

Lemma np_argmax_spec (l : list nat) :
  l <> [] ->
  exists i v, np_argmax l = Ok i /\ l !! i = Some v /\
    forall j w, l !! j = Some w -> w <= v /\ (j < i -> w < v).
Proof.
  destruct l as [|x r]; [congruence|]. intros _. simpl.
  destruct (argmax_from_spec r 0 x 1) as [[Ha Hall]|(j & v & Ha & Hj & Hv & Hmax)].
  - exists 0, x. split; [rewrite Ha; reflexivity|]. split; [reflexivity|].
    intros [|j] w Hw; simpl in Hw.
    + inversion Hw; subst. split; lia.
    + rewrite Forall_forall in Hall. split; [|lia].
      apply Hall. apply list_elem_of_lookup. eauto.
  - exists (S j), v. split; [rewrite Ha; reflexivity|]. split; [exact Hj|].
    intros [|j'] w Hw; simpl in Hw.
    + inversion Hw; subst. split; lia.
    + destruct (Hmax j' w Hw). split; [assumption|]. intros. apply H0. lia.
Qed.

Lemma mode_of_unique_index (dim : list nat) (i m : nat) :
  np_unique dim !! i = Some m ->
  (forall j w, map (count_eq dim) (np_unique dim) !! j = Some w ->
               w <= count_eq dim m /\ (j < i -> w < count_eq dim m)) ->
  is_mode dim m.
Proof.
  intros Hi Hmax.
  assert (Hm : m ∈ dim).
  { apply np_unique_elem, list_elem_of_lookup. eauto. }
  split; [exact Hm|]. intros x.
  destruct (decide (x ∈ dim)) as [Hx|Hx].
  - apply np_unique_elem, list_elem_of_lookup in Hx as [j Hj].
    destruct (Hmax j (count_eq dim x)) as [Hle Hlt].
    { rewrite list_lookup_fmap, Hj. reflexivity. }
    split; [exact Hle|]. intros Heq.
    destruct (Nat.lt_trichotomy j i) as [Hji|[->|Hij]].
    + specialize (Hlt Hji). lia.
    + rewrite Hi in Hj. inversion Hj. lia.
    + pose proof (sorted_lookup_lt _ _ _ _ _ (np_unique_sorted dim) Hij Hi Hj). lia.
  - apply count_eq_pos in Hm.
    assert (count_eq dim x = 0).
    { destruct (count_eq dim x) eqn:E; [reflexivity|].
      exfalso. apply Hx, count_eq_pos. lia. }
    split; lia.
Qed.

Lemma mode_dim_spec (dim : list nat) :
  dim <> [] -> exists m, mode_dim dim = Ok m /\ is_mode dim m.
Proof.
  intros Hne. unfold mode_dim.
  destruct (Nat.eqb_spec (length (np_unique dim)) 1) as [H1|H1].
  - destruct dim as [|d0 dim']; [congruence|].
    exists d0. split; [reflexivity|].
    destruct (np_unique (d0 :: dim')) as [|u [|u' U]] eqn:EU; try discriminate.
    assert (Hd : d0 ∈ [u]) by (rewrite <- EU; apply np_unique_elem; left).
    apply list_elem_of_singleton in Hd. subst u.
    apply (mode_of_unique_index _ 0); rewrite EU; [reflexivity|].
    intros [|j] w Hw; simpl in Hw; [|discriminate].
    inversion Hw; subst. split; lia.
  - assert (HU : np_unique dim <> []).
    { destruct dim as [|d0 dim']; [congruence|]. intros E.
      assert (Hd : d0 ∈ np_unique (d0 :: dim')) by (apply np_unique_elem; left).
      rewrite E in Hd. inversion Hd. }
    destruct (np_argmax_spec (map (count_eq dim) (np_unique dim)))
      as (i & v & Ha & Hv & Hmax).
    { destruct (np_unique dim); [congruence|discriminate]. }
    unfold mbind, result_bind. rewrite Ha.
    rewrite list_lookup_fmap in Hv.
    destruct (np_unique dim !! i) as [m|] eqn:Em; [|discriminate].
    simpl in Hv. inversion Hv; subst v.
    exists m. split; [apply getitem_Ok; exact Em|].
    apply (mode_of_unique_index _ i); assumption.
Qed.

Lemma discard_misclassified_size (resize : raster -> nat -> nat -> raster)
    (s : qa_settings) (ims : list raster) (cloud_cover : list Q) (r : qa_result) :
  discard_misclassified resize s ims cloud_cover = Ok r ->
  canonical_size ims = Ok (qa_height r, qa_width r) /\
  qa_idx_skip r = idx_skip s (qa_height r) (qa_width r) ims.
Proof.
  unfold discard_misclassified, mbind, result_bind. intros H.
  destruct (canonical_size ims) as [[h w]|]; [|discriminate]. simpl in H.
  destruct (im_av _ _ _ _ _); [|discriminate].
  destruct (im_bin _ _ _ _); [|discriminate].
  destruct (idx_remove _ _ _ _ _); [|discriminate].
  inversion H; subst; simpl. split; reflexivity.
Qed.

(** C8, a stack the claim gets wrong: the canonical size (1, 4) pairs the most
    frequent height with the most frequent width, although no image has that
    size and the most frequent size is (1, 2). *)
Lemma canonical_size_pair_counterexample :
  canonical_size demo_mixed_stack = Ok (1, 4) /\
  count_shape demo_mixed_stack (1, 4) = 0 /\
  count_shape demo_mixed_stack (1, 2) = 2.
Proof. vm_compute. repeat split; reflexivity. Qed.

Lemma canonical_size_is_mode (ims : list raster) :
  ims <> [] ->
  exists height width,
    canonical_size ims = Ok (height, width) /\
    is_mode (map shape0 ims) height /\
    is_mode (map shape1 ims) width.
Proof.
  intros Hne.
  destruct (mode_dim_spec (map shape0 ims)) as (h & Hh & Hmh).
  { destruct ims; [congruence|discriminate]. }
  destruct (mode_dim_spec (map shape1 ims)) as (w & Hw & Hmw).
  { destruct ims; [congruence|discriminate]. }
  exists h, w. split; [|auto].
  unfold canonical_size, mbind, result_bind. rewrite Hh, Hw. reflexivity.
Qed.

(** C8 (amended): the canonical height is the most frequent height of the
    stack and the canonical width its most frequent width, each determined on
    its own, the smallest value winning a tie; this one size is the one the
    whole step works with. *)
Theorem canonical_size_modes (ims : list raster) :
  ims <> [] ->
  exists height width,
    canonical_size ims = Ok (height, width) /\
    is_mode (map shape0 ims) height /\
    is_mode (map shape1 ims) width /\
    forall resize s cloud_cover r,
      discard_misclassified resize s ims cloud_cover = Ok r ->
      qa_height r = height /\ qa_width r = width /\
      qa_idx_skip r = idx_skip s height width ims.
Proof.
  intros Hne.
  destruct (canonical_size_is_mode ims Hne) as (h & w & Hc & Hmh & Hmw).
  exists h, w. split; [exact Hc|]. split; [exact Hmh|]. split; [exact Hmw|].
  intros resize s cc r Hr.
  apply discard_misclassified_size in Hr as [Hc' Hs].
  rewrite Hc in Hc'. inversion Hc'; subst. auto.
Qed.

Lemma canonical_size_modes_witness :
  exists height width,
    canonical_size demo_stack = Ok (height, width) /\
    is_mode (map shape0 demo_stack) height /\
    is_mode (map shape1 demo_stack) width /\
    forall resize s cloud_cover r,
      discard_misclassified resize s demo_stack cloud_cover = Ok r ->
      qa_height r = height /\ qa_width r = width /\
      qa_idx_skip r = idx_skip s height width demo_stack.
Proof.
  apply (canonical_size_modes demo_stack). discriminate.
Defined.

(** ** Normal and abnormal termination of the step *)

Lemma is_mode_elem (l : list nat) (m : nat) : is_mode l m -> m ∈ l.
Proof. intros [H _]. exact H. Qed.

Lemma format_images_lookup (resize : raster -> nat -> nat -> raster)
    (skip : list nat) (height width : nat) (ims : list raster) (k : nat)
    (im : raster) :
  format_images resize skip height width ims !! k = Some im ->
  in_list k skip = false ->
  exists im0, ims !! k = Some im0 /\
              im = resize (collapse_classes im0) height width.
Proof.
  unfold format_images. rewrite list_lookup_imap. intros H Hs.
  destruct (ims !! k) as [im0|]; [|discriminate]. simpl in H.
  rewrite Hs in H. inversion H. eauto.
Qed.

Lemma same_shape_of_shape {A B : Type} (a : list (list A)) (b : list (list B))
    (width : nat) :
  length a = length b ->
  Forall (fun row => length row = width) a ->
  Forall (fun row => length row = width) b ->
  same_shape a b = true.
Proof.
  revert b. induction a as [|ra a IH]; intros [|rb b] Hl Ha Hb; simpl in *;
    try reflexivity; try discriminate.
  apply Forall_cons in Ha as [Hra Ha]. apply Forall_cons in Hb as [Hrb Hb].
  rewrite Hra, Hrb, Nat.eqb_refl. simpl. apply IH; [lia|assumption|assumption].
Qed.

Lemma pixel_total (im : raster) (height width i j : nat) :
  length im = height -> Forall (fun row => length row = width) im ->
  i < height -> j < width -> exists c, pixel im i j = Ok c.
Proof.
  intros Hh Hw Hi Hj.
  destruct (lookup_lt_is_Some_2 im i) as [row Hrow]; [lia|].
  rewrite Forall_lookup in Hw. pose proof (Hw i row Hrow) as Hlr.
  destruct (lookup_lt_is_Some_2 row j) as [c Hc]; [lia|].
  exists c. apply pixel_Ok. eauto.
Qed.

Lemma pixel_values_from_total (k : nat) (skip : list nat) (cloud_cover : list Q)
    (ims : list raster) (height width i j : nat) :
  k + length ims <= length cloud_cover ->
  (forall k' im, ims !! k' = Some im -> in_list (k + k') skip = false ->
     length im = height /\ Forall (fun row => length row = width) im) ->
  i < height -> j < width ->
  exists vs, pixel_values_from k skip cloud_cover ims i j = Ok vs.
Proof.
  revert k. induction ims as [|im ims IH]; simpl; intros k Hcc Hshape Hi Hj.
  - eauto.
  - destruct (getitem_lt cloud_cover k) as (cc & Hcck & _); [lia|].
    unfold mbind, result_bind. rewrite Hcck.
    destruct (IH (S k)) as [vs Hvs]; [lia| |exact Hi|exact Hj|].
    { intros k' im' Hk' Hs. apply (Hshape (S k') im' Hk').
      replace (k + S k') with (S k + k') by lia. exact Hs. }
    rewrite Hvs.
    destruct (Qltb (1 # 10) cc); simpl; [eauto|].
    destruct (in_list k skip) eqn:Es; [eauto|].
    destruct (Hshape 0 im eq_refl) as [Hh Hw].
    { rewrite Nat.add_0_r. exact Es. }
    destruct (pixel_total im height width i j Hh Hw Hi Hj) as [c Hc].
    rewrite Hc. eauto.
Qed.

Lemma im_av_total (skip : list nat) (cloud_cover : list Q) (ims : list raster)
    (height width : nat) :
  length ims <= length cloud_cover ->
  (forall k im, ims !! k = Some im -> in_list k skip = false ->
     length im = height /\ Forall (fun row => length row = width) im) ->
  exists av, im_av skip cloud_cover ims height width = Ok av.
Proof.
  intros Hcc Hshape. unfold im_av.
  apply for_each_total. intros i Hi. apply elem_of_seq in Hi.
  apply for_each_total. intros j Hj. apply elem_of_seq in Hj.
  destruct (pixel_values_from_total 0 skip cloud_cover ims height width i j)
    as [vs Hvs]; [simpl; lia|exact Hshape|lia|lia|].
  unfold pixel_values, mbind, result_bind. rewrite Hvs. eauto.
Qed.

Lemma discard_misclassified_total (resize : raster -> nat -> nat -> raster)
    (s : qa_settings) (ims : list raster) (cloud_cover : list Q) :
  ims <> [] ->
  resize_contract resize ->
  Forall (fun im => 0 < shape0 im /\ 0 < shape1 im) ims ->
  length ims <= length cloud_cover ->
  exists r, discard_misclassified resize s ims cloud_cover = Ok r.
Proof.
  intros Hne Hres Hpos Hcc.
  destruct (canonical_size_is_mode ims Hne) as (h & w & Hc & Hmh & Hmw).
  assert (Hh : 0 < h).
  { apply is_mode_elem, list_elem_of_fmap in Hmh as (im & -> & Him).
    rewrite Forall_forall in Hpos. apply Hpos, Him. }
  assert (Hw : 0 < w).
  { apply is_mode_elem, list_elem_of_fmap in Hmw as (im & -> & Him).
    rewrite Forall_forall in Hpos. apply Hpos, Him. }
  unfold discard_misclassified, mbind, result_bind. rewrite Hc. simpl.
  set (skip := idx_skip s h w ims).
  set (fims := format_images resize skip h w ims).
  assert (Hshape : forall k im, fims !! k = Some im -> in_list k skip = false ->
            length im = h /\ Forall (fun row => length row = w) im).
  { intros k im Hk Hs.
    destruct (format_images_lookup _ _ _ _ _ _ _ Hk Hs) as (im0 & _ & ->).
    apply Hres. }
  destruct (im_av_total skip cloud_cover fims h w) as [av Hav].
  { unfold fims, format_images. rewrite length_imap. exact Hcc. }
  { exact Hshape. }
  rewrite Hav.
  destruct (im_bin_total s h w av Hh Hw) as [bin Hbin]. rewrite Hbin.
  destruct (im_av_shape _ _ _ _ _ _ Hav) as [Hlav Hwav].
  destruct (idx_remove_from_total 0 s skip av bin fims) as [rm Hrm].
  { intros k im Hk Hs. simpl in Hs. apply prc_change_total.
    destruct (Hshape k im Hk Hs) as [Hl Hr].
    apply (same_shape_of_shape av im w); [lia|exact Hwav|exact Hr]. }
  unfold idx_remove. rewrite Hrm. eauto.
Qed.

(** C9: with no image at all the step ends in an exception (the [ValueError]
    of [np.argmax] on the empty list of counts) instead of an empty result,
    whereas a stack with at least one image always runs to the end, whichever
    images it rejects. *)
Theorem empty_stack_aborts :
  (forall resize s cloud_cover,
     discard_misclassified resize s [] cloud_cover = Raise ValueError) /\
  (forall resize s ims cloud_cover,
     ims <> [] ->
     resize_contract resize ->
     Forall (fun im => 0 < shape0 im /\ 0 < shape1 im) ims ->
     length ims <= length cloud_cover ->
     exists r, discard_misclassified resize s ims cloud_cover = Ok r /\
               Forall (fun k => k < length ims) (qa_idx_remove r)).
Proof.
  split; [reflexivity|].
  intros resize s ims cc Hne Hres Hpos Hcc.
  destruct (discard_misclassified_total resize s ims cc Hne Hres Hpos Hcc)
    as [r Hr].
  exists r. split; [exact Hr|].
  unfold discard_misclassified, mbind, result_bind in Hr.
  destruct (canonical_size ims) as [[h w]|]; [|discriminate]. simpl in Hr.
  destruct (im_av _ _ _ _ _) as [av|]; [|discriminate].
  destruct (im_bin _ _ _ _) as [bin|]; [|discriminate].
  destruct (idx_remove _ _ _ _ _) as [rm|] eqn:Erm; [|discriminate].
  inversion Hr; subst; simpl.
  apply idx_remove_from_bounds in Erm.
  eapply Forall_impl; [exact Erm|]. intros k Hk. simpl in Hk.
  unfold format_images in Hk. rewrite length_imap in Hk. lia.
Qed.

Lemma demo_resize_contract : resize_contract demo_resize.
Proof.
  intros im height width. unfold demo_resize. split.
  - rewrite length_map, length_seq. reflexivity.
  - apply Forall_forall. intros row Hrow.
    apply list_elem_of_fmap in Hrow as (i & -> & _).
    rewrite length_map, length_seq. reflexivity.
Qed.

Lemma empty_stack_aborts_witness :
  exists r, discard_misclassified demo_resize demo_settings demo_stack
                                  demo_cloud_cover = Ok r /\
            Forall (fun k => k < length demo_stack) (qa_idx_remove r).
Proof.
  apply (proj2 empty_stack_aborts demo_resize demo_settings demo_stack
               demo_cloud_cover).
  - discriminate.
  - exact demo_resize_contract.
  - repeat constructor.
  - simpl. lia.
Defined.

(** ** Index alignment of the filters (lines 215-219 and 359-363) *)

Lemma seq_sorted (a n : nat) : StronglySorted lt (seq a n).
Proof.
  revert a. induction n as [|n IH]; intros a; simpl.
  - constructor.
  - apply StronglySorted_cons. split; [|apply IH].
    apply Forall_forall. intros x Hx. apply elem_of_seq in Hx. lia.
Qed.

Lemma filter_sorted (P : nat -> Prop) `{!forall x, Decision (P x)} (l : list nat) :
  StronglySorted lt l -> StronglySorted lt (filter P l).
Proof.
  induction l as [|x l IH]; intros Hs.
  - constructor.
  - apply StronglySorted_cons in Hs as [Hx Hl].
    rewrite filter_cons. destruct (decide (P x)); [|auto].
    apply StronglySorted_cons. split; [|auto].
    apply Forall_forall. intros y Hy. apply list_elem_of_filter in Hy as [_ Hy].
    rewrite Forall_forall in Hx. auto.
Qed.

Lemma np_where_sorted (mask : list bool) : StronglySorted lt (np_where mask).
Proof. unfold np_where. apply filter_sorted, seq_sorted. Qed.

Lemma np_where_elem (mask : list bool) (i : nat) :
  i ∈ np_where mask <-> mask !! i = Some true.
Proof.
  unfold np_where. rewrite list_elem_of_filter, elem_of_seq. split.
  - intros [H _]. exact H.
  - intros H. split; [exact H|]. apply lookup_lt_Some in H. lia.
Qed.

Lemma idx_keep_elem (n : nat) (idx_remove : list nat) (i : nat) :
  i ∈ idx_keep n idx_remove <-> i < n /\ i ∉ idx_remove.
Proof.
  unfold idx_keep. rewrite np_where_elem, list_lookup_fmap. split.
  - destruct (seq 0 n !! i) as [k|] eqn:E; [|discriminate]. simpl.
    apply lookup_seq in E as [-> Hi]. simpl. intros H.
    inversion H as [H1]. apply negb_true_iff, in_list_false in H1. auto.
  - intros [Hi Hn]. rewrite lookup_seq_lt by exact Hi. simpl.
    apply in_list_false in Hn. rewrite Hn. reflexivity.
Qed.

Lemma where_not_nan_elem (v : list cell) (i : nat) :
  i ∈ where_not_nan v <-> exists q, v !! i = Some (Some q).
Proof.
  unfold where_not_nan. rewrite np_where_elem, list_lookup_fmap.
  destruct (v !! i) as [[q|]|]; simpl; split; try discriminate; eauto.
  - intros [q H]. discriminate.
  - intros [q H]. discriminate.
Qed.

Lemma where_not_nan_lt (v : list cell) (i : nat) :
  i ∈ where_not_nan v -> i < length v.
Proof.
  intros H. apply where_not_nan_elem in H as [q H].
  eapply lookup_lt_Some. exact H.
Qed.

Section Selection.

Context {A : Type}.

Lemma select_Ok (l : list A) (idx : list nat) (l' : list A) :
  select l idx = Ok l' ->
  length l' = length idx /\
  forall j i, idx !! j = Some i -> l' !! j = l !! i /\ i < length l.
Proof.
  unfold select. intros H. apply for_each_Ok in H as [Hlen Hlk].
  split; [exact Hlen|]. intros j i Hj.
  destruct (Hlk j i Hj) as (b & Hb & Hg). apply getitem_Ok in Hg.
  rewrite Hb, Hg. split; [reflexivity|]. eapply lookup_lt_Some. exact Hg.
Qed.

Lemma select_total (l : list A) (idx : list nat) :
  Forall (fun i => i < length l) idx -> exists l', select l idx = Ok l'.
Proof.
  intros H. unfold select. apply for_each_total. intros i Hi.
  rewrite Forall_forall in H. destruct (getitem_lt l i (H i Hi)) as (a & Ha & _).
  eauto.
Qed.

Lemma take_indices_spec (l : list A) (idx : list nat) :
  Forall (fun i => i < length l) idx ->
  length (take_indices l idx) = length idx /\
  forall j i, idx !! j = Some i -> take_indices l idx !! j = l !! i.
Proof.
  unfold take_indices. induction idx as [|i0 idx IH]; intros H.
  - split; [reflexivity|]. intros j i Hj. discriminate.
  - apply Forall_cons in H as [Hi0 H]. destruct (IH H) as [Hlen Hlk].
    destruct (lookup_lt_is_Some_2 l i0 Hi0) as [a Ha].
    simpl. rewrite Ha. simpl. split; [f_equal; exact Hlen|].
    intros [|j] i Hj; simpl in Hj.
    + inversion Hj; subst. simpl. auto.
    + simpl. apply Hlk. exact Hj.
Qed.

End Selection.

Lemma prune_output_spec {V : Type} (output : gmap string (list V))
    (idx_remove : list nat) (n : nat) :
  is_Some (output !! "im_classif") ->
  is_Some (output !! "dates") ->
  map_Forall (fun _ l => length l = n) output ->
  exists out', prune_output output idx_remove = Ok out' /\
    out' !! "im_classif" = None /\
    forall key l, key <> "im_classif" -> output !! key = Some l ->
      exists l', out' !! key = Some l' /\
        length l' = length (idx_keep n idx_remove) /\
        forall j i, idx_keep n idx_remove !! j = Some i -> l' !! j = l !! i.
Proof.
  intros [rasters Hr] [dates Hd] Hlen.
  unfold prune_output. rewrite Hr.
  rewrite lookup_delete_ne by discriminate. rewrite Hd.
  rewrite (Hlen "dates" dates Hd).
  assert (Hkeep : forall l : list V, length l = n ->
            Forall (fun i => i < length l) (idx_keep n idx_remove)).
  { intros l Hl. apply Forall_forall. intros i Hi.
    apply idx_keep_elem in Hi. lia. }
  rewrite bool_decide_eq_true_2.
  - eexists. split; [reflexivity|]. split.
    + rewrite lookup_fmap, lookup_delete_eq. reflexivity.
    + intros key l Hkey Hl. rewrite lookup_fmap, lookup_delete_ne by congruence.
      rewrite Hl. simpl. eexists. split; [reflexivity|].
      apply take_indices_spec, Hkeep, (Hlen key l Hl).
  - apply map_Forall_delete. intros key l Hl. apply Hkeep, (Hlen key l Hl).
Qed.

(** C5, where the claim fails: after the prune the dates are cut down to the
    images that were kept, but there is no collection of classified images
    left to be aligned with them. *)
Lemma prune_drops_rasters_counterexample :
  exists out', prune_output demo_output [1] = Ok out' /\
    out' !! "dates" = Some ["1999-02-17"] /\
    out' !! "im_classif" = None.
Proof.
  destruct (prune_output_spec demo_output [1] 2) as (out' & Hout & Hnone & Hkeys).
  - vm_compute. eauto.
  - vm_compute. eauto.
  - apply (bool_decide_unpack _). vm_compute. exact I.
  - exists out'. split; [exact Hout|]. split; [|exact Hnone].
    destruct (Hkeys "dates" ["1999-02-17"; "1999-03-05"])
      as (l' & Hl' & Hlen & Hlk); [discriminate|vm_compute; reflexivity|].
    rewrite Hl'. f_equal.
    destruct l' as [|x [|y l']]; try discriminate Hlen.
    specialize (Hlk 0 0 eq_refl). simpl in Hlk. inversion Hlk. reflexivity.
Qed.

Lemma remove_nans_spec (out_dates : list Z) (out_satname : list string)
    (chainage : list cell) :
  length chainage <= length out_dates ->
  length chainage <= length out_satname ->
  exists nn, remove_nans out_dates out_satname chainage = Ok nn /\
    length (dates_nonans nn) = length (where_not_nan chainage) /\
    length (satnames_nonans nn) = length (where_not_nan chainage) /\
    length (chain_nonans nn) = length (where_not_nan chainage) /\
    forall j i, where_not_nan chainage !! j = Some i ->
      dates_nonans nn !! j = out_dates !! i /\
      satnames_nonans nn !! j = out_satname !! i /\
      chain_nonans nn !! j = chainage !! i.
Proof.
  intros Hd Hs.
  assert (Hlt : forall n, length chainage <= n ->
            Forall (fun i => i < n) (where_not_nan chainage)).
  { intros n Hn. apply Forall_forall. intros i Hi.
    apply where_not_nan_lt in Hi. lia. }
  destruct (select_total out_dates _ (Hlt _ Hd)) as [d Hsd].
  destruct (select_total out_satname _ (Hlt _ Hs)) as [sn Hss].
  destruct (select_total chainage _ (Hlt _ (Nat.le_refl _))) as [c Hsc].
  unfold remove_nans, mbind, result_bind. rewrite Hsd, Hss, Hsc.
  eexists. split; [reflexivity|]. simpl.
  apply select_Ok in Hsd as [Hld Hkd]. apply select_Ok in Hss as [Hls Hks].
  apply select_Ok in Hsc as [Hlc Hkc].
  repeat split; try assumption.
  - apply Hkd. assumption.
  - apply Hks. assumption.
  - apply Hkc. assumption.
Qed.

(** C5 (amended): the prune drops the classified images from the record and
    restricts every other per-image entry to one and the same index list, the
    images not removed, in ascending order; the NaN removal of a transect
    restricts the dates, the satellite names and the cross-shore distances to
    one and the same index list, the observations that are not NaN, in
    ascending order. After either filter the filtered collections have one
    length and their entries at each position come from one original index. *)
Theorem filters_keep_alignment {V : Type} (output : gmap string (list V))
    (idx_remove : list nat) (n : nat) (out_dates : list Z)
    (out_satname : list string) (chainage : list cell) :
  is_Some (output !! "im_classif") ->
  is_Some (output !! "dates") ->
  map_Forall (fun _ l => length l = n) output ->
  length chainage <= length out_dates ->
  length chainage <= length out_satname ->
  (StronglySorted lt (idx_keep n idx_remove) /\
   (forall i, i ∈ idx_keep n idx_remove <-> i < n /\ i ∉ idx_remove) /\
   exists out', prune_output output idx_remove = Ok out' /\
     out' !! "im_classif" = None /\
     forall key l, key <> "im_classif" -> output !! key = Some l ->
       exists l', out' !! key = Some l' /\
         length l' = length (idx_keep n idx_remove) /\
         forall j i, idx_keep n idx_remove !! j = Some i -> l' !! j = l !! i) /\
  (StronglySorted lt (where_not_nan chainage) /\
   (forall i, i ∈ where_not_nan chainage <-> exists q, chainage !! i = Some (Some q)) /\
   exists nn, remove_nans out_dates out_satname chainage = Ok nn /\
     length (dates_nonans nn) = length (where_not_nan chainage) /\
     length (satnames_nonans nn) = length (where_not_nan chainage) /\
     length (chain_nonans nn) = length (where_not_nan chainage) /\
     forall j i, where_not_nan chainage !! j = Some i ->
       dates_nonans nn !! j = out_dates !! i /\
       satnames_nonans nn !! j = out_satname !! i /\
       chain_nonans nn !! j = chainage !! i).
Proof.
  intros Hr Hd Hlen Hod Hos. split.
  - split; [apply np_where_sorted|]. split; [apply idx_keep_elem|].
    apply prune_output_spec; assumption.
  - split; [apply np_where_sorted|]. split; [apply where_not_nan_elem|].
    apply remove_nans_spec; assumption.
Qed.

Lemma filters_keep_alignment_witness :
  (StronglySorted lt (idx_keep 2 [1]) /\
   (forall i, i ∈ idx_keep 2 [1] <-> i < 2 /\ i ∉ [1]) /\
   exists out', prune_output demo_output [1] = Ok out' /\
     out' !! "im_classif" = None /\
     forall key l, key <> "im_classif" -> demo_output !! key = Some l ->
       exists l', out' !! key = Some l' /\
         length l' = length (idx_keep 2 [1]) /\
         forall j i, idx_keep 2 [1] !! j = Some i -> l' !! j = l !! i) /\
  (StronglySorted lt (where_not_nan [Some 1%Q; NaN; Some 3%Q]) /\
   (forall i, i ∈ where_not_nan [Some 1%Q; NaN; Some 3%Q] <->
              exists q, [Some 1%Q; NaN; Some 3%Q] !! i = Some (Some q)) /\
   exists nn, remove_nans [10; 20; 30]%Z ["L5"; "L7"; "L8"]
                          [Some 1%Q; NaN; Some 3%Q] = Ok nn /\
     length (dates_nonans nn) = length (where_not_nan [Some 1%Q; NaN; Some 3%Q]) /\
     length (satnames_nonans nn) = length (where_not_nan [Some 1%Q; NaN; Some 3%Q]) /\
     length (chain_nonans nn) = length (where_not_nan [Some 1%Q; NaN; Some 3%Q]) /\
     forall j i, where_not_nan [Some 1%Q; NaN; Some 3%Q] !! j = Some i ->
       dates_nonans nn !! j = [10; 20; 30]%Z !! i /\
       satnames_nonans nn !! j = ["L5"; "L7"; "L8"] !! i /\
       chain_nonans nn !! j = [Some 1%Q; NaN; Some 3%Q] !! i).
Proof.
  apply (filters_keep_alignment demo_output [1] 2 [10; 20; 30]%Z
           ["L5"; "L7"; "L8"] [Some 1%Q; NaN; Some 3%Q]).
  - vm_compute. eauto.
  - vm_compute. eauto.
  - apply (bool_decide_unpack _). vm_compute. exact I.
  - simpl. lia.
  - simpl. lia.
Defined.

(** ** Temporal matching (lines 382-402) *)

Lemma match_date_break (sett : match_settings) (gt : survey) (date m : Z) :
  min_abs_offset gt date = Ok m ->
  (min_days sett <= m <= max_days sett)%Z ->
  Forall (fun d => (d <= 0)%Z) (days_diff gt date) ->
  match_date sett gt date = Ok Break.
Proof.
  intros Hm [Hlo Hhi] Hall. unfold match_date, mbind, result_bind.
  unfold min_abs_offset in Hm. rewrite Hm.
  destruct (Z.ltb_spec (max_days sett) m); [lia|].
  destruct (Z.ltb_spec m (min_days sett)); [lia|].
  replace (filter (fun d => (0 < d)%Z) (days_diff gt date)) with (@nil Z);
    [reflexivity|].
  symmetry. clear Hm. induction Hall as [|d l Hd _ IH]; [reflexivity|].
  rewrite filter_cons_False by lia. exact IH.
Qed.

Lemma matching_loop_break_at (sett : match_settings) (gt : survey)
    (dates : list Z) (k0 : nat) (ci0 : list cell) (k : nat) (D : Z) :
  dates !! k = Some D ->
  (forall j d, j < k -> dates !! j = Some d ->
               exists c, match_date sett gt d = Ok (Assign c)) ->
  match_date sett gt D = Ok Break ->
  exists ci, matching_loop sett gt k0 dates ci0 = Ok ci /\
    length ci = length ci0 /\
    forall i, k0 + k <= i -> ci !! i = ci0 !! i.
Proof.
  revert k0 ci0 k. induction dates as [|d dates IH]; intros k0 ci0 k Hk Hpre Hbrk.
  - discriminate.
  - simpl. unfold mbind, result_bind. destruct k as [|k]; simpl in Hk.
    + inversion Hk; subst d. rewrite Hbrk. eauto.
    + destruct (Hpre 0 d) as [c Hc]; [lia|reflexivity|]. rewrite Hc.
      destruct (IH (S k0) (<[k0 := c]> ci0) k Hk) as (ci & Hci & Hlen & Hrest).
      { intros j d' Hj Hd'. apply (Hpre (S j) d'); [lia|exact Hd']. }
      { exact Hbrk. }
      exists ci. split; [exact Hci|]. split.
      * rewrite Hlen. apply length_insert.
      * intros i Hi. rewrite Hrest by lia. apply list_lookup_insert_ne. lia.
Qed.

(** When no survey date lies after [D], no day offset is positive. *)
Lemma no_later_survey_offsets (gt : survey) (D : Z) :
  Forall (fun s => (s <= D)%Z) (gt_dates gt) ->
  Forall (fun d => (d <= 0)%Z) (days_diff gt D).
Proof.
  intros H. unfold days_diff. apply Forall_fmap.
  eapply Forall_impl; [exact H|]. intros s Hs. simpl in *.
  unfold timedelta_days.
  destruct (Z.eq_dec s D) as [->|Hne].
  - rewrite Z.sub_diag. reflexivity.
  - assert (Hpos : (0 < us_per_day)%Z) by reflexivity.
    pose proof (Z.div_lt_upper_bound (s - D) us_per_day 0 Hpos). lia.
Qed.

(** C6: once the loop meets a date whose nearest survey is between
    [min_days] and [max_days] away and which no survey date follows by a day
    or more (as when no survey date lies after it at all), it is left: that
    date and all the dates after it in the sequence keep the initial NaN and
    give no matched pair, whatever their own offsets. *)
Theorem break_leaves_later_dates_unmatched (sett : match_settings) (gt : survey)
    (dates : list Z) (k : nat) (D m : Z) :
  dates !! k = Some D ->
  (forall j d, j < k -> dates !! j = Some d ->
               exists c, match_date sett gt d = Ok (Assign c)) ->
  min_abs_offset gt D = Ok m ->
  (min_days sett <= m <= max_days sett)%Z ->
  Forall (fun d => (d <= 0)%Z) (days_diff gt D) ->
  exists ci, chain_int sett gt dates = Ok ci /\
    length ci = length dates /\
    (forall j, k <= j -> j < length dates -> ci !! j = Some NaN) /\
    (forall j, j ∈ where_not_nan ci -> j < k).
Proof.
  intros Hk Hpre Hm Hrange Hall.
  pose proof (match_date_break sett gt D m Hm Hrange Hall) as Hbrk.
  destruct (matching_loop_break_at sett gt dates 0
              (replicate (length dates) NaN) k D Hk Hpre Hbrk)
    as (ci & Hci & Hlen & Hrest).
  rewrite length_replicate in Hlen.
  assert (Hnan : forall j, k <= j -> j < length dates -> ci !! j = Some NaN).
  { intros j Hj Hlt. rewrite Hrest by (simpl; lia).
    apply lookup_replicate_2. exact Hlt. }
  exists ci. split; [exact Hci|]. split; [exact Hlen|]. split; [exact Hnan|].
  intros j Hj. destruct (Nat.lt_ge_cases j k) as [Hlt|Hge]; [exact Hlt|].
  pose proof (where_not_nan_lt ci j Hj) as Hjl. rewrite Hlen in Hjl.
  apply where_not_nan_elem in Hj as [q Hq].
  rewrite (Hnan j Hge Hjl) in Hq. discriminate.
Qed.

Lemma break_leaves_later_dates_unmatched_witness :
  exists ci, chain_int demo_match_settings demo_survey demo_sat_dates = Ok ci /\
    length ci = length demo_sat_dates /\
    (forall j, 3 <= j -> j < length demo_sat_dates -> ci !! j = Some NaN) /\
    (forall j, j ∈ where_not_nan ci -> j < 3).
Proof.
  apply (break_leaves_later_dates_unmatched demo_match_settings demo_survey
           demo_sat_dates 3 (day 125) 5).
  - reflexivity.
  - intros [|[|[|j]]] d Hj Hd; simpl in Hd; inversion Hd; subst;
      [eexists; vm_compute; reflexivity ..|lia].
  - vm_compute. reflexivity.
  - simpl. lia.
  - vm_compute. repeat constructor; discriminate.
Defined.

Lemma foldl_min_spec (l : list Z) (x : Z) :
  (foldl Z.min x l = x \/ foldl Z.min x l ∈ l) /\
  (foldl Z.min x l <= x)%Z /\
  Forall (fun y => (foldl Z.min x l <= y)%Z) l.
Proof.
  revert x. induction l as [|y l IH]; intros x; simpl.
  - split; [left; reflexivity|]. split; [lia|constructor].
  - destruct (IH (Z.min x y)) as ([He|Hin] & Hle & Hall).
    + split; [|split].
      * destruct (Z.min_spec x y) as [[_ Hm]|[_ Hm]].
        -- left. rewrite He. exact Hm.
        -- right. rewrite He, Hm. left.
      * lia.
      * constructor; [lia|exact Hall].
    + split; [right; right; exact Hin|]. split; [lia|].
      constructor; [lia|exact Hall].
Qed.

Lemma np_min_spec (l : list Z) (m : Z) :
  np_min l = Ok m -> m ∈ l /\ Forall (fun y => (m <= y)%Z) l.
Proof.
  destruct l as [|x l]; simpl; [discriminate|]. intros H. inversion H.
  destruct (foldl_min_spec l x) as ([He|Hin] & Hle & Hall).
  - split; [rewrite He; left|]. constructor; [lia|exact Hall].
  - split; [right; exact Hin|]. constructor; [lia|exact Hall].
Qed.

Lemma first_index_from_spec {A : Type} (p : A -> bool) (i0 : nat) (l : list A)
    (i : nat) :
  first_index_from p i0 l = Ok i ->
  exists j x, i = i0 + j /\ l !! j = Some x /\ p x = true /\
    forall j' y, j' < j -> l !! j' = Some y -> p y = false.
Proof.
  revert i0. induction l as [|a l IH]; intros i0; simpl; [discriminate|].
  destruct (p a) eqn:Ep.
  - intros H. inversion H; subst. exists 0, a. split; [lia|].
    split; [reflexivity|]. split; [exact Ep|]. intros j' y Hj. lia.
  - intros H. destruct (IH (S i0) H) as (j & x & -> & Hj & Hp & Hmin).
    exists (S j), x. split; [lia|]. split; [exact Hj|]. split; [exact Hp|].
    intros [|j'] y Hlt Hy; simpl in Hy.
    + inversion Hy; subst. exact Ep.
    + apply (Hmin j' y); [lia|exact Hy].
Qed.

Lemma first_index_spec {A : Type} (p : A -> bool) (l : list A) (i : nat) :
  first_index p l = Ok i ->
  exists x, l !! i = Some x /\ p x = true /\
    forall j y, j < i -> l !! j = Some y -> p y = false.
Proof.
  intros H. apply first_index_from_spec in H as (j & x & -> & H).
  exists x. exact H.
Qed.

Lemma us_per_day_pos : (0 < us_per_day)%Z.
Proof. reflexivity. Qed.

Lemma timedelta_days_mono_r (s D D' : Z) :
  (D <= D')%Z -> (timedelta_days s D' <= timedelta_days s D)%Z.
Proof.
  intros H. unfold timedelta_days.
  apply Z.div_le_mono; [exact us_per_day_pos|lia].
Qed.

Lemma timedelta_days_mono_l (s s' D : Z) :
  (s <= s')%Z -> (timedelta_days s D <= timedelta_days s' D)%Z.
Proof.
  intros H. unfold timedelta_days.
  apply Z.div_le_mono; [exact us_per_day_pos|lia].
Qed.

Lemma toordinal_after (s D : Z) :
  (0 < timedelta_days s D)%Z -> (toordinal D < toordinal s)%Z.
Proof.
  unfold timedelta_days, toordinal. intros H.
  pose proof us_per_day_pos as Hpos.
  assert (H1 : (us_per_day <= s - D)%Z).
  { destruct (Z.lt_ge_cases (s - D) us_per_day) as [Hlt|Hge]; [|exact Hge].
    assert ((s - D) / us_per_day <= 0)%Z; [|lia].
    destruct (Z.lt_ge_cases (s - D) 0) as [Hneg|Hnn].
    - pose proof (Z.div_lt_upper_bound (s - D) us_per_day 0 Hpos). lia.
    - rewrite Z.div_small by lia. lia. }
  assert (H2 : (D / us_per_day + 1 <= s / us_per_day)%Z).
  { replace (D / us_per_day + 1)%Z with ((D + 1 * us_per_day) / us_per_day)%Z
      by (rewrite Z.div_add by lia; reflexivity).
    apply Z.div_le_mono; [exact Hpos|lia]. }
  lia.
Qed.

Lemma days_diff_lookup (gt : survey) (D : Z) (i : nat) (d : Z) :
  days_diff gt D !! i = Some d <->
  exists s, gt_dates gt !! i = Some s /\ d = timedelta_days s D.
Proof.
  unfold days_diff. rewrite list_lookup_fmap.
  destruct (gt_dates gt !! i) as [s|]; simpl; split.
  - intros [= <-]. eauto.
  - intros (s' & [= <-] & ->). reflexivity.
  - discriminate.
  - intros (s' & [=] & _).
Qed.

Lemma match_date_break_inv (sett : match_settings) (gt : survey) (D : Z) :
  match_date sett gt D = Ok Break ->
  exists m, min_abs_offset gt D = Ok m /\
    (min_days sett <= m <= max_days sett)%Z /\
    Forall (fun d => (d <= 0)%Z) (days_diff gt D).
Proof.
  unfold match_date, min_abs_offset, mbind, result_bind.
  destruct (np_min (map Z.abs (days_diff gt D))) as [m|]; [|discriminate].
  destruct (Z.ltb_spec (max_days sett) m); [discriminate|].
  destruct (Z.ltb_spec m (min_days sett)).
  { destruct (first_index _ _); [|discriminate].
    destruct (getitem _ _); discriminate. }
  destruct (Nat.eqb_spec (length (filter (fun d => (0 < d)%Z) (days_diff gt D))) 0)
    as [Hz|Hnz].
  - intros _. exists m. split; [reflexivity|]. split; [lia|].
    apply Forall_forall. intros d Hd.
    destruct (Z.le_gt_cases d 0) as [Hle|Hgt]; [exact Hle|].
    assert (Hin : d ∈ filter (fun d => (0 < d)%Z) (days_diff gt D))
      by (apply list_elem_of_filter; split; [lia|exact Hd]).
    destruct (filter (fun d => (0 < d)%Z) (days_diff gt D)); [inversion Hin|].
    discriminate.
  - destruct (first_index _ _); [|discriminate].
    destruct (getitem_signed _ _); [|discriminate].
    destruct (getitem _ _); [|discriminate].
    destruct (getitem_signed _ _); [|discriminate].
    destruct (getitem _ _); [|discriminate].
    destruct (interp1d _ _ _ _ _); discriminate.
Qed.

Lemma match_date_assign (sett : match_settings) (gt : survey) (D : Z) (c : cell) :
  match_date sett gt D = Ok (Assign c) ->
  exists m, min_abs_offset gt D = Ok m /\
    (((max_days sett < m)%Z /\ c = NaN) \/
     ((m <= max_days sett)%Z /\ (m < min_days sett)%Z /\
      exists i, first_index (fun d => (Z.abs d =? m)%Z) (days_diff gt D) = Ok i /\
                gt_chainage gt !! i = Some c) \/
     ((min_days sett <= m <= max_days sett)%Z /\
      exists ia xb xa yb ya,
        first_index (fun d => (0 <? d)%Z) (days_diff gt D) = Ok ia /\
        getitem_signed (gt_dates gt) (Z.of_nat ia - 1) = Ok xb /\
        gt_dates gt !! ia = Some xa /\
        getitem_signed (gt_chainage gt) (Z.of_nat ia - 1) = Ok yb /\
        gt_chainage gt !! ia = Some ya /\
        interp1d (toordinal xb) (toordinal xa) yb ya (toordinal D) = Ok c)).
Proof.
  unfold match_date, min_abs_offset, mbind, result_bind.
  destruct (np_min (map Z.abs (days_diff gt D))) as [m|]; [|discriminate].
  intros H. exists m. split; [reflexivity|].
  destruct (Z.ltb_spec (max_days sett) m) as [Hmax|Hmax].
  { inversion H. left. auto. }
  destruct (Z.ltb_spec m (min_days sett)) as [Hmin|Hmin].
  { right. left. split; [exact Hmax|]. split; [exact Hmin|].
    destruct (first_index _ _) as [i|]; [|discriminate].
    destruct (getitem (gt_chainage gt) i) as [c'|] eqn:Eg; [|discriminate].
    inversion H; subst c'. exists i. split; [reflexivity|].
    apply getitem_Ok. exact Eg. }
  right. right. split; [lia|].
  destruct (length (filter (fun d => (0 < d)%Z) (days_diff gt D)) =? 0);
    [discriminate|].
  destruct (first_index _ _) as [ia|]; [|discriminate].
  destruct (getitem_signed (gt_dates gt) _) as [xb|] eqn:Exb; [|discriminate].
  destruct (getitem (gt_dates gt) ia) as [xa|] eqn:Exa; [|discriminate].
  destruct (getitem_signed (gt_chainage gt) _) as [yb|] eqn:Eyb; [|discriminate].
  destruct (getitem (gt_chainage gt) ia) as [ya|] eqn:Eya; [|discriminate].
  destruct (interp1d _ _ _ _ _) as [c'|] eqn:Ei; [|discriminate].
  inversion H; subst c'.
  exists ia, xb, xa, yb, ya. apply getitem_Ok in Exa, Eya.
  repeat split; try reflexivity; assumption.
Qed.

Lemma matching_loop_spec (sett : match_settings) (gt : survey) (dates : list Z)
    (k0 : nat) (ci0 ci : list cell) :
  matching_loop sett gt k0 dates ci0 = Ok ci ->
  k0 + length dates <= length ci0 ->
  length ci = length ci0 /\
  exists n, n <= length dates /\
    (forall j d, j < n -> dates !! j = Some d ->
       exists c, match_date sett gt d = Ok (Assign c) /\ ci !! (k0 + j) = Some c) /\
    (n < length dates ->
       exists d, dates !! n = Some d /\ match_date sett gt d = Ok Break) /\
    (forall i, i < k0 \/ k0 + n <= i -> ci !! i = ci0 !! i).
Proof.
  revert k0 ci0. induction dates as [|d dates IH]; simpl; intros k0 ci0 H Hlen.
  - inversion H; subst. split; [reflexivity|]. exists 0. split; [lia|].
    split; [intros j d Hj; lia|]. split; [lia|]. reflexivity.
  - unfold mbind, result_bind in H.
    destruct (match_date sett gt d) as [[c|]|] eqn:Emd; [| |discriminate].
    + destruct (IH (S k0) (<[k0 := c]> ci0) H) as (Hl & n & Hn & Has & Hbr & Hrest).
      { rewrite length_insert. lia. }
      rewrite length_insert in Hl. split; [exact Hl|].
      exists (S n). split; [lia|]. split; [|split].
      * intros [|j] d' Hj Hd'; simpl in Hd'.
        -- inversion Hd'; subst d'. exists c. split; [exact Emd|].
           rewrite Nat.add_0_r, Hrest by lia.
           apply list_lookup_insert_eq. lia.
        -- destruct (Has j d') as (c' & Hc' & Hlk); [lia|exact Hd'|].
           exists c'. split; [exact Hc'|].
           replace (k0 + S j) with (S k0 + j) by lia. exact Hlk.
      * intros Hlt. destruct Hbr as (d' & Hd' & Hb); [lia|].
        exists d'. split; [exact Hd'|exact Hb].
      * intros i Hi. rewrite Hrest by lia. apply list_lookup_insert_ne. lia.
    + inversion H; subst. split; [reflexivity|]. exists 0. split; [lia|].
      split; [intros j d' Hj; lia|]. split; [|reflexivity].
      intros _. exists d. split; [reflexivity|exact Emd].
Qed.

Lemma sorted_lookup_le (l : list Z) (i j : nat) (a b : Z) :
  StronglySorted Z.le l -> i <= j -> l !! i = Some a -> l !! j = Some b ->
  (a <= b)%Z.
Proof.
  intros Hs. revert i j. induction Hs as [|x l Hs IH Hx]; intros i j Hij Hi Hj.
  - discriminate.
  - destruct i as [|i]; simpl in Hi.
    + inversion Hi; subst. destruct j as [|j]; simpl in Hj.
      * inversion Hj. lia.
      * rewrite Forall_forall in Hx. apply Hx.
        apply list_elem_of_lookup. eauto.
    + destruct j as [|j]; [lia|]. simpl in Hj.
      apply (IH i j); [lia|assumption|assumption].
Qed.

Lemma interp1d_between (x0 x1 : Z) (y0 y1 : cell) (t : Z) (c : cell) :
  interp1d x0 x1 y0 y1 t = Ok c -> (t < x1)%Z ->
  (x0 <= t)%Z /\ c = linear_interpolation x0 y0 x1 y1 t.
Proof.
  unfold interp1d, linear_interpolation. intros H Ht.
  destruct (Z.leb_spec x0 x1) as [Hle|Hgt]; cbv beta iota zeta in H.
  - destruct (Z.ltb_spec t x0) as [Hlt|Hge]; [simpl in H; discriminate H|].
    destruct (Z.ltb_spec x1 t); [simpl in H; discriminate H|].
    cbv beta iota zeta delta [orb] in H.
    split; [exact Hge|].
    destruct y0 as [a|], y1 as [b|]; try (inversion H; reflexivity).
    destruct (Z.eqb_spec x1 x0); [lia|]. inversion H. reflexivity.
  - destruct (Z.ltb_spec t x1); [simpl in H; discriminate H|lia].
Qed.

Lemma getitem_signed_pred {A : Type} (l : list A) (i : nat) (a : A) :
  getitem_signed l (Z.of_nat (S i) - 1) = Ok a -> l !! i = Some a.
Proof.
  unfold getitem_signed. destruct (Z.leb_spec 0 (Z.of_nat (S i) - 1)); [|lia].
  replace (Z.to_nat (Z.of_nat (S i) - 1)) with i by lia. apply getitem_Ok.
Qed.

Lemma getitem_signed_last {A : Type} (l : list A) (a : A) :
  getitem_signed l (Z.of_nat 0 - 1) = Ok a ->
  l !! (length l - 1) = Some a.
Proof.
  unfold getitem_signed. change (Z.of_nat 0 - 1)%Z with (-1)%Z.
  change (0 <=? -1)%Z with false. cbv iota.
  destruct (Z.leb_spec 0 (Z.of_nat (length l) + -1)) as [Hle|Hlt].
  - replace (Z.to_nat (Z.of_nat (length l) + -1)) with (length l - 1) by lia.
    apply getitem_Ok.
  - intros H. discriminate H.
Qed.

Lemma offsets_after_break (gt : survey) (D0 D m0 m : Z) :
  (D0 <= D)%Z ->
  min_abs_offset gt D0 = Ok m0 ->
  Forall (fun d => (d <= 0)%Z) (days_diff gt D0) ->
  min_abs_offset gt D = Ok m ->
  (m0 <= m)%Z /\ Forall (fun d => (d <= 0)%Z) (days_diff gt D).
Proof.
  intros HD Hm0 Hall0 Hm.
  assert (Hall : forall s, s ∈ gt_dates gt ->
            (timedelta_days s D <= timedelta_days s D0 <= 0)%Z).
  { intros s Hs. split; [apply timedelta_days_mono_r, HD|].
    rewrite Forall_forall in Hall0. apply Hall0.
    unfold days_diff. apply list_elem_of_fmap. eauto. }
  split.
  - apply np_min_spec in Hm as [Hin _].
    apply list_elem_of_fmap in Hin as (d & -> & Hd).
    unfold days_diff in Hd. apply list_elem_of_fmap in Hd as (s & -> & Hs).
    apply np_min_spec in Hm0 as [_ Hle0]. rewrite Forall_forall in Hle0.
    assert (H0 : (m0 <= Z.abs (timedelta_days s D0))%Z).
    { apply Hle0. apply list_elem_of_fmap. exists (timedelta_days s D0).
      split; [reflexivity|]. unfold days_diff. apply list_elem_of_fmap. eauto. }
    specialize (Hall s Hs). lia.
  - apply Forall_forall. intros d Hd. unfold days_diff in Hd.
    apply list_elem_of_fmap in Hd as (s & -> & Hs). specialize (Hall s Hs). lia.
Qed.

Lemma first_index_from_total {A : Type} (p : A -> bool) (i0 : nat) (l : list A) :
  (exists x, x ∈ l /\ p x = true) -> exists i, first_index_from p i0 l = Ok i.
Proof.
  revert i0. induction l as [|a l IH]; intros i0 (x & Hx & Hp); simpl.
  - inversion Hx.
  - destruct (p a) eqn:Ea; [eauto|].
    apply IH. exists x. split; [|exact Hp].
    apply elem_of_cons in Hx as [->|Hx]; [congruence|exact Hx].
Qed.

Lemma toordinal_before (s D : Z) : (s <= D)%Z -> (toordinal s <= toordinal D)%Z.
Proof.
  intros H. unfold toordinal.
  pose proof (Z.div_le_mono s D us_per_day us_per_day_pos H). lia.
Qed.

Lemma timedelta_days_negative (s D : Z) :
  (timedelta_days s D < 0)%Z -> (s < D)%Z.
Proof.
  unfold timedelta_days. intros H.
  destruct (Z.lt_ge_cases s D) as [Hlt|Hge]; [exact Hlt|].
  pose proof (Z.div_pos (s - D) us_per_day ltac:(lia) us_per_day_pos). lia.
Qed.

Lemma interp1d_total (x0 x1 : Z) (y0 y1 : cell) (t : Z) :
  (x0 <= t < x1)%Z -> exists c, interp1d x0 x1 y0 y1 t = Ok c.
Proof.
  intros [Hlo Hhi]. unfold interp1d.
  destruct (Z.leb_spec x0 x1); [|lia]. cbv beta iota zeta.
  destruct (Z.ltb_spec t x0); [lia|]. destruct (Z.ltb_spec x1 t); [lia|].
  simpl. destruct y0, y1; try (eexists; reflexivity).
  destruct (x1 =? x0)%Z; eexists; reflexivity.
Qed.

(** When the loop body ends without an exception: the survey is not empty, has
    a chainage for each of its dates, starts no later than the date at hand,
    and [min_days] is at least one day. *)
Lemma match_date_total (sett : match_settings) (gt : survey) (D s0 : Z) :
  (1 <= min_days sett)%Z ->
  length (gt_dates gt) <= length (gt_chainage gt) ->
  gt_dates gt !! 0 = Some s0 -> (s0 <= D)%Z ->
  exists st, match_date sett gt D = Ok st.
Proof.
  intros Hmin Hlen Hs0 Hle. unfold match_date, mbind, result_bind.
  assert (Hdd0 : days_diff gt D !! 0 = Some (timedelta_days s0 D)).
  { apply days_diff_lookup. eauto. }
  destruct (np_min (map Z.abs (days_diff gt D))) as [m|] eqn:Em.
  2:{ destruct (days_diff gt D); discriminate. }
  destruct (Z.ltb_spec (max_days sett) m); [eauto|].
  pose proof (np_min_spec _ _ Em) as [Hin Hall].
  destruct (Z.ltb_spec m (min_days sett)).
  { destruct (first_index_from_total (fun d => (Z.abs d =? m)%Z) 0 (days_diff gt D))
      as [i Hi].
    { apply list_elem_of_fmap in Hin as (d & -> & Hd). exists d.
      split; [exact Hd|]. apply Z.eqb_refl. }
    unfold first_index. rewrite Hi.
    apply first_index_spec in Hi as (d & Hd & _).
    apply lookup_lt_Some in Hd. unfold days_diff in Hd. rewrite length_map in Hd.
    destruct (getitem_lt (gt_chainage gt) i) as (c & Hc & _); [lia|].
    rewrite Hc. eauto. }
  destruct (Nat.eqb_spec (length (filter (fun d => (0 < d)%Z) (days_diff gt D))) 0)
    as [Hz|Hnz]; [eauto|].
  destruct (first_index_from_total (fun d => (0 <? d)%Z) 0 (days_diff gt D))
    as [ia Hia].
  { destruct (filter (fun d => (0 < d)%Z) (days_diff gt D)) as [|d r] eqn:Ef;
      [simpl in Hnz; lia|].
    assert (Hd : d ∈ filter (fun d => (0 < d)%Z) (days_diff gt D))
      by (rewrite Ef; left).
    apply list_elem_of_filter in Hd as [Hpos Hd]. exists d.
    split; [exact Hd|]. apply Z.ltb_lt. exact Hpos. }
  unfold first_index. rewrite Hia.
  apply first_index_spec in Hia as (da & Hda & Hpos & Hfirst).
  apply Z.ltb_lt in Hpos.
  pose proof (timedelta_days_mono_l s0 D D Hle) as H00.
  assert (Hself : timedelta_days D D = 0%Z).
  { unfold timedelta_days. rewrite Z.sub_diag. reflexivity. }
  destruct ia as [|ib].
  { rewrite Hdd0 in Hda. inversion Hda. lia. }
  pose proof (lookup_lt_Some _ _ _ Hda) as Hialt.
  unfold days_diff in Hialt. rewrite length_map in Hialt.
  apply days_diff_lookup in Hda as (xa & Hxa & ->).
  destruct (lookup_lt_is_Some_2 (gt_dates gt) ib) as [xb Hxb]; [lia|].
  destruct (lookup_lt_is_Some_2 (gt_chainage gt) ib) as [yb Hyb]; [lia|].
  destruct (lookup_lt_is_Some_2 (gt_chainage gt) (S ib)) as [ya Hya]; [lia|].
  unfold getitem_signed.
  destruct (Z.leb_spec 0 (Z.of_nat (S ib) - 1)); [|lia].
  replace (Z.to_nat (Z.of_nat (S ib) - 1)) with ib by lia.
  rewrite (proj2 (getitem_Ok _ _ _) Hxb), (proj2 (getitem_Ok _ _ _) Hxa),
    (proj2 (getitem_Ok _ _ _) Hyb), (proj2 (getitem_Ok _ _ _) Hya).
  assert (Hb : (timedelta_days xb D <= 0)%Z).
  { assert (Hf : (0 <? timedelta_days xb D)%Z = false).
    { apply (Hfirst ib); [lia|]. apply days_diff_lookup. eauto. }
    apply Z.ltb_ge in Hf. exact Hf. }
  assert (Hbm : (m <= Z.abs (timedelta_days xb D))%Z).
  { rewrite Forall_forall in Hall. apply Hall, list_elem_of_fmap.
    exists (timedelta_days xb D). split; [reflexivity|].
    unfold days_diff. apply list_elem_of_fmap. exists xb.
    split; [reflexivity|]. apply list_elem_of_lookup. eauto. }
  assert (Hbefore : (xb < D)%Z) by (apply timedelta_days_negative; lia).
  destruct (interp1d_total (toordinal xb) (toordinal xa) yb ya (toordinal D))
    as [c Hc].
  { split; [apply toordinal_before; lia|apply toordinal_after; exact Hpos]. }
  rewrite Hc. eauto.
Qed.

Lemma matching_loop_total (sett : match_settings) (gt : survey) (dates : list Z)
    (k0 : nat) (ci0 : list cell) :
  (forall D, D ∈ dates -> exists st, match_date sett gt D = Ok st) ->
  exists ci, matching_loop sett gt k0 dates ci0 = Ok ci.
Proof.
  revert k0 ci0. induction dates as [|d dates IH]; intros k0 ci0 H; simpl.
  - eauto.
  - destruct (H d) as [[c|] Hst]; [left| |]; unfold mbind, result_bind;
      rewrite Hst; [|eauto].
    apply IH. intros D HD. apply H. right. exact HD.
Qed.

(** The matching loop of a transect runs to its end or to its [break]. *)
Lemma chain_int_total (sett : match_settings) (gt : survey) (dates : list Z)
    (s0 : Z) :
  (1 <= min_days sett)%Z ->
  length (gt_dates gt) <= length (gt_chainage gt) ->
  gt_dates gt !! 0 = Some s0 ->
  Forall (fun D => (s0 <= D)%Z) dates ->
  exists ci, chain_int sett gt dates = Ok ci.
Proof.
  intros Hmin Hlen Hs0 Hall. unfold chain_int.
  apply matching_loop_total. intros D HD.
  rewrite Forall_forall in Hall.
  apply (match_date_total sett gt D s0); auto.
Qed.

(** The branches of the loop body on a run of the matching loop that ends
    without an exception: for a satellite date [D] of a transect whose dates
    and survey dates are in chronological order, with [m] the smallest
    absolute day offset to the survey dates: when [m > max_days] the entry of [D] stays NaN and [D]
    gives no pair; when [m < min_days] the chainage of the first survey date
    at offset [m] is copied; when [min_days <= m <= max_days], [m = min_days]
    included, and a survey date follows [D], the value is read off the line
    through the two neighbouring survey points on either side of [D]. The
    loop does produce its vector when the survey starts no later than the
    satellite dates, has a chainage for each date, and [min_days] is at least
    a day. *)
Theorem temporal_matching_branches (sett : match_settings) (gt : survey)
    (dates : list Z) (k : nat) (D m : Z) :
  StronglySorted Z.le dates ->
  StronglySorted Z.le (gt_dates gt) ->
  (min_days sett <= max_days sett)%Z ->
  dates !! k = Some D ->
  min_abs_offset gt D = Ok m ->
  (forall s0,
     (1 <= min_days sett)%Z ->
     length (gt_dates gt) <= length (gt_chainage gt) ->
     gt_dates gt !! 0 = Some s0 ->
     Forall (fun d => (s0 <= d)%Z) dates ->
     exists ci, chain_int sett gt dates = Ok ci) /\
  (forall ci, chain_int sett gt dates = Ok ci ->
     ((max_days sett < m)%Z -> ci !! k = Some NaN /\ k ∉ where_not_nan ci) /\
     ((m < min_days sett)%Z ->
        exists i s c,
          gt_dates gt !! i = Some s /\ Z.abs (timedelta_days s D) = m /\
          (forall j s', j < i -> gt_dates gt !! j = Some s' ->
                        (m < Z.abs (timedelta_days s' D))%Z) /\
          gt_chainage gt !! i = Some c /\ ci !! k = Some c) /\
     ((min_days sett <= m <= max_days sett)%Z ->
      (exists s, s ∈ gt_dates gt /\ (0 < timedelta_days s D)%Z) ->
        exists ib xb xa yb ya,
          gt_dates gt !! ib = Some xb /\ gt_dates gt !! S ib = Some xa /\
          gt_chainage gt !! ib = Some yb /\ gt_chainage gt !! S ib = Some ya /\
          (timedelta_days xb D <= 0 < timedelta_days xa D)%Z /\
          (toordinal xb <= toordinal D < toordinal xa)%Z /\
          ci !! k = Some (linear_interpolation (toordinal xb) yb (toordinal xa) ya
                                               (toordinal D)))).
Proof.
  intros Hsd Hsg Hmm Hk Hm. split.
  - intros s0 Hmin Hlen Hs0 Hall.
    exact (chain_int_total sett gt dates s0 Hmin Hlen Hs0 Hall).
  - intros ci Hci.
    assert (Hnanpair : ci !! k = Some NaN -> k ∉ where_not_nan ci).
    { intros Hn Hin. apply where_not_nan_elem in Hin as [q Hq].
      rewrite Hn in Hq. discriminate Hq. }
    unfold chain_int in Hci.
    apply matching_loop_spec in Hci
      as (Hlen & n & Hn & Hassign & Hbreak & Hrest);
      [|rewrite length_replicate; simpl; lia].
    pose proof (lookup_lt_Some _ _ _ Hk) as Hklt.
    destruct (Nat.lt_ge_cases k n) as [Hkn|Hnk].
    + (* the loop reached [D] *)
      destruct (Hassign k D Hkn Hk) as (c & Hmd & Hck). simpl in Hck.
      apply match_date_assign in Hmd as (m' & Hm' & Hcases).
      rewrite Hm in Hm'. inversion Hm'; subst m'; clear Hm'.
      destruct Hcases as [[Hgt ->]|[(Hle & Hlt & i & Hfi & Hch)|(Hrange & Hinterp)]].
      * split; [auto|]. split; [intros; lia|intros; lia].
      * split; [intros; lia|]. split; [|intros; lia].
        intros _. apply first_index_spec in Hfi as (d & Hd & Hpd & Hfirst).
        apply days_diff_lookup in Hd as (s & Hs & ->).
        apply Z.eqb_eq in Hpd.
        exists i, s, c. split; [exact Hs|]. split; [exact Hpd|].
        split; [|split; [exact Hch|exact Hck]].
        intros j s' Hj Hs'.
        assert (Hne : Z.abs (timedelta_days s' D) <> m).
        { apply Z.eqb_neq. apply (Hfirst j); [exact Hj|].
          apply days_diff_lookup. eauto. }
        apply np_min_spec in Hm as [_ Hmin]. rewrite Forall_forall in Hmin.
        assert (Hle' : (m <= Z.abs (timedelta_days s' D))%Z).
        { apply Hmin. apply list_elem_of_fmap. exists (timedelta_days s' D).
          split; [reflexivity|]. unfold days_diff. apply list_elem_of_fmap.
          exists s'. split; [reflexivity|]. apply list_elem_of_lookup. eauto. }
        lia.
      * split; [intros; lia|]. split; [intros; lia|]. intros _ _.
        destruct Hinterp as (ia & xb & xa & yb & ya & Hfi & Hxb & Hxa & Hyb & Hya & Hi).
        apply first_index_spec in Hfi as (da & Hda & Hpos & Hfirst).
        apply days_diff_lookup in Hda as (xa' & Hxa' & ->).
        rewrite Hxa in Hxa'. inversion Hxa'; subst xa'; clear Hxa'.
        apply Z.ltb_lt in Hpos.
        pose proof (toordinal_after xa D Hpos) as Hord.
        destruct (interp1d_between _ _ _ _ _ _ Hi Hord) as [Hlo ->].
        destruct ia as [|ib].
        -- exfalso. apply getitem_signed_last in Hxb.
          assert (Hle : (xa <= xb)%Z).
          { apply (sorted_lookup_le (gt_dates gt) 0 (length (gt_dates gt) - 1));
              [exact Hsg|lia|exact Hxa|exact Hxb]. }
          pose proof (timedelta_days_mono_l xa xb D Hle) as Hmono.
          assert (Hb : (0 < timedelta_days xb D)%Z) by lia.
          apply toordinal_after in Hb. lia.
        -- apply getitem_signed_pred in Hxb, Hyb.
          exists ib, xb, xa, yb, ya.
          assert (Hbefore : (timedelta_days xb D <= 0)%Z).
          { assert (Hf : (0 <? timedelta_days xb D)%Z = false).
            { apply (Hfirst ib); [lia|]. apply days_diff_lookup. eauto. }
            apply Z.ltb_ge in Hf. exact Hf. }
          repeat split; try assumption; lia.
    + (* the loop was left at an earlier date *)
      destruct Hbreak as (D0 & HD0 & Hbrk); [lia|].
      assert (HD : (D0 <= D)%Z).
      { apply (sorted_lookup_le dates n k); assumption. }
      assert (Hnan : ci !! k = Some NaN).
      { rewrite Hrest by (simpl; lia). apply lookup_replicate_2. exact Hklt. }
      apply match_date_break_inv in Hbrk as (m0 & Hm0 & Hrange0 & Hall0).
      destruct (offsets_after_break gt D0 D m0 m HD Hm0 Hall0 Hm) as [Hmle Hall].
      split; [auto|]. split; [intros; lia|].
      intros _ (s & Hs & Hpos). exfalso.
      rewrite Forall_forall in Hall.
      assert (timedelta_days s D <= 0)%Z; [|lia].
      apply Hall. unfold days_diff. apply list_elem_of_fmap. eauto.
Qed.

Lemma temporal_matching_branches_witness :
  (forall s0,
     (1 <= min_days demo_match_settings)%Z ->
     length (gt_dates demo_survey) <= length (gt_chainage demo_survey) ->
     gt_dates demo_survey !! 0 = Some s0 ->
     Forall (fun d => (s0 <= d)%Z) demo_sat_dates ->
     exists ci, chain_int demo_match_settings demo_survey demo_sat_dates = Ok ci) /\
  (forall ci, chain_int demo_match_settings demo_survey demo_sat_dates = Ok ci ->
     ((max_days demo_match_settings < 3)%Z ->
        ci !! 1 = Some NaN /\ 1 ∉ where_not_nan ci) /\
     ((3 < min_days demo_match_settings)%Z ->
        exists i s c,
          gt_dates demo_survey !! i = Some s /\
          Z.abs (timedelta_days s (day 103)) = 3%Z /\
          (forall j s', j < i -> gt_dates demo_survey !! j = Some s' ->
                        (3 < Z.abs (timedelta_days s' (day 103)))%Z) /\
          gt_chainage demo_survey !! i = Some c /\ ci !! 1 = Some c) /\
     ((min_days demo_match_settings <= 3 <= max_days demo_match_settings)%Z ->
      (exists s, s ∈ gt_dates demo_survey /\
                 (0 < timedelta_days s (day 103))%Z) ->
        exists ib xb xa yb ya,
          gt_dates demo_survey !! ib = Some xb /\
          gt_dates demo_survey !! S ib = Some xa /\
          gt_chainage demo_survey !! ib = Some yb /\
          gt_chainage demo_survey !! S ib = Some ya /\
          (timedelta_days xb (day 103) <= 0 < timedelta_days xa (day 103))%Z /\
          (toordinal xb <= toordinal (day 103) < toordinal xa)%Z /\
          ci !! 1 =
            Some (linear_interpolation (toordinal xb) yb (toordinal xa) ya
                                       (toordinal (day 103))))).
Proof.
  apply (temporal_matching_branches demo_match_settings demo_survey
           demo_sat_dates 1 (day 103) 3).
  - repeat constructor; vm_compute; discriminate.
  - repeat constructor; vm_compute; discriminate.
  - simpl. lia.
  - reflexivity.
  - vm_compute. reflexivity.
Defined.

(** C3, the run on which the script departs from the claim: the survey is
    dated day 100, 110 and 120 with chainages 10, 20 and 40, and the satellite
    dates are day 95 and day 101, with [min_days = 3] and [max_days = 10].
    Day 95 lies 5 days from the nearest survey, which follows it, so that the
    loop body takes the interpolation branch; no survey point lies before day
    95, [idx_before] is -1 and wraps to the last survey point, and the
    interpolation between day 120 and day 100 refuses day 95 with
    [ValueError]. The exception ends the whole loop: day 101, one day from the
    survey of day 100, whose chainage 10 the loop body would copy, gets no
    value either. *)
Theorem matching_loop_fails_before_first_survey :
  StronglySorted Z.le [day 95; day 101] /\
  StronglySorted Z.le (gt_dates demo_survey) /\
  min_abs_offset demo_survey (day 95) = Ok 5%Z /\
  (min_days demo_match_settings <= 5 <= max_days demo_match_settings)%Z /\
  first_index (fun d => (0 <? d)%Z) (days_diff demo_survey (day 95)) = Ok 0 /\
  getitem_signed (gt_dates demo_survey) (-1) = Ok (day 120) /\
  match_date demo_match_settings demo_survey (day 95) = Raise ValueError /\
  min_abs_offset demo_survey (day 101) = Ok 1%Z /\
  (1 < min_days demo_match_settings)%Z /\
  match_date demo_match_settings demo_survey (day 101)
    = Ok (Assign (Some 10%Q)) /\
  chain_int demo_match_settings demo_survey [day 95; day 101]
    = Raise ValueError.
Proof.
  split; [repeat constructor; vm_compute; discriminate|].
  split; [repeat constructor; vm_compute; discriminate|].
  split; [vm_compute; reflexivity|].
  split; [simpl; lia|].
  split; [vm_compute; reflexivity|].
  split; [vm_compute; reflexivity|].
  split; [vm_compute; reflexivity|].
  split; [vm_compute; reflexivity|].
  split; [simpl; lia|].
  split; vm_compute; reflexivity.
Qed.

(** ** Statistics for all transects together (lines 474-481) *)

Lemma error_metrics_regr (r : regression) (e : list Q) (es : error_statistics) :
  error_metrics r e = Ok es -> regr es = r.
Proof.
  unfold error_metrics, mbind, result_bind.
  destruct (percentile _ _); [|discriminate]. intros H. inversion H. reflexivity.
Qed.

Lemma transect_loop_last (sett : match_settings) (out_dates : list Z)
    (out_satname : list string) (ts : list transect_data) (t : transect_data)
    (st0 st : validation_state) :
  transect_loop sett out_dates out_satname (ts ++ [t]) st0 = Ok st ->
  exists a es,
    align_transect sett out_dates out_satname (cross_distance t)
                   (ground_truth t) = Ok a /\
    transect_statistics a = Ok es /\
    last_aligned st = Some a /\
    last (per_transect st) = Some es.
Proof.
  revert st0. induction ts as [|t0 ts IH]; intros st0; simpl;
    unfold mbind, result_bind.
  - destruct (align_transect _ _ _ _ _) as [a|]; [|discriminate].
    destruct (transect_statistics a) as [es|] eqn:Ees; [|discriminate].
    intros H. inversion H; subst; simpl. exists a, es.
    split; [reflexivity|]. split; [exact Ees|]. split; [reflexivity|].
    apply last_snoc.
  - destruct (align_transect _ _ _ (cross_distance t0) _) as [a0|]; [|discriminate].
    destruct (transect_statistics a0) as [es0|]; [|discriminate].
    apply IH.
Qed.

(** The regression reported for all transects together is the regression of
    the transect processed last. *)
Lemma aggregate_regression_is_last_transect (sett : match_settings)
    (out_dates : list Z) (out_satname : list string) (ts : list transect_data)
    (t : transect_data) (per : list error_statistics) (agg : error_statistics) :
  validation sett out_dates out_satname (ts ++ [t]) = Ok (per, agg) ->
  exists es, last per = Some es /\ regr agg = regr es.
Proof.
  unfold validation, mbind, result_bind.
  destruct (transect_loop _ _ _ _ _) as [st|] eqn:Eloop; [|discriminate].
  destruct (aggregate_statistics st) as [agg'|] eqn:Eagg; [|discriminate].
  intros H. inversion H; subst; clear H.
  apply transect_loop_last in Eloop as (a & es & _ & Hes & Hlast & Hper).
  exists es. split; [exact Hper|].
  unfold aggregate_statistics, mbind, result_bind in Eagg. rewrite Hlast in Eagg.
  unfold transect_statistics, mbind, result_bind in Hes.
  destruct (vec_sub (chain_sat_all st) (chain_sur_all st)); [|discriminate].
  destruct (linregress (chain_sur a) (chain_sat a)) as [r|]; [|discriminate].
  destruct (vec_sub (chain_sat a) (chain_sur a)); [|discriminate].
  apply error_metrics_regr in Eagg, Hes. congruence.
Qed.

(** C1, the run on which the script departs from the claim: the pooled pairs
    are (survey, satellite) = (0,0), (1,1), (0,0), (1,2), whose regression has
    slope 3/2, and the error metrics are indeed those of the pooled errors;
    yet the slope reported for all transects together is 2, with [R2] 1, the
    regression of the second transect alone. *)
Theorem aggregate_regression_not_pooled :
  exists st per agg pooled,
    transect_loop demo_match_settings demo_out_dates demo_out_satname
                  demo_transects initial_state = Ok st /\
    validation demo_match_settings demo_out_dates demo_out_satname
               demo_transects = Ok (per, agg) /\
    chain_sur_all st = [0; 1; 0; 1]%Q /\
    chain_sat_all st = [0; 1; 0; 2]%Q /\
    linregress (chain_sur_all st) (chain_sat_all st) = Ok pooled /\
    cell_eqb (slope pooled) (3 # 2) = true /\
    cell_eqb (slope (regr agg)) 2 = true /\
    cell_eqb (R2 (regr agg)) 1 = true /\
    (exists r2, R2 pooled = Some r2 /\ Qeq_bool r2 1 = false) /\
    Qeq_bool (mean_error agg) (1 # 4) = true.
Proof.
  eexists _, _, _, _.
  split; [vm_compute; reflexivity|].
  split; [vm_compute; reflexivity|].
  split; [vm_compute; reflexivity|].
  split; [vm_compute; reflexivity|].
  split; [vm_compute; reflexivity|].
  split; [vm_compute; reflexivity|].
  split; [vm_compute; reflexivity|].
  split; [vm_compute; reflexivity|].
  split; [|vm_compute; reflexivity].
  eexists. split; vm_compute; reflexivity.
Qed.

(** * Further properties of the script *)

(** ** Size selection and skipping (lines 113-129) *)

Lemma np_where_nil (mask : list bool) :
  Forall (fun b => b = false) mask -> np_where mask = [].
Proof.
  intros H. destruct (np_where mask) as [|i r] eqn:E; [reflexivity|].
  assert (Hi : i ∈ np_where mask) by (rewrite E; left).
  apply np_where_elem in Hi. rewrite Forall_lookup in H.
  specialize (H i true Hi). discriminate H.
Qed.

Lemma dim_skip_same (prc : Q) (canon : nat) :
  (0 <= prc)%Q -> dim_skip prc canon canon = false.
Proof.
  intros H. unfold dim_skip. rewrite Z.sub_diag. change (Z.abs 0) with 0%Z.
  destruct (Qltb (prc * inject_Z (Z.of_nat canon)) (inject_Z 0)) eqn:E;
    [|reflexivity].
  apply Qltb_lt in E. exfalso.
  assert (Hc : (0 <= inject_Z (Z.of_nat canon))%Q).
  { change 0%Q with (inject_Z 0). rewrite <- Zle_Qle. lia. }
  pose proof (Qmult_le_0_compat _ _ H Hc) as Hm.
  apply (Qlt_not_le _ _ E). exact Hm.
Qed.

Lemma mode_dim_constant (dim : list nat) (d : nat) :
  dim <> [] -> Forall (fun x => x = d) dim -> mode_dim dim = Ok d.
Proof.
  intros Hne Hall. destruct (mode_dim_spec dim Hne) as (m & Hm & Hmode).
  apply is_mode_elem in Hmode. rewrite Forall_forall in Hall.
  rewrite (Hall m Hmode) in Hm. exact Hm.
Qed.

(** X1: when all the images of the stack have one size and [prc_image] is not
    negative, that size is the canonical one and no image is skipped. *)
Theorem uniform_stack_keeps_every_image (s : qa_settings) (ims : list raster)
    (height width : nat) :
  ims <> [] ->
  Forall (fun im => shape0 im = height /\ shape1 im = width) ims ->
  (0 <= prc_image s)%Q ->
  canonical_size ims = Ok (height, width) /\
  idx_skip s height width ims = [].
Proof.
  intros Hne Hall Hprc. split.
  - unfold canonical_size, mbind, result_bind.
    rewrite (mode_dim_constant (map shape0 ims) height),
      (mode_dim_constant (map shape1 ims) width); try reflexivity.
    + destruct ims; [congruence|discriminate].
    + apply Forall_fmap. eapply Forall_impl; [exact Hall|]. intros im [_ H]. exact H.
    + destruct ims; [congruence|discriminate].
    + apply Forall_fmap. eapply Forall_impl; [exact Hall|]. intros im [H _]. exact H.
  - unfold idx_skip. apply np_where_nil. apply Forall_fmap.
    eapply Forall_impl; [exact Hall|]. intros im [H0 H1]. simpl.
    unfold is_skipped. rewrite H0, H1, !dim_skip_same by exact Hprc. reflexivity.
Qed.

Lemma uniform_stack_keeps_every_image_witness :
  canonical_size demo_small_stack = Ok (2, 2) /\
  idx_skip demo_settings 2 2 demo_small_stack = [].
Proof.
  apply (uniform_stack_keeps_every_image demo_settings demo_small_stack 2 2).
  - discriminate.
  - repeat constructor.
  - simpl. discriminate.
Defined.

(** ** Bounds on the divergence (lines 183-189) *)

Lemma diverging_row_le (brow : list bool) (r : list (cell * cell)) :
  length (filter (fun bav : bool * (cell * cell) =>
                    bav.1 && diverges bav.2.1 bav.2.2 = true) (zip brow r))
  <= length (filter (fun b : bool => id b = true) brow).
Proof.
  revert r. induction brow as [|b brow IH]; intros [|av r].
  - apply Nat.le_0_l.
  - apply Nat.le_0_l.
  - apply Nat.le_0_l.
  - change (zip (b :: brow) (av :: r)) with ((b, av) :: zip brow r).
    rewrite !filter_cons. specialize (IH r). unfold id in *.
    destruct b; simpl in *.
    + destruct (decide (diverges av.1 av.2 = true)); simpl; lia.
    + exact IH.
Qed.

Lemma diverging_le_confident (av : raster) (bin : list (list bool)) (im : raster) :
  diverging_confident_pixels av bin im <= count2 id bin.
Proof.
  unfold diverging_confident_pixels, count2.
  generalize (zip_with zip av im). intros rows. revert rows.
  induction bin as [|brow bin IH]; intros [|r rows];
    try (apply Nat.le_0_l).
  change (zip_with zip (brow :: bin) (r :: rows))
    with (zip brow r :: zip_with zip bin rows).
  rewrite !fmap_cons. cbn [sum_list sum_list_with].
  apply Nat.add_le_mono; [apply diverging_row_le|apply IH].
Qed.

Lemma true_divide_le (n d : nat) :
  n <= d ->
  match true_divide n d with
  | ratio_nan => d = 0
  | ratio_inf => False
  | ratio_val q => (0 <= q <= 1)%Q
  end.
Proof.
  intros Hle. unfold true_divide.
  destruct (Nat.eqb_spec d 0) as [->|Hd].
  - replace n with 0 by lia. reflexivity.
  - assert (Hpos : (0 < inject_Z (Z.of_nat d))%Q).
    { change 0%Q with (inject_Z 0). rewrite <- Zlt_Qlt. lia. }
    split.
    + apply Qle_shift_div_l; [exact Hpos|]. rewrite Qmult_0_l.
      change 0%Q with (inject_Z 0). rewrite <- Zle_Qle. lia.
    + apply Qle_shift_div_r; [exact Hpos|]. rewrite Qmult_1_l.
      rewrite <- Zle_Qle. lia.
Qed.

Lemma divergence_range (av : raster) (bin : list (list bool)) (im : raster) :
  match divergence av bin im with
  | ratio_nan => count2 id bin = 0
  | ratio_inf => False
  | ratio_val q => (0 <= q <= 1)%Q
  end.
Proof. apply true_divide_le, diverging_le_confident. Qed.

Lemma divergence_nan_iff (av : raster) (bin : list (list bool)) (im : raster) :
  divergence av bin im = ratio_nan <-> count2 id bin = 0.
Proof.
  split.
  - intros H. pose proof (divergence_range av bin im) as Hr.
    rewrite H in Hr. exact Hr.
  - intros H. pose proof (diverging_le_confident av bin im) as Hle.
    unfold divergence. rewrite H in *.
    replace (diverging_confident_pixels av bin im) with 0 by lia.
    reflexivity.
Qed.

(** X2: the divergence of an image is never infinite: it is NaN when the
    confidence mask is empty and only then, and otherwise a value between 0
    and 1; it is what line 186 computes for every image that is not skipped.
    So with [prc_image] at 1 or above no image is rejected for its
    classification and the images removed are the skipped ones. *)
Theorem divergence_at_most_one (s : qa_settings) (skip : list nat)
    (av : raster) (bin : list (list bool)) (ims : list raster) :
  (1 <= prc_image s)%Q ->
  (forall k im, ims !! k = Some im -> k ∉ skip -> same_shape av im = true) ->
  (forall im, (divergence av bin im = ratio_nan <-> count2 id bin = 0) /\
              match divergence av bin im with
              | ratio_nan => count2 id bin = 0
              | ratio_inf => False
              | ratio_val q => (0 <= q <= 1)%Q
              end) /\
  (forall k im, ims !! k = Some im -> k ∉ skip ->
     prc_change av bin im = Ok (divergence av bin im)) /\
  exists rm, idx_remove s skip av bin ims = Ok rm /\
             forall k, k ∈ rm <-> k < length ims /\ k ∈ skip.
Proof.
  intros Hprc Hshape.
  split; [intros im; split; [apply divergence_nan_iff|apply divergence_range]|].
  split.
  { intros k im Hk Hs.
    destruct (prc_change_total av bin im (Hshape k im Hk Hs)) as [p Hp].
    rewrite Hp. f_equal. apply prc_change_divergence, Hp. }
  destruct (idx_remove_from_total 0 s skip av bin ims) as [rm Hrm].
  { intros k im Hk Hs. simpl in Hs. apply in_list_false in Hs.
    apply prc_change_total, (Hshape k im Hk Hs). }
  exists rm. split; [exact Hrm|]. intros k. split.
  - intros Hin.
    pose proof (idx_remove_from_bounds _ _ _ _ _ _ _ Hrm) as Hb.
    rewrite Forall_forall in Hb. pose proof (Hb k Hin) as Hk. simpl in Hk.
    split; [lia|].
    destruct (lookup_lt_is_Some_2 ims k) as [im Him]; [lia|].
    pose proof (idx_remove_from_spec 0 s skip av bin ims rm Hrm k im Him) as H.
    simpl in H. destruct (in_list k skip) eqn:Es; [apply in_list_true, Es|].
    destruct H as (p & Hp & Hiff). exfalso.
    apply prc_change_divergence in Hp. subst p.
    apply Hiff in Hin. pose proof (divergence_range av bin im) as Hr.
    destruct (divergence av bin im) as [| |q]; simpl in Hin;
      [discriminate|contradiction|].
    apply Qltb_lt in Hin. destruct Hr as [_ Hq1].
    apply (Qlt_not_le _ _ Hin). apply (Qle_trans _ 1); assumption.
  - intros [Hlt Hs].
    destruct (lookup_lt_is_Some_2 ims k Hlt) as [im Him].
    pose proof (idx_remove_from_spec 0 s skip av bin ims rm Hrm k im Him) as H.
    simpl in H. apply in_list_true in Hs. rewrite Hs in H. exact H.
Qed.

Lemma divergence_at_most_one_witness :
  (forall im, (divergence demo_av demo_bin im = ratio_nan
               <-> count2 id demo_bin = 0) /\
              match divergence demo_av demo_bin im with
              | ratio_nan => count2 id demo_bin = 0
              | ratio_inf => False
              | ratio_val q => (0 <= q <= 1)%Q
              end) /\
  (forall k im, demo_formatted !! k = Some im -> k ∉ [3] ->
     prc_change demo_av demo_bin im = Ok (divergence demo_av demo_bin im)) /\
  exists rm, idx_remove {| prc_pixel := 15 # 100; prc_image := 1 |} [3]
                        demo_av demo_bin demo_formatted = Ok rm /\
             forall k, k ∈ rm <-> k < length demo_formatted /\ k ∈ [3].
Proof.
  apply (divergence_at_most_one {| prc_pixel := 15 # 100; prc_image := 1 |}
           [3] demo_av demo_bin demo_formatted).
  - simpl. discriminate.
  - intros [|[|[|[|k]]]] im Hk Hs; simpl in Hk; inversion Hk; subst;
      try reflexivity.
    exfalso. apply Hs. left.
Defined.

(** ** The list of removed images and the prune (lines 170-219) *)

Lemma idx_remove_from_sorted (k0 : nat) (s : qa_settings) (skip : list nat)
    (av : raster) (bin : list (list bool)) (ims : list raster) (rm : list nat) :
  idx_remove_from k0 s skip av bin ims = Ok rm -> StronglySorted lt rm.
Proof.
  revert k0 rm. induction ims as [|im ims IH]; simpl; intros k0 rm H.
  - inversion H. constructor.
  - unfold mbind, result_bind in H.
    assert (Hcons : forall r, idx_remove_from (S k0) s skip av bin ims = Ok r ->
                              StronglySorted lt (k0 :: r)).
    { intros r Hr. apply StronglySorted_cons. split; [|apply (IH _ _ Hr)].
      apply idx_remove_from_bounds in Hr.
      eapply Forall_impl; [exact Hr|]. intros x Hx. simpl in Hx. lia. }
    destruct (in_list k0 skip).
    + destruct (idx_remove_from (S k0) s skip av bin ims) as [r|] eqn:E; [|discriminate].
      inversion H; subst. apply Hcons. reflexivity.
    + destruct (prc_change av bin im) as [p|]; [|discriminate].
      destruct (idx_remove_from (S k0) s skip av bin ims) as [r|] eqn:E; [|discriminate].
      inversion H; subst.
      destruct (ratio_gt p (prc_image s)); [apply Hcons; reflexivity|apply (IH _ _ E)].
Qed.

Lemma sorted_lt_NoDup (l : list nat) : StronglySorted lt l -> NoDup l.
Proof.
  induction 1 as [|x l Hs IH Hx]; constructor; [|exact IH].
  intros Hin. rewrite Forall_forall in Hx. specialize (Hx x Hin). lia.
Qed.

Lemma filter_ext_elem {A : Type} (P1 P2 : A -> Prop)
    `{!forall x, Decision (P1 x), !forall x, Decision (P2 x)} (l : list A) :
  (forall x, x ∈ l -> (P1 x <-> P2 x)) -> filter P1 l = filter P2 l.
Proof.
  induction l as [|a l IH]; intros Hext; [reflexivity|].
  rewrite !filter_cons.
  rewrite IH by (intros x Hx; apply Hext; right; exact Hx).
  pose proof (Hext a (list_elem_of_here a l)) as Ha.
  destruct (decide (P1 a)) as [H1|H1], (decide (P2 a)) as [H2|H2];
    try reflexivity; exfalso; tauto.
Qed.

Lemma idx_keep_filter (n : nat) (idx_remove : list nat) :
  idx_keep n idx_remove = filter (fun i => i ∉ idx_remove) (seq 0 n).
Proof.
  unfold idx_keep, np_where. rewrite length_map, length_seq.
  apply filter_ext_elem. intros i Hi. apply elem_of_seq in Hi.
  rewrite list_lookup_fmap, lookup_seq_lt by lia. simpl. split.
  - intros H. inversion H as [H1]. apply negb_true_iff, in_list_false in H1. exact H1.
  - intros H. apply in_list_false in H. rewrite H. reflexivity.
Qed.

Lemma kept_plus_removed (n : nat) (rm : list nat) :
  StronglySorted lt rm -> Forall (fun k => k < n) rm ->
  length (idx_keep n rm) + length rm = n.
Proof.
  intros Hs Hb. rewrite idx_keep_filter.
  pose proof (filter_app_complement (fun i => i ∈ rm) (seq 0 n)) as Hp.
  apply Permutation_length in Hp. rewrite length_app, length_seq in Hp.
  assert (Hrm : filter (fun i => i ∈ rm) (seq 0 n) ≡ₚ rm).
  { apply NoDup_Permutation.
    - apply NoDup_filter, NoDup_seq.
    - apply sorted_lt_NoDup, Hs.
    - intros x. rewrite list_elem_of_filter, elem_of_seq. split; [tauto|].
      intros Hx. split; [exact Hx|]. rewrite Forall_forall in Hb.
      specialize (Hb x Hx). lia. }
  apply Permutation_length in Hrm. lia.
Qed.

(** X3: the indices of the removed images come in strictly ascending order,
    so none is listed twice, all lie below the number of images, and every
    image skipped for its size is among them. *)
Theorem removed_images_listed_once (resize : raster -> nat -> nat -> raster)
    (s : qa_settings) (ims : list raster) (cloud_cover : list Q) (r : qa_result) :
  discard_misclassified resize s ims cloud_cover = Ok r ->
  StronglySorted lt (qa_idx_remove r) /\
  Forall (fun k => k < length ims) (qa_idx_remove r) /\
  (forall k, k ∈ qa_idx_skip r -> k ∈ qa_idx_remove r).
Proof.
  unfold discard_misclassified, mbind, result_bind. intros Hr.
  destruct (canonical_size ims) as [[h w]|]; [|discriminate]. simpl in Hr.
  destruct (im_av _ _ _ _ _) as [av|]; [|discriminate].
  destruct (im_bin _ _ _ _) as [bin|]; [|discriminate].
  destruct (idx_remove _ _ _ _ _) as [rm|] eqn:Erm; [|discriminate].
  inversion Hr; subst; simpl. clear Hr.
  pose proof (idx_remove_from_bounds _ _ _ _ _ _ _ Erm) as Hb.
  unfold format_images in Hb. rewrite length_imap in Hb.
  split; [exact (idx_remove_from_sorted _ _ _ _ _ _ _ Erm)|]. split.
  - eapply Forall_impl; [exact Hb|]. intros k Hk. simpl in Hk. lia.
  - intros k Hk.
    assert (Hlt : k < length ims).
    { unfold idx_skip in Hk. apply np_where_elem, lookup_lt_Some in Hk.
      rewrite length_map in Hk. exact Hk. }
    destruct (lookup_lt_is_Some_2 (format_images resize (idx_skip s h w ims) h w ims) k)
      as [im Him].
    { unfold format_images. rewrite length_imap. exact Hlt. }
    pose proof (idx_remove_from_spec 0 s _ av bin _ rm Erm k im Him) as H.
    simpl in H. apply in_list_true in Hk. rewrite Hk in H. exact H.
Qed.

Lemma removed_images_listed_once_witness :
  StronglySorted lt [2; 3] /\
  Forall (fun k => k < length demo_stack) [2; 3] /\
  (forall k, k ∈ [3] -> k ∈ [2; 3]).
Proof.
  apply (removed_images_listed_once demo_resize demo_settings demo_stack
           demo_cloud_cover
           {| qa_height := 3; qa_width := 3; qa_idx_skip := [3];
              qa_im_av := demo_av; qa_im_bin := demo_bin;
              qa_idx_remove := [2; 3] |}).
  vm_compute. reflexivity.
Defined.

(** X4: the images kept by the prune and the images removed add up to the
    whole stack: no image is both kept and removed, none is lost. *)
Theorem kept_and_removed_partition (resize : raster -> nat -> nat -> raster)
    (s : qa_settings) (ims : list raster) (cloud_cover : list Q) (r : qa_result) :
  discard_misclassified resize s ims cloud_cover = Ok r ->
  length (idx_keep (length ims) (qa_idx_remove r)) + length (qa_idx_remove r)
    = length ims /\
  (forall k, k < length ims ->
     (k ∈ idx_keep (length ims) (qa_idx_remove r) <-> k ∉ qa_idx_remove r)).
Proof.
  unfold discard_misclassified, mbind, result_bind. intros Hr.
  destruct (canonical_size ims) as [[h w]|]; [|discriminate]. simpl in Hr.
  destruct (im_av _ _ _ _ _) as [av|]; [|discriminate].
  destruct (im_bin _ _ _ _) as [bin|]; [|discriminate].
  destruct (idx_remove _ _ _ _ _) as [rm|] eqn:Erm; [|discriminate].
  inversion Hr; subst; simpl. clear Hr.
  pose proof (idx_remove_from_bounds _ _ _ _ _ _ _ Erm) as Hb.
  unfold format_images in Hb. rewrite length_imap in Hb. split.
  - apply kept_plus_removed; [exact (idx_remove_from_sorted _ _ _ _ _ _ _ Erm)|].
    eapply Forall_impl; [exact Hb|]. intros k Hk. simpl in Hk. lia.
  - intros k Hk. rewrite idx_keep_elem. tauto.
Qed.

Lemma kept_and_removed_partition_witness :
  length (idx_keep (length demo_stack) [2; 3]) + length [2; 3]
    = length demo_stack /\
  (forall k, k < length demo_stack ->
     (k ∈ idx_keep (length demo_stack) [2; 3] <-> k ∉ [2; 3])).
Proof.
  apply (kept_and_removed_partition demo_resize demo_settings demo_stack
           demo_cloud_cover
           {| qa_height := 3; qa_width := 3; qa_idx_skip := [3];
              qa_im_av := demo_av; qa_im_bin := demo_bin;
              qa_idx_remove := [2; 3] |}).
  vm_compute. reflexivity.
Defined.

(** ** Range of the consensus values (lines 145-153) *)

Lemma pixel_values_from_elem (k0 : nat) (skip : list nat) (cloud_cover : list Q)
    (ims : list raster) (i j : nat) (vs : list cell) (v : cell) :
  pixel_values_from k0 skip cloud_cover ims i j = Ok vs -> v ∈ vs ->
  exists k im cc, ims !! k = Some im /\ ((k0 + k) ∉ skip) /\
    cloud_cover !! (k0 + k) = Some cc /\ ~ ((1 # 10) < cc)%Q /\
    pixel im i j = Ok v.
Proof.
  revert k0 vs. induction ims as [|im ims IH]; simpl; intros k0 vs H Hv.
  - inversion H; subst. inversion Hv.
  - unfold mbind, result_bind in H.
    destruct (getitem cloud_cover k0) as [cc|] eqn:Ecc; [|discriminate].
    assert (Hrec : forall vs', pixel_values_from (S k0) skip cloud_cover ims i j = Ok vs' ->
              v ∈ vs' ->
              exists k im' cc', (im :: ims) !! k = Some im' /\ ((k0 + k) ∉ skip) /\
                cloud_cover !! (k0 + k) = Some cc' /\ ~ ((1 # 10) < cc')%Q /\
                pixel im' i j = Ok v).
    { intros vs' Hvs' Hin. destruct (IH _ _ Hvs' Hin) as (k & im' & cc' & Hk & H').
      exists (S k), im', cc'. replace (k0 + S k) with (S k0 + k) by lia.
      split; [exact Hk|exact H']. }
    destruct (Qltb (1 # 10) cc) eqn:Ecl; simpl in H; [apply (Hrec vs H Hv)|].
    destruct (in_list k0 skip) eqn:Es; [apply (Hrec vs H Hv)|].
    destruct (pixel im i j) as [v0|] eqn:Ep; [|discriminate].
    destruct (pixel_values_from (S k0) skip cloud_cover ims i j) as [vs'|] eqn:Er;
      [|discriminate].
    inversion H; subst. apply elem_of_cons in Hv as [->|Hv]; [|apply (Hrec vs' eq_refl Hv)].
    exists 0, im, cc. rewrite Nat.add_0_r. apply getitem_Ok in Ecc.
    apply in_list_false in Es. repeat split; try assumption.
    intros Hlt. apply Qltb_lt in Hlt. congruence.
Qed.

Lemma Qsum_bounds (lo hi : Q) (qs : list Q) :
  Forall (fun q => (lo <= q <= hi)%Q) qs ->
  (inject_Z (Z.of_nat (length qs)) * lo <= Qsum qs
   /\ Qsum qs <= inject_Z (Z.of_nat (length qs)) * hi)%Q.
Proof.
  induction 1 as [|q qs [Hlo Hhi] _ [IHlo IHhi]]; simpl.
  - split; rewrite Qmult_0_l; apply Qle_refl.
  - assert (Hn : (inject_Z (Z.of_nat (S (length qs)))
                  == 1 + inject_Z (Z.of_nat (length qs)))%Q).
    { rewrite Nat2Z.inj_succ. unfold Z.succ. rewrite inject_Z_plus.
      apply Qplus_comm. }
    change (Z.pos (Pos.of_succ_nat (length qs))) with (Z.of_nat (S (length qs))).
    rewrite Hn. split.
    + rewrite Qmult_plus_distr_l, Qmult_1_l. apply Qplus_le_compat; assumption.
    + rewrite Qmult_plus_distr_l, Qmult_1_l. apply Qplus_le_compat; assumption.
Qed.

Lemma Qmean_bounds (lo hi : Q) (qs : list Q) :
  qs <> [] -> Forall (fun q => (lo <= q <= hi)%Q) qs ->
  (lo <= Qmean qs <= hi)%Q.
Proof.
  intros Hne Hall. destruct (Qsum_bounds lo hi qs Hall) as [Hlo Hhi].
  assert (Hpos : (0 < inject_Z (Z.of_nat (length qs)))%Q).
  { change 0%Q with (inject_Z 0). rewrite <- Zlt_Qlt.
    destruct qs; [congruence|simpl; lia]. }
  unfold Qmean. split.
  - apply Qle_shift_div_l; [exact Hpos|]. rewrite Qmult_comm. exact Hlo.
  - apply Qle_shift_div_r; [exact Hpos|]. rewrite Qmult_comm. exact Hhi.
Qed.

Lemma nanmean_bounds (lo hi : Q) (vs : list cell) (m : Q) :
  (forall q, Some q ∈ vs -> (lo <= q <= hi)%Q) ->
  nanmean vs = Some m -> (lo <= m <= hi)%Q.
Proof.
  intros Hall. unfold nanmean.
  destruct (omap id vs) as [|q0 qs] eqn:E; [discriminate|].
  intros H. inversion H; subst m. apply Qmean_bounds; [discriminate|].
  apply Forall_forall. intros q Hq. apply Hall.
  rewrite <- E in Hq. apply list_elem_of_omap in Hq as (v & Hv & Hid).
  simpl in Hid. subst v. exact Hv.
Qed.

(** X5: the consensus value of a pixel, when it is a number, lies between the
    smallest and the largest value that the contributing images (not skipped,
    cloud cover at most 0.1) have at that pixel: within [0, 1] for binary
    images, and equal to the common value when they all agree. *)
Theorem consensus_within_contributions (skip : list nat) (cloud_cover : list Q)
    (ims : list raster) (height width : nat) (av : raster) (i j : nat)
    (lo hi c : Q) :
  im_av skip cloud_cover ims height width = Ok av ->
  (forall k im cc q, ims !! k = Some im -> k ∉ skip ->
     cloud_cover !! k = Some cc -> ~ ((1 # 10) < cc)%Q ->
     pixel im i j = Ok (Some q) -> (lo <= q <= hi)%Q) ->
  pixel av i j = Ok (Some c) ->
  (lo <= c <= hi)%Q.
Proof.
  intros Hav Hall Hc.
  destruct (im_av_shape _ _ _ _ _ _ Hav) as [Hlen Hshape].
  apply pixel_Ok in Hc as (row & Hrow & Hcell).
  assert (Hi : i < height) by (rewrite <- Hlen; eapply lookup_lt_Some; eauto).
  assert (Hj : j < width).
  { rewrite Forall_lookup in Hshape. rewrite <- (Hshape i row Hrow).
    eapply lookup_lt_Some; eauto. }
  destruct (im_av_lookup _ _ _ _ _ _ i j Hav Hi Hj)
    as (_ & row' & vs & Hrow' & _ & Hvs & Hcell').
  rewrite Hrow in Hrow'. inversion Hrow'; subst row'.
  rewrite Hcell in Hcell'. inversion Hcell' as [Hm]. symmetry in Hm.
  apply (nanmean_bounds lo hi vs c); [|exact Hm].
  intros q Hq.
  destruct (pixel_values_from_elem 0 skip cloud_cover ims i j vs (Some q) Hvs Hq)
    as (k & im & cc & Hk & Hs & Hcc & Hcl & Hp).
  simpl in Hs, Hcc. exact (Hall k im cc q Hk Hs Hcc Hcl Hp).
Qed.

Lemma consensus_within_contributions_witness : (0 <= 0 / 2 <= 0)%Q.
Proof.
  apply (consensus_within_contributions [3] demo_cloud_cover demo_formatted 3 3
           demo_av 1 1 0 0 (0 / 2)).
  - vm_compute. reflexivity.
  - intros [|[|[|[|k]]]] im cc q Hk Hs Hcc Hcl Hp; simpl in Hk, Hcc;
      inversion Hk; subst; inversion Hcc; subst.
    + inversion Hp. split; discriminate.
    + inversion Hp. split; discriminate.
    + exfalso. apply Hcl. reflexivity.
    + exfalso. apply Hs. left.
  - reflexivity.
Defined.

(** ** Images too small for a confidence mask (lines 157-160) *)

Lemma im_bin_length (s : qa_settings) (height width : nat) (av : raster)
    (bin : list (list bool)) :
  im_bin s height width av = Ok bin -> length bin = length av.
Proof.
  unfold im_bin, clear_edge_cols, clear_edge_rows, mbind, result_bind.
  destruct (width =? 0); [discriminate|].
  destruct (height =? 0); [discriminate|].
  intros H. inversion H. rewrite !length_insert, !length_map. reflexivity.
Qed.

Lemma filter_none {A : Type} (p : A -> bool) (row : list A) :
  Forall (fun a => p a = false) row -> filter (fun x => p x = true) row = [].
Proof.
  induction 1 as [|a row Ha _ IH]; [reflexivity|].
  rewrite filter_cons_False by (rewrite Ha; discriminate). exact IH.
Qed.

Lemma count2_zero {A : Type} (p : A -> bool) (m : list (list A)) :
  Forall (Forall (fun a => p a = false)) m -> count2 p m = 0.
Proof.
  unfold count2. induction 1 as [|row m Hrow _ IH]; [reflexivity|].
  simpl. rewrite (filter_none p row Hrow). simpl. exact IH.
Qed.

Lemma idx_remove_all_nan (s : qa_settings) (skip : list nat) (av : raster)
    (bin : list (list bool)) (ims : list raster) :
  (forall k im, ims !! k = Some im -> k ∉ skip ->
     prc_change av bin im = Ok ratio_nan) ->
  exists rm, idx_remove s skip av bin ims = Ok rm /\
             forall k, k ∈ rm <-> k < length ims /\ k ∈ skip.
Proof.
  intros Hnan.
  destruct (idx_remove_from_total 0 s skip av bin ims) as [rm Hrm].
  { intros k im Hk Hs. simpl in Hs. apply in_list_false in Hs.
    exists ratio_nan. apply (Hnan k im Hk Hs). }
  exists rm. split; [exact Hrm|]. intros k. split.
  - intros Hin.
    pose proof (idx_remove_from_bounds _ _ _ _ _ _ _ Hrm) as Hb.
    rewrite Forall_forall in Hb. pose proof (Hb k Hin) as Hk. simpl in Hk.
    split; [lia|].
    destruct (lookup_lt_is_Some_2 ims k) as [im Him]; [lia|].
    pose proof (idx_remove_from_spec 0 s skip av bin ims rm Hrm k im Him) as H.
    simpl in H. destruct (in_list k skip) eqn:Es; [apply in_list_true, Es|].
    destruct H as (p & Hp & Hiff). exfalso.
    apply in_list_false in Es. rewrite (Hnan k im Him Es) in Hp.
    inversion Hp; subst p. apply Hiff in Hin. discriminate Hin.
  - intros [Hlt Hs].
    destruct (lookup_lt_is_Some_2 ims k Hlt) as [im Him].
    pose proof (idx_remove_from_spec 0 s skip av bin ims rm Hrm k im Him) as H.
    simpl in H. apply in_list_true in Hs. rewrite Hs in H. exact H.
Qed.

(** X6: when the canonical height or the canonical width is 1 or 2, every
    pixel lies on an edge, the confidence mask is empty, and the divergence of
    every image is NaN: such a stack never has an image rejected for its
    classification, the rejection loop removes the skipped images and no
    other. *)
Theorem small_images_have_empty_mask (skip : list nat) (cloud_cover : list Q)
    (ims : list raster) (s : qa_settings) (height width : nat) (av : raster)
    (bin : list (list bool)) :
  im_av skip cloud_cover ims height width = Ok av ->
  im_bin s height width av = Ok bin ->
  height <= 2 \/ width <= 2 ->
  count2 id bin = 0 /\
  (forall im, same_shape av im = true -> prc_change av bin im = Ok ratio_nan) /\
  ((forall k im, ims !! k = Some im -> k ∉ skip -> same_shape av im = true) ->
   exists rm, idx_remove s skip av bin ims = Ok rm /\
              forall k, k ∈ rm <-> k < length ims /\ k ∈ skip).
Proof.
  intros Hav Hbin Hsmall.
  destruct (im_av_shape _ _ _ _ _ _ Hav) as [Hlen Hshape].
  assert (Hzero : count2 id bin = 0).
  { apply count2_zero. apply Forall_lookup. intros i brow Hbrow.
    apply Forall_lookup. intros j b Hb.
    pose proof (lookup_lt_Some _ _ _ Hbrow) as Hi.
    rewrite (im_bin_length _ _ _ _ _ Hbin) in Hi.
    destruct (lookup_lt_is_Some_2 av i Hi) as [row Hrow].
    destruct (lookup_lt_is_Some_2 row j) as [c Hc].
    { rewrite Forall_lookup in Hshape. rewrite (Hshape i row Hrow).
      destruct (lookup_lt_is_Some_2 row 0) as [c0 Hc0].
      { rewrite (Hshape i row Hrow).
        unfold im_bin, clear_edge_cols, mbind, result_bind in Hbin.
        destruct (Nat.eqb_spec width 0); [discriminate|lia]. }
      destruct (im_bin_lookup s height width av bin i 0 row c0 Hbin Hlen
                  (proj2 (Forall_lookup _ _) Hshape) Hrow Hc0)
        as (brow' & Hbrow' & Hlb & _).
      rewrite Hbrow in Hbrow'. inversion Hbrow'; subst brow'.
      rewrite <- Hlb. eapply lookup_lt_Some. exact Hb. }
    destruct (im_bin_lookup s height width av bin i j row c Hbin Hlen
                Hshape Hrow Hc)
      as (brow' & Hbrow' & Hlb & Hbj).
    rewrite Hbrow in Hbrow'. inversion Hbrow'; subst brow'.
    rewrite Hb in Hbj. inversion Hbj as [Hval]. unfold id.
    pose proof (lookup_lt_Some _ _ _ Hc) as Hj.
    rewrite Forall_lookup in Hshape. rewrite (Hshape i row Hrow) in Hj.
    rewrite Hlen in Hi.
    destruct Hsmall as [Hh|Hw].
    - destruct (Nat.eqb_spec i 0); [rewrite !andb_false_r; reflexivity|].
      destruct (Nat.eqb_spec i (height - 1)); [|lia].
      rewrite !andb_false_r. reflexivity.
    - destruct (Nat.eqb_spec j 0); [rewrite !andb_false_r; reflexivity|].
      destruct (Nat.eqb_spec j (width - 1)); [|lia].
      rewrite !andb_false_r. reflexivity. }
  split; [exact Hzero|]. split.
  - intros im Him. apply prc_change_empty_mask; assumption.
  - intros Hsame. apply idx_remove_all_nan. intros k im Hk Hs.
    apply prc_change_empty_mask; [exact Hzero|exact (Hsame k im Hk Hs)].
Qed.

Lemma small_images_have_empty_mask_witness :
  count2 id demo_small_bin = 0 /\
  (forall im, same_shape demo_small_av im = true ->
              prc_change demo_small_av demo_small_bin im = Ok ratio_nan) /\
  exists rm, idx_remove demo_settings [] demo_small_av demo_small_bin
                        demo_small_stack = Ok rm /\
             forall k, k ∈ rm <-> k < length demo_small_stack /\ k ∈ [].
Proof.
  destruct (small_images_have_empty_mask [] [0%Q; 0%Q] demo_small_stack
              demo_settings 2 2 demo_small_av demo_small_bin)
    as (Hzero & Hnan & Hrm).
  - vm_compute. reflexivity.
  - vm_compute. reflexivity.
  - left. lia.
  - split; [exact Hzero|]. split; [exact Hnan|]. apply Hrm.
    intros [|[|k]] im Hk _; simpl in Hk; inversion Hk; subst; reflexivity.
Defined.

(** ** The prune at its two extremes (lines 215-219) *)

Lemma idx_keep_nil (n : nat) : idx_keep n [] = seq 0 n.
Proof.
  rewrite idx_keep_filter. induction (seq 0 n) as [|x l IH]; [reflexivity|].
  rewrite filter_cons_True by (intros H; inversion H). rewrite IH. reflexivity.
Qed.

Lemma idx_keep_all (n : nat) : idx_keep n (seq 0 n) = [].
Proof.
  destruct (idx_keep n (seq 0 n)) as [|i r] eqn:E; [reflexivity|].
  assert (Hi : i ∈ idx_keep n (seq 0 n)) by (rewrite E; left).
  apply idx_keep_elem in Hi as [Hlt Hnot]. exfalso. apply Hnot.
  apply elem_of_seq. lia.
Qed.

Lemma take_indices_all {V : Type} (l : list V) :
  take_indices l (seq 0 (length l)) = l.
Proof.
  destruct (take_indices_spec l (seq 0 (length l))) as [Hlen Hlk].
  { apply Forall_forall. intros i Hi. apply elem_of_seq in Hi. lia. }
  rewrite length_seq in Hlen. apply list_eq. intros j.
  destruct (Nat.lt_ge_cases j (length l)) as [Hj|Hj].
  - apply Hlk. apply lookup_seq_lt. exact Hj.
  - rewrite !lookup_ge_None_2 by lia. reflexivity.
Qed.

(** X7: when no image is removed the prune only drops the classified images
    and leaves every other entry of [output] as it was; when all images are
    removed every other entry becomes the empty list. *)
Theorem prune_extremes {V : Type} (output : gmap string (list V)) (n : nat) :
  is_Some (output !! "im_classif") ->
  is_Some (output !! "dates") ->
  map_Forall (fun _ l => length l = n) output ->
  prune_output output [] = Ok (delete "im_classif" output) /\
  prune_output output (seq 0 n) = Ok ((fun _ => []) <$> delete "im_classif" output).
Proof.
  intros [rasters Hr] [dates Hd] Hlen.
  assert (Hcheck : forall keep,
            Forall (fun i => i < n) keep ->
            bool_decide (map_Forall
              (fun _ (l : list V) => Forall (fun i => i < length l) keep)
              (delete "im_classif" output)) = true).
  { intros keep Hk. apply bool_decide_eq_true_2, map_Forall_delete.
    intros key l Hl. rewrite (Hlen key l Hl). exact Hk. }
  unfold prune_output. rewrite Hr.
  rewrite lookup_delete_ne by discriminate. rewrite Hd, (Hlen "dates" dates Hd).
  split.
  - rewrite Hcheck.
    2:{ rewrite idx_keep_nil. apply Forall_forall. intros i Hi.
        apply elem_of_seq in Hi. lia. }
    f_equal. apply map_eq. intros key. rewrite lookup_fmap.
    destruct (delete "im_classif" output !! key) as [l|] eqn:El; [|reflexivity].
    simpl. f_equal. rewrite idx_keep_nil.
    assert (Hl : output !! key = Some l).
    { destruct (decide (key = "im_classif")) as [->|Hne].
      - rewrite lookup_delete_eq in El. discriminate.
      - rewrite lookup_delete_ne in El by congruence. exact El. }
    rewrite <- (Hlen key l Hl). apply take_indices_all.
  - rewrite Hcheck by (rewrite idx_keep_all; constructor).
    rewrite idx_keep_all. reflexivity.
Qed.

Lemma prune_extremes_witness :
  prune_output demo_output [] = Ok (delete "im_classif" demo_output) /\
  prune_output demo_output (seq 0 2)
    = Ok ((fun _ => []) <$> delete "im_classif" demo_output).
Proof.
  apply (prune_extremes demo_output 2).
  - vm_compute. eauto.
  - vm_compute. eauto.
  - apply (bool_decide_unpack _). vm_compute. exact I.
Defined.

(** ** The matched pairs of a transect (lines 405-409) *)

Lemma select_elem {A : Type} (l : list A) (idx : list nat) (l' : list A) (a : A) :
  select l idx = Ok l' -> a ∈ l' ->
  exists j i, idx !! j = Some i /\ l' !! j = Some a /\ l !! i = Some a.
Proof.
  intros Hsel Ha. apply select_Ok in Hsel as [Hlen Hlk].
  apply list_elem_of_lookup in Ha as [j Hj].
  destruct (lookup_lt_is_Some_2 idx j) as [i Hi].
  { rewrite <- Hlen. eapply lookup_lt_Some. exact Hj. }
  exists j, i. split; [exact Hi|]. split; [exact Hj|].
  destruct (Hlk j i Hi) as [Heq _]. rewrite <- Heq. exact Hj.
Qed.

Lemma select_not_nan (l : list cell) (l' : list cell) :
  select l (where_not_nan l) = Ok l' -> Forall (fun c => c <> NaN) l'.
Proof.
  intros Hsel. apply Forall_forall. intros c Hc.
  destruct (select_elem _ _ _ _ Hsel Hc) as (j & i & Hi & _ & Hl).
  assert (Hin : i ∈ where_not_nan l) by (apply list_elem_of_lookup; eauto).
  apply where_not_nan_elem in Hin as [q Hq]. rewrite Hl in Hq.
  inversion Hq. discriminate.
Qed.

Lemma select_Forall {A : Type} (P : A -> Prop) (l : list A) (idx : list nat)
    (l' : list A) :
  select l idx = Ok l' -> Forall P l -> Forall P l'.
Proof.
  intros Hsel Hall. apply Forall_forall. intros a Ha.
  destruct (select_elem _ _ _ _ Hsel Ha) as (j & i & _ & _ & Hl).
  rewrite Forall_forall in Hall. apply Hall, list_elem_of_lookup. eauto.
Qed.

Lemma omap_id_not_nan (l : list cell) :
  Forall (fun c => c <> NaN) l ->
  length (omap id l) = length l /\
  forall j, omap id l !! j = l !! j ≫= id.
Proof.
  induction 1 as [|c l Hc _ [IHlen IHlk]]; [split; [reflexivity|]; intros j; reflexivity|].
  destruct c as [q|]; [|exfalso; apply Hc; reflexivity].
  simpl. split; [f_equal; exact IHlen|].
  intros [|j]; [reflexivity|]. simpl. apply IHlk.
Qed.

(** X8: the four vectors that describe the matched pairs of a transect have
    one length, and their entries at one position all come from one and the
    same observation: the satellite chainage, date and satellite name of an
    observation that is not NaN, with the survey value the matching loop gave
    it, the observations left without survey value being dropped. *)
Theorem matched_pairs_stay_aligned (sett : match_settings) (out_dates : list Z)
    (out_satname : list string) (chainage : list cell) (gt : survey)
    (a : aligned) :
  align_transect sett out_dates out_satname chainage gt = Ok a ->
  exists nn ci,
    remove_nans out_dates out_satname chainage = Ok nn /\
    chain_int sett gt (dates_nonans nn) = Ok ci /\
    length (chain_sat a) = length (where_not_nan ci) /\
    length (chain_sur a) = length (where_not_nan ci) /\
    length (dates_sat a) = length (where_not_nan ci) /\
    length (satnames a) = length (where_not_nan ci) /\
    forall j k, where_not_nan ci !! j = Some k ->
      (exists q, chain_nonans nn !! k = Some (Some q) /\ chain_sat a !! j = Some q) /\
      (exists c, ci !! k = Some (Some c) /\ chain_sur a !! j = Some c) /\
      dates_sat a !! j = dates_nonans nn !! k /\
      satnames a !! j = satnames_nonans nn !! k.
Proof.
  unfold align_transect, mbind, result_bind. intros H.
  destruct (remove_nans out_dates out_satname chainage) as [nn|] eqn:Enn;
    [|discriminate].
  destruct (chain_int sett gt (dates_nonans nn)) as [ci|] eqn:Eci; [|discriminate].
  destruct (select (chain_nonans nn) (where_not_nan ci)) as [sat|] eqn:Esat;
    [|discriminate].
  destruct (select ci (where_not_nan ci)) as [sur|] eqn:Esur; [|discriminate].
  destruct (select (dates_nonans nn) (where_not_nan ci)) as [d|] eqn:Ed;
    [|discriminate].
  destruct (select (satnames_nonans nn) (where_not_nan ci)) as [sn|] eqn:Esn;
    [|discriminate].
  inversion H; subst a; simpl; clear H.
  exists nn, ci. split; [assumption || reflexivity|].
  split; [assumption || reflexivity|].
  assert (Hnn : Forall (fun c => c <> NaN) (chain_nonans nn)).
  { unfold remove_nans, mbind, result_bind in Enn.
    destruct (select out_dates _); [|discriminate].
    destruct (select out_satname _); [|discriminate].
    destruct (select chainage (where_not_nan chainage)) as [c|] eqn:Ec;
      [|discriminate].
    inversion Enn; subst nn; simpl. exact (select_not_nan _ _ Ec). }
  pose proof (select_Forall _ _ _ _ Esat Hnn) as Hsat.
  destruct (omap_id_not_nan sat Hsat) as [Hlsat Hksat].
  destruct (omap_id_not_nan sur (select_not_nan _ _ Esur)) as [Hlsur Hksur].
  apply select_Ok in Esat as [Hl1 Hk1]. apply select_Ok in Esur as [Hl2 Hk2].
  apply select_Ok in Ed as [Hl3 Hk3]. apply select_Ok in Esn as [Hl4 Hk4].
  split; [lia|]. split; [lia|]. split; [exact Hl3|]. split; [exact Hl4|].
  intros j k Hj.
  destruct (Hk1 j k Hj) as [H1 _]. destruct (Hk2 j k Hj) as [H2 _].
  destruct (Hk3 j k Hj) as [H3 _]. destruct (Hk4 j k Hj) as [H4 _].
  assert (Hin : k ∈ where_not_nan ci) by (apply list_elem_of_lookup; eauto).
  apply where_not_nan_elem in Hin as [c Hc].
  split; [|split; [|split; assumption]].
  - destruct (lookup_lt_is_Some_2 sat j) as [[q|] Hq];
      [rewrite Hl1; eapply lookup_lt_Some; exact Hj| |].
    + exists q. split; [rewrite <- H1; exact Hq|].
      rewrite Hksat, Hq. reflexivity.
    + exfalso. rewrite Forall_forall in Hsat. apply (Hsat NaN); [|reflexivity].
      apply list_elem_of_lookup. eauto.
  - exists c. split; [exact Hc|]. rewrite Hksur, H2, Hc. reflexivity.
Qed.

Lemma matched_pairs_stay_aligned_witness :
  exists nn ci,
    remove_nans demo_transect_dates demo_transect_satname demo_transect_chainage
      = Ok nn /\
    chain_int demo_match_settings demo_survey (dates_nonans nn) = Ok ci /\
    length (chain_sat demo_aligned) = length (where_not_nan ci) /\
    length (chain_sur demo_aligned) = length (where_not_nan ci) /\
    length (dates_sat demo_aligned) = length (where_not_nan ci) /\
    length (satnames demo_aligned) = length (where_not_nan ci) /\
    forall j k, where_not_nan ci !! j = Some k ->
      (exists q, chain_nonans nn !! k = Some (Some q) /\
                 chain_sat demo_aligned !! j = Some q) /\
      (exists c, ci !! k = Some (Some c) /\ chain_sur demo_aligned !! j = Some c) /\
      dates_sat demo_aligned !! j = dates_nonans nn !! k /\
      satnames demo_aligned !! j = satnames_nonans nn !! k.
Proof.
  apply (matched_pairs_stay_aligned demo_match_settings demo_transect_dates
           demo_transect_satname demo_transect_chainage demo_survey demo_aligned).
  vm_compute. reflexivity.
Defined.

(** ** The pooled vectors (lines 410-412 and 475) *)

Lemma align_transect_lengths (sett : match_settings) (out_dates : list Z)
    (out_satname : list string) (chainage : list cell) (gt : survey)
    (a : aligned) :
  align_transect sett out_dates out_satname chainage gt = Ok a ->
  length (chain_sur a) = length (chain_sat a) /\
  length (satnames a) = length (chain_sat a).
Proof.
  unfold align_transect, mbind, result_bind. intros H.
  destruct (remove_nans out_dates out_satname chainage) as [nn|] eqn:Enn;
    [|discriminate].
  destruct (chain_int sett gt (dates_nonans nn)) as [ci|]; [|discriminate].
  destruct (select (chain_nonans nn) (where_not_nan ci)) as [sat|] eqn:Esat;
    [|discriminate].
  destruct (select ci (where_not_nan ci)) as [sur|] eqn:Esur; [|discriminate].
  destruct (select (dates_nonans nn) (where_not_nan ci)) as [d|]; [|discriminate].
  destruct (select (satnames_nonans nn) (where_not_nan ci)) as [sn|] eqn:Esn;
    [|discriminate].
  inversion H; subst a; simpl; clear H.
  assert (Hnn : Forall (fun c => c <> NaN) (chain_nonans nn)).
  { unfold remove_nans, mbind, result_bind in Enn.
    destruct (select out_dates _); [|discriminate].
    destruct (select out_satname _); [|discriminate].
    destruct (select chainage (where_not_nan chainage)) as [c|] eqn:Ec;
      [|discriminate].
    inversion Enn; subst nn; simpl. exact (select_not_nan _ _ Ec). }
  destruct (omap_id_not_nan sat (select_Forall _ _ _ _ Esat Hnn)) as [Hlsat _].
  destruct (omap_id_not_nan sur (select_not_nan _ _ Esur)) as [Hlsur _].
  apply select_Ok in Esat as [Hl1 _]. apply select_Ok in Esur as [Hl2 _].
  apply select_Ok in Esn as [Hl4 _]. lia.
Qed.

Lemma transect_loop_pools (sett : match_settings) (out_dates : list Z)
    (out_satname : list string) (ts : list transect_data)
    (st0 st : validation_state) :
  transect_loop sett out_dates out_satname ts st0 = Ok st ->
  exists als,
    Forall2 (fun t a => align_transect sett out_dates out_satname
                          (cross_distance t) (ground_truth t) = Ok a) ts als /\
    chain_sat_all st = chain_sat_all st0 ++ concat (map chain_sat als) /\
    chain_sur_all st = chain_sur_all st0 ++ concat (map chain_sur als) /\
    satnames_all st = satnames_all st0 ++ concat (map satnames als).
Proof.
  revert st0. induction ts as [|t ts IH]; intros st0; simpl.
  - intros H. inversion H; subst. exists []. rewrite !app_nil_r.
    split; [constructor|auto].
  - unfold mbind, result_bind.
    destruct (align_transect _ _ _ _ _) as [a|] eqn:Ea; [|discriminate].
    destruct (transect_statistics a) as [es|]; [|discriminate].
    intros H. destruct (IH _ H) as (als & Hall & Hsat & Hsur & Hsn).
    simpl in Hsat, Hsur, Hsn. exists (a :: als).
    split; [constructor; assumption|]. simpl.
    rewrite Hsat, Hsur, Hsn, <- !app_assoc. auto.
Qed.

(** X9: the vectors pooled over the transects are the matched pairs of the
    transects put end to end in the order of the transects, and the pooled
    satellite chainages, survey chainages and satellite names have one
    length. After at least one transect the pooled vectors are arrays of one
    length and the pooled error of line 475 is defined; with no transect at
    all they still are Python lists and line 475 raises [TypeError]. *)
Theorem pooled_vectors_are_concatenations (sett : match_settings)
    (out_dates : list Z) (out_satname : list string) (ts : list transect_data)
    (st : validation_state) :
  transect_loop sett out_dates out_satname ts initial_state = Ok st ->
  exists als,
    Forall2 (fun t a => align_transect sett out_dates out_satname
                          (cross_distance t) (ground_truth t) = Ok a) ts als /\
    chain_sat_all st = concat (map chain_sat als) /\
    chain_sur_all st = concat (map chain_sur als) /\
    satnames_all st = concat (map satnames als) /\
    length (chain_sur_all st) = length (chain_sat_all st) /\
    length (satnames_all st) = length (chain_sat_all st) /\
    (ts = [] -> aggregate_statistics st = Raise TypeError) /\
    (ts <> [] ->
     exists a, last_aligned st = Some a /\
       vec_sub (chain_sat_all st) (chain_sur_all st)
       = Ok (zip_with Qminus (chain_sat_all st) (chain_sur_all st))).
Proof.
  intros H. destruct (transect_loop_pools _ _ _ _ _ _ H)
    as (als & Hall & Hsat & Hsur & Hsn).
  simpl in Hsat, Hsur, Hsn.
  assert (Hlen : length (chain_sur_all st) = length (chain_sat_all st) /\
                 length (satnames_all st) = length (chain_sat_all st)).
  { rewrite Hsat, Hsur, Hsn. clear H Hsat Hsur Hsn.
    induction Hall as [|t a ts als Ha _ IH]; [split; reflexivity|].
    simpl. rewrite !length_app.
    destruct (align_transect_lengths _ _ _ _ _ _ Ha) as [H1 H2]. lia. }
  exists als. split; [exact Hall|].
  split; [exact Hsat|]. split; [exact Hsur|]. split; [exact Hsn|].
  split; [apply Hlen|]. split; [apply Hlen|]. split.
  - intros ->. simpl in H. inversion H; subst st. reflexivity.
  - intros Hne. destruct (exists_last Hne) as (ts' & t & ->).
    apply transect_loop_last in H as (a & _ & _ & _ & Hlast & _).
    exists a. split; [exact Hlast|].
    unfold vec_sub. destruct Hlen as [Hl _]. rewrite Hl, Nat.eqb_refl. reflexivity.
Qed.

Lemma pooled_vectors_are_concatenations_witness :
  exists als,
    Forall2 (fun t a => align_transect demo_match_settings demo_out_dates
                          demo_out_satname (cross_distance t) (ground_truth t)
                        = Ok a) demo_transects als /\
    chain_sat_all demo_state = concat (map chain_sat als) /\
    chain_sur_all demo_state = concat (map chain_sur als) /\
    satnames_all demo_state = concat (map satnames als) /\
    length (chain_sur_all demo_state) = length (chain_sat_all demo_state) /\
    length (satnames_all demo_state) = length (chain_sat_all demo_state) /\
    exists a, last_aligned demo_state = Some a /\
      vec_sub (chain_sat_all demo_state) (chain_sur_all demo_state)
      = Ok (zip_with Qminus (chain_sat_all demo_state) (chain_sur_all demo_state)).
Proof.
  destruct (pooled_vectors_are_concatenations demo_match_settings demo_out_dates
              demo_out_satname demo_transects demo_state)
    as (als & Hall & Hsat & Hsur & Hsn & Hl1 & Hl2 & _ & Hsub).
  - vm_compute. reflexivity.
  - exists als. repeat (split; [assumption|]).
    apply Hsub. discriminate.
Defined.

(** ** Statistics of a transect whose pairs agree (lines 415-422) *)

Lemma zip_with_diag {A B : Type} (f : A -> A -> B) (l : list A) :
  zip_with f l l = map (fun a => f a a) l.
Proof. induction l as [|a l IH]; [reflexivity|]. simpl. rewrite IH. reflexivity. Qed.

Lemma Qsum_zero (l : list Q) : Forall (fun q => (q == 0)%Q) l -> (Qsum l == 0)%Q.
Proof.
  induction 1 as [|q l Hq _ IH]; simpl; [reflexivity|].
  rewrite Hq, IH. reflexivity.
Qed.

Lemma Qsum_nonneg (l : list Q) : Forall (fun q => (0 <= q)%Q) l -> (0 <= Qsum l)%Q.
Proof.
  induction 1 as [|q l Hq _ IH]; simpl; [apply Qle_refl|].
  replace 0%Q with (0 + 0)%Q by reflexivity. apply Qplus_le_compat; assumption.
Qed.

Lemma Qsum_nonneg_zero (l : list Q) :
  Forall (fun q => (0 <= q)%Q) l -> (Qsum l == 0)%Q ->
  Forall (fun q => (q == 0)%Q) l.
Proof.
  induction 1 as [|q l Hq Hl IH]; simpl; intros Hs; [constructor|].
  pose proof (Qsum_nonneg l Hl) as Hnn.
  assert (Hq0 : (q == 0)%Q).
  { apply Qle_antisym; [|exact Hq].
    rewrite <- Hs. rewrite <- (Qplus_0_r q) at 1.
    apply Qplus_le_compat; [apply Qle_refl|exact Hnn]. }
  constructor; [exact Hq0|]. apply IH. rewrite Hq0, Qplus_0_l in Hs. exact Hs.
Qed.

Lemma Qsquare_nonneg (q : Q) : (0 <= q * q)%Q.
Proof. destruct q as [n d]. unfold Qle, Qmult. simpl. nia. Qed.

Lemma Qmean_zero_iff_sum (l : list Q) :
  l <> [] -> (Qmean l == 0)%Q -> (Qsum l == 0)%Q.
Proof.
  intros Hne H. unfold Qmean in H.
  assert (Hn : ~ (inject_Z (Z.of_nat (length l)) == 0)%Q).
  { intros E. change 0%Q with (inject_Z 0) in E. apply inject_Z_injective in E.
    destruct l; [congruence|simpl in E; discriminate E]. }
  rewrite <- (Qmult_div_r (Qsum l) _ Hn). rewrite H. apply Qmult_0_r.
Qed.

Lemma Qcov_self_zero (x : list Q) :
  (Qcov x x == 0)%Q -> all_identical x = true.
Proof.
  intros H. destruct x as [|a r]; [reflexivity|].
  unfold Qcov in H. rewrite zip_with_diag in H.
  apply Qmean_zero_iff_sum in H; [|discriminate].
  apply Qsum_nonneg_zero in H.
  2:{ apply Forall_fmap, Forall_forall. intros q _. simpl.
      apply Qsquare_nonneg. }
  assert (Heq : forall q, q ∈ a :: r -> (q == Qmean (a :: r))%Q).
  { intros q Hq. rewrite Forall_fmap, Forall_forall in H. specialize (H q Hq).
    simpl in H. apply Qmult_integral in H.
    assert (Hz : (q - Qmean (a :: r) == 0)%Q) by tauto.
    rewrite <- (Qplus_0_l (Qmean (a :: r))), <- Hz. ring. }
  simpl. apply forallb_forall. intros b Hb. apply Qeq_bool_iff.
  rewrite (Heq a) by left. symmetry. apply Heq. right.
  apply list_elem_of_In. exact Hb.
Qed.

Lemma linregress_identity (x : list Q) :
  all_identical x = false ->
  exists r s i r2, linregress x x = Ok r /\
    slope r = Some s /\ (s == 1)%Q /\
    intercept r = Some i /\ (i == 0)%Q /\
    R2 r = Some r2 /\ (r2 == 1)%Q.
Proof.
  intros Hid.
  assert (Hcov : ~ (Qcov x x == 0)%Q).
  { intros H. apply Qcov_self_zero in H. congruence. }
  assert (Hb : Qeq_bool (Qcov x x) 0 = false).
  { destruct (Qeq_bool (Qcov x x) 0) eqn:E; [|reflexivity].
    apply Qeq_bool_iff in E. contradiction. }
  unfold linregress. rewrite Nat.eqb_refl. simpl negb. cbv iota.
  destruct x as [|a [|b r]]; [discriminate|discriminate|].
  change (length (a :: b :: r) <? 2) with false. cbv iota.
  rewrite Hid. cbv beta iota zeta. rewrite Hb. simpl orb. cbv iota.
  eexists _, _, _, _. split; [reflexivity|]. simpl.
  split; [reflexivity|]. split; [field; exact Hcov|].
  split; [reflexivity|]. split; [field; exact Hcov|].
  split; [reflexivity|]. field. exact Hcov.
Qed.

Lemma Qmean_zero (l : list Q) : Forall (fun q => (q == 0)%Q) l -> (Qmean l == 0)%Q.
Proof.
  intros H. unfold Qmean, Qdiv. rewrite (Qsum_zero l H). apply Qmult_0_l.
Qed.

Lemma Qinsert_length (x : Q) (l : list Q) : length (Qinsert x l) = S (length l).
Proof.
  induction l as [|y l IH]; simpl; [reflexivity|].
  destruct (Qle_bool x y); simpl; [reflexivity|]. rewrite IH. reflexivity.
Qed.

Lemma Qinsert_Forall (P : Q -> Prop) (x : Q) (l : list Q) :
  P x -> Forall P l -> Forall P (Qinsert x l).
Proof.
  intros Hx. induction 1 as [|y l Hy Hl IH]; simpl; [repeat constructor; exact Hx|].
  destruct (Qle_bool x y); repeat constructor; assumption.
Qed.

Lemma Qsort_length (l : list Q) : length (Qsort l) = length l.
Proof.
  unfold Qsort. induction l as [|x l IH]; simpl; [reflexivity|].
  rewrite Qinsert_length, IH. reflexivity.
Qed.

Lemma Qsort_Forall (P : Q -> Prop) (l : list Q) : Forall P l -> Forall P (Qsort l).
Proof.
  unfold Qsort. induction 1 as [|x l Hx _ IH]; simpl; [constructor|].
  apply Qinsert_Forall; assumption.
Qed.

Lemma percentile_index (n : nat) (p : Q) :
  (0 <= p <= 100)%Q -> 0 < n ->
  Z.to_nat (Qfloor (p / 100 * inject_Z (Z.of_nat (n - 1)))) < n.
Proof.
  intros [Hp0 Hp1] Hn.
  assert (Hm : (0 <= inject_Z (Z.of_nat (n - 1)))%Q).
  { change 0%Q with (inject_Z 0). rewrite <- Zle_Qle. lia. }
  assert (Hle : (p / 100 * inject_Z (Z.of_nat (n - 1))
                 <= inject_Z (Z.of_nat (n - 1)))%Q).
  { rewrite <- (Qmult_1_l (inject_Z (Z.of_nat (n - 1)))) at 2.
    apply Qmult_le_compat_r; [|exact Hm].
    apply Qle_shift_div_r; [reflexivity|]. rewrite Qmult_1_l. exact Hp1. }
  apply Qfloor_resp_le in Hle. rewrite Qfloor_Z in Hle. lia.
Qed.

Lemma percentile_zero (l : list Q) (p : Q) :
  l <> [] -> (0 <= p <= 100)%Q -> Forall (fun q => (q == 0)%Q) l ->
  exists v, percentile l p = Ok v /\ (v == 0)%Q.
Proof.
  intros Hne Hp Hall. unfold percentile.
  destruct l as [|q0 l']; [congruence|]. set (l := q0 :: l') in *.
  pose proof (Qsort_Forall _ l Hall) as Hs. rewrite Forall_lookup in Hs.
  assert (Hn : 0 < length l) by (simpl; lia).
  pose proof (percentile_index (length l) p Hp Hn) as Hlo.
  destruct (getitem_lt (Qsort l)
              (Z.to_nat (Qfloor (p / 100 * inject_Z (Z.of_nat (length l - 1))))))
    as (vlo & Hvlo & Hklo); [rewrite Qsort_length; exact Hlo|].
  destruct (getitem_lt (Qsort l)
              (Nat.min
                 (S (Z.to_nat (Qfloor (p / 100 * inject_Z (Z.of_nat (length l - 1))))))
                 (length l - 1)))
    as (vhi & Hvhi & Hkhi); [rewrite Qsort_length; lia|].
  unfold mbind, result_bind. rewrite Hvlo, Hvhi.
  eexists. split; [reflexivity|].
  rewrite (Hs _ _ Hklo), (Hs _ _ Hkhi). ring.
Qed.

(** X10: for a transect whose satellite chainages are the survey chainages,
    all pairs on the line y = x and not all on one point, the statistics are
    those of a perfect fit: slope 1, intercept 0, R2 1, and a zero mean
    error, squared RMSE, variance and 90th percentile of the absolute
    error. *)
Theorem perfect_agreement_statistics (a : aligned) :
  chain_sat a = chain_sur a ->
  all_identical (chain_sur a) = false ->
  exists es s i r2,
    transect_statistics a = Ok es /\
    slope (regr es) = Some s /\ (s == 1)%Q /\
    intercept (regr es) = Some i /\ (i == 0)%Q /\
    R2 (regr es) = Some r2 /\ (r2 == 1)%Q /\
    (rmse_sq es == 0)%Q /\ (mean_error es == 0)%Q /\
    (std_sq es == 0)%Q /\ (q90 es == 0)%Q.
Proof.
  intros Heq Hid. unfold transect_statistics, mbind, result_bind.
  rewrite Heq.
  destruct (linregress_identity _ Hid)
    as (r & s & i & r2 & Hr & Hs & Hs1 & Hi & Hi0 & HR & HR1).
  rewrite Hr. unfold vec_sub. rewrite Nat.eqb_refl.
  set (e := zip_with Qminus (chain_sur a) (chain_sur a)).
  assert (He : Forall (fun q => (q == 0)%Q) e).
  { unfold e. rewrite zip_with_diag. apply Forall_fmap, Forall_forall.
    intros q _. simpl. ring. }
  assert (Hne : e <> []).
  { unfold e. destruct (chain_sur a); [discriminate Hid|discriminate]. }
  destruct (percentile_zero (map Qabs e) 90) as (q & Hq & Hq0).
  { destruct e; [congruence|discriminate]. }
  { split; discriminate. }
  { apply Forall_fmap. eapply Forall_impl; [exact He|].
    intros x Hx. simpl in *. rewrite Hx. reflexivity. }
  unfold error_metrics, mbind, result_bind. rewrite Hq.
  eexists _, s, i, r2. split; [reflexivity|]. simpl.
  split; [exact Hs|]. split; [exact Hs1|]. split; [exact Hi|].
  split; [exact Hi0|]. split; [exact HR|]. split; [exact HR1|].
  split; [|split; [apply Qmean_zero, He|split; [|exact Hq0]]].
  - apply Qmean_zero. apply Forall_fmap. eapply Forall_impl; [exact He|].
    intros x Hx. simpl in *. rewrite Hx. ring.
  - unfold Qcov. rewrite zip_with_diag. apply Qmean_zero.
    apply Forall_fmap. eapply Forall_impl; [exact He|].
    intros x Hx. simpl in *. rewrite Hx, (Qmean_zero e He). ring.
Qed.

Lemma perfect_agreement_statistics_witness :
  exists es s i r2,
    transect_statistics {| chain_sat := [0; 1]%Q; chain_sur := [0; 1]%Q;
                           dates_sat := [day 100; day 110];
                           satnames := ["L8"; "S2"] |} = Ok es /\
    slope (regr es) = Some s /\ (s == 1)%Q /\
    intercept (regr es) = Some i /\ (i == 0)%Q /\
    R2 (regr es) = Some r2 /\ (r2 == 1)%Q /\
    (rmse_sq es == 0)%Q /\ (mean_error es == 0)%Q /\
    (std_sq es == 0)%Q /\ (q90 es == 0)%Q.
Proof.
  apply (perfect_agreement_statistics
           {| chain_sat := [0; 1]%Q; chain_sur := [0; 1]%Q;
              dates_sat := [day 100; day 110]; satnames := ["L8"; "S2"] |}).
  - reflexivity.
  - reflexivity.
Defined.

(** ** Exceptions of the matching loop (lines 385-402) *)

Lemma matching_loop_raise_at (sett : match_settings) (gt : survey)
    (dates : list Z) (k0 : nat) (ci0 : list cell) (k : nat) (D : Z) (e : exn) :
  dates !! k = Some D ->
  (forall j d, j < k -> dates !! j = Some d ->
               exists c, match_date sett gt d = Ok (Assign c)) ->
  match_date sett gt D = Raise e ->
  matching_loop sett gt k0 dates ci0 = Raise e.
Proof.
  revert k0 ci0 k. induction dates as [|d dates IH]; intros k0 ci0 k Hk Hpre Hr.
  - discriminate.
  - simpl. unfold mbind, result_bind. destruct k as [|k]; simpl in Hk.
    + inversion Hk; subst d. rewrite Hr. reflexivity.
    + destruct (Hpre 0 d) as [c Hc]; [lia|reflexivity|]. rewrite Hc.
      apply (IH _ _ k Hk); [|exact Hr].
      intros j d' Hj Hd'. apply (Hpre (S j) d'); [lia|exact Hd'].
Qed.

(** X11: a transect surveyed on no date at all cannot be matched: with no
    satellite date the loop returns the empty vector, with any satellite date
    the minimum over the empty list of offsets raises [ValueError]. *)
Theorem empty_survey_raises (sett : match_settings) (gt : survey) :
  gt_dates gt = [] ->
  chain_int sett gt [] = Ok [] /\
  forall D dates, chain_int sett gt (D :: dates) = Raise ValueError.
Proof.
  intros Hgt. split; [reflexivity|]. intros D dates.
  unfold chain_int. simpl. unfold match_date, days_diff. rewrite Hgt. reflexivity.
Qed.

Lemma empty_survey_raises_witness :
  chain_int demo_match_settings {| gt_dates := []; gt_chainage := [] |} [] = Ok [] /\
  forall D dates,
    chain_int demo_match_settings {| gt_dates := []; gt_chainage := [] |}
              (D :: dates) = Raise ValueError.
Proof.
  apply (empty_survey_raises demo_match_settings
           {| gt_dates := []; gt_chainage := [] |}).
  reflexivity.
Defined.

Lemma filter_all {A : Type} (P : A -> Prop) `{!forall x, Decision (P x)}
    (l : list A) :
  Forall P l -> filter P l = l.
Proof.
  induction 1 as [|x l Hx _ IH]; [reflexivity|].
  rewrite filter_cons_True by exact Hx. rewrite IH. reflexivity.
Qed.

Lemma interp1d_below (x0 x1 : Z) (y0 y1 : cell) (t : Z) :
  (t < x0)%Z -> (t < x1)%Z -> interp1d x0 x1 y0 y1 t = Raise ValueError.
Proof.
  intros H0 H1. unfold interp1d.
  destruct (Z.leb_spec x0 x1); cbv beta iota zeta.
  - destruct (Z.ltb_spec t x0); [reflexivity|lia].
  - destruct (Z.ltb_spec t x1); [reflexivity|lia].
Qed.

Lemma match_date_before_survey (sett : match_settings) (gt : survey) (D m : Z) :
  gt_dates gt <> [] ->
  length (gt_dates gt) <= length (gt_chainage gt) ->
  Forall (fun s => (0 < timedelta_days s D)%Z) (gt_dates gt) ->
  min_abs_offset gt D = Ok m ->
  (min_days sett <= m <= max_days sett)%Z ->
  match_date sett gt D = Raise ValueError.
Proof.
  intros Hne Hlen Hall Hm [Hlo Hhi].
  unfold match_date, mbind, result_bind. unfold min_abs_offset in Hm. rewrite Hm.
  destruct (Z.ltb_spec (max_days sett) m); [lia|].
  destruct (Z.ltb_spec m (min_days sett)); [lia|].
  assert (Hdd : Forall (fun d => (0 < d)%Z) (days_diff gt D)).
  { unfold days_diff. apply Forall_fmap. exact Hall. }
  rewrite (filter_all _ _ Hdd).
  destruct (gt_dates gt) as [|s0 rest] eqn:Eg; [congruence|].
  assert (Hd0 : days_diff gt D = timedelta_days s0 D :: map (fun d => timedelta_days d D) rest).
  { unfold days_diff. rewrite Eg. reflexivity. }
  rewrite Hd0. simpl length. simpl Nat.eqb. cbv iota.
  apply Forall_cons in Hall as [Hs0 Hrest].
  unfold first_index. simpl first_index_from.
  destruct (Z.ltb_spec 0 (timedelta_days s0 D)) as [_|]; [|lia].
  unfold mbind, result_bind.
  assert (Hlast : exists xb, getitem_signed (s0 :: rest) (Z.of_nat 0 - 1) = Ok xb /\
                             xb ∈ s0 :: rest).
  { unfold getitem_signed. change (Z.of_nat 0 - 1)%Z with (-1)%Z.
    change (0 <=? -1)%Z with false. cbv iota.
    destruct (Z.leb_spec 0 (Z.of_nat (length (s0 :: rest)) + -1)) as [_|Hneg];
      [|simpl in Hneg; lia].
    destruct (getitem_lt (s0 :: rest)
                (Z.to_nat (Z.of_nat (length (s0 :: rest)) + -1)))
      as (xb & Hxb & Hk); [simpl; lia|].
    exists xb. split; [exact Hxb|]. apply list_elem_of_lookup. eauto. }
  destruct Hlast as (xb & Hxb & Hin). rewrite Hxb.
  assert (Hyb : exists yb, getitem_signed (gt_chainage gt) (Z.of_nat 0 - 1) = Ok yb).
  { unfold getitem_signed. change (Z.of_nat 0 - 1)%Z with (-1)%Z.
    change (0 <=? -1)%Z with false. cbv iota. simpl in Hlen.
    destruct (Z.leb_spec 0 (Z.of_nat (length (gt_chainage gt)) + -1)) as [_|Hneg];
      [|lia].
    destruct (getitem_lt (gt_chainage gt)
                (Z.to_nat (Z.of_nat (length (gt_chainage gt)) + -1)))
      as (yb & Hyb & _); [lia|]. eauto. }
  destruct Hyb as [yb Hyb]. rewrite Hyb.
  destruct (getitem_lt (gt_chainage gt) 0) as (ya & Hya & _);
    [simpl in Hlen; lia|].
  rewrite Hya. change (getitem (s0 :: rest) 0) with (Ok s0). cbv beta iota.
  rewrite interp1d_below; [reflexivity| |].
  - apply toordinal_after.
    assert (Hx : (0 < timedelta_days xb D)%Z).
    { apply elem_of_cons in Hin as [->|Hin]; [exact Hs0|].
      rewrite Forall_forall in Hrest. apply Hrest, Hin. }
    exact Hx.
  - apply toordinal_after. exact Hs0.
Qed.

(** X12: a satellite date that precedes every survey date by a day or more
    and whose nearest survey is between [min_days] and [max_days] away makes
    the matching loop end in [ValueError]: the survey point "before" it is
    looked up at index -1, the last one, and the date then lies outside the
    interval handed to the interpolation. *)
Theorem date_before_survey_raises (sett : match_settings) (gt : survey)
    (dates : list Z) (k : nat) (D m : Z) :
  gt_dates gt <> [] ->
  length (gt_dates gt) <= length (gt_chainage gt) ->
  dates !! k = Some D ->
  (forall j d, j < k -> dates !! j = Some d ->
               exists c, match_date sett gt d = Ok (Assign c)) ->
  Forall (fun s => (0 < timedelta_days s D)%Z) (gt_dates gt) ->
  min_abs_offset gt D = Ok m ->
  (min_days sett <= m <= max_days sett)%Z ->
  chain_int sett gt dates = Raise ValueError.
Proof.
  intros Hne Hlen Hk Hpre Hall Hm Hrange. unfold chain_int.
  apply (matching_loop_raise_at sett gt dates 0 _ k D); [exact Hk|exact Hpre|].
  apply (match_date_before_survey sett gt D m); assumption.
Qed.

Lemma date_before_survey_raises_witness :
  chain_int demo_match_settings demo_survey [day 95; day 101] = Raise ValueError.
Proof.
  apply (date_before_survey_raises demo_match_settings demo_survey
           [day 95; day 101] 0 (day 95) 5).
  - discriminate.
  - simpl. lia.
  - reflexivity.
  - intros j d Hj. lia.
  - repeat constructor; vm_compute; reflexivity.
  - vm_compute. reflexivity.
  - simpl. lia.
Defined.

(** ** Transects without any usable observation (lines 359-415, 475) *)

Lemma where_not_nan_all_nan (v : list cell) :
  Forall (fun c => c = NaN) v -> where_not_nan v = [].
Proof.
  intros H. unfold where_not_nan. apply np_where_nil. apply Forall_fmap.
  eapply Forall_impl; [exact H|]. intros c ->. reflexivity.
Qed.

Lemma align_transect_all_nan (sett : match_settings) (out_dates : list Z)
    (out_satname : list string) (chainage : list cell) (gt : survey) :
  Forall (fun c => c = NaN) chainage ->
  align_transect sett out_dates out_satname chainage gt
    = Ok {| chain_sat := []; chain_sur := []; dates_sat := []; satnames := [] |}.
Proof.
  intros H. unfold align_transect, remove_nans.
  rewrite (where_not_nan_all_nan chainage H). reflexivity.
Qed.

Lemma transect_loop_all_nan (sett : match_settings) (out_dates : list Z)
    (out_satname : list string) (ts : list transect_data) (t : transect_data)
    (st0 : validation_state) :
  t ∈ ts -> Forall (fun c => c = NaN) (cross_distance t) ->
  exists e, transect_loop sett out_dates out_satname ts st0 = Raise e.
Proof.
  intros Hin Hnan. revert st0. induction ts as [|t0 ts IH]; intros st0.
  - inversion Hin.
  - simpl. unfold mbind, result_bind.
    apply elem_of_cons in Hin as [<-|Hin].
    + rewrite (align_transect_all_nan _ _ _ _ _ Hnan). simpl. eauto.
    + destruct (align_transect _ _ _ _ _) as [a|e]; [|eauto].
      destruct (transect_statistics a) as [es|e]; [|eauto].
      apply IH. exact Hin.
Qed.

(** X13: the validation does not survive a transect without observations:
    when the cross-shore distances of some transect are all NaN the run ends
    in an exception; when that transect comes first, the regression on no
    pair returns NaN and the exception is the [IndexError] of the percentile
    of no error (line 422). With no transect at all the run ends in the
    [TypeError] of line 475. No statistics are reported in either case. *)
Theorem empty_transects_abort_validation (sett : match_settings)
    (out_dates : list Z) (out_satname : list string) :
  validation sett out_dates out_satname [] = Raise TypeError /\
  (forall t rest, Forall (fun c => c = NaN) (cross_distance t) ->
     validation sett out_dates out_satname (t :: rest) = Raise IndexError) /\
  (forall ts t, t ∈ ts -> Forall (fun c => c = NaN) (cross_distance t) ->
     exists e, validation sett out_dates out_satname ts = Raise e).
Proof.
  split; [reflexivity|]. split.
  - intros t rest Hnan. unfold validation. simpl. unfold mbind, result_bind.
    rewrite (align_transect_all_nan _ _ _ _ _ Hnan). reflexivity.
  - intros ts t Hin Hnan. unfold validation, mbind, result_bind.
    destruct (transect_loop_all_nan sett out_dates out_satname ts t initial_state
                Hin Hnan) as [e He].
    rewrite He. eauto.
Qed.

Lemma empty_transects_abort_validation_witness :
  validation demo_match_settings demo_out_dates demo_out_satname
    [ {| cross_distance := [NaN; NaN]; ground_truth := demo_ground_truth |} ]
  = Raise IndexError.
Proof.
  apply (proj1 (proj2 (empty_transects_abort_validation demo_match_settings
                         demo_out_dates demo_out_satname))).
  repeat constructor.
Defined.

(** ** What the early exit of the matching loop costs (lines 394-396) *)

Lemma min_abs_offset_total (gt : survey) (D0 D m0 : Z) :
  min_abs_offset gt D0 = Ok m0 -> exists m, min_abs_offset gt D = Ok m.
Proof.
  unfold min_abs_offset, days_diff. destruct (gt_dates gt); [discriminate|].
  simpl. eauto.
Qed.

(** X14: when the satellite dates are in chronological order, the dates that
    the loop never reaches after its [break] could not have been matched
    anyway: for each of them the loop body would either leave NaN (nearest
    survey more than [max_days] away) or break again. *)
Theorem break_loses_no_match (sett : match_settings) (gt : survey)
    (dates : list Z) (n k : nat) (D0 D : Z) :
  StronglySorted Z.le dates ->
  dates !! n = Some D0 ->
  match_date sett gt D0 = Ok Break ->
  n <= k ->
  dates !! k = Some D ->
  match_date sett gt D = Ok Break \/ match_date sett gt D = Ok (Assign NaN).
Proof.
  intros Hs Hn Hbrk Hnk Hk.
  assert (HD : (D0 <= D)%Z) by (apply (sorted_lookup_le dates n k); assumption).
  apply match_date_break_inv in Hbrk as (m0 & Hm0 & [Hlo Hhi] & Hall0).
  destruct (min_abs_offset_total gt D0 D m0 Hm0) as [m Hm].
  destruct (offsets_after_break gt D0 D m0 m HD Hm0 Hall0 Hm) as [Hle Hall].
  destruct (Z.le_gt_cases m (max_days sett)) as [Hmax|Hmax].
  - left. apply (match_date_break sett gt D m Hm); [lia|exact Hall].
  - right. unfold match_date, mbind, result_bind.
    unfold min_abs_offset in Hm. rewrite Hm.
    destruct (Z.ltb_spec (max_days sett) m); [reflexivity|lia].
Qed.

Lemma break_loses_no_match_witness :
  match_date demo_match_settings demo_survey (day 131) = Ok Break \/
  match_date demo_match_settings demo_survey (day 131) = Ok (Assign NaN).
Proof.
  apply (break_loses_no_match demo_match_settings demo_survey demo_sat_dates
           3 4 (day 125) (day 131)).
  - repeat constructor; vm_compute; discriminate.
  - reflexivity.
  - vm_compute. reflexivity.
  - lia.
  - reflexivity.
Defined.

(** ** Range of the matched survey values (lines 391-402) *)

Lemma getitem_signed_elem {A : Type} (l : list A) (i : Z) (a : A) :
  getitem_signed l i = Ok a -> a ∈ l.
Proof.
  unfold getitem_signed. intros H. apply list_elem_of_lookup.
  destruct (0 <=? i)%Z.
  - apply getitem_Ok in H. eauto.
  - destruct (0 <=? Z.of_nat (length l) + i)%Z; [|discriminate].
    apply getitem_Ok in H. eauto.
Qed.

Lemma convex_combination (a b lo hi : Q) (d n : Z) :
  (0 <= n <= d)%Z -> (0 < d)%Z ->
  (lo <= a <= hi)%Q -> (lo <= b <= hi)%Q ->
  (lo <= a + (b - a) / inject_Z d * inject_Z n <= hi)%Q.
Proof.
  intros [Hn0 Hnd] Hd [Hla Hah] [Hlb Hbh].
  assert (Hdq : (0 < inject_Z d)%Q).
  { change 0%Q with (inject_Z 0). rewrite <- Zlt_Qlt. exact Hd. }
  assert (Hdne : ~ (inject_Z d == 0)%Q).
  { intros E. rewrite E in Hdq. exact (Qlt_irrefl _ Hdq). }
  set (l := (inject_Z n / inject_Z d)%Q).
  assert (Hl0 : (0 <= l)%Q).
  { unfold l. apply Qle_shift_div_l; [exact Hdq|]. rewrite Qmult_0_l.
    change 0%Q with (inject_Z 0). rewrite <- Zle_Qle. exact Hn0. }
  assert (Hl1 : (0 <= 1 - l)%Q).
  { apply (proj1 (Qle_minus_iff l 1)). unfold l.
    apply Qle_shift_div_r; [exact Hdq|]. rewrite Qmult_1_l.
    rewrite <- Zle_Qle. exact Hnd. }
  assert (He : (a + (b - a) / inject_Z d * inject_Z n == a * (1 - l) + b * l)%Q).
  { unfold l. field. exact Hdne. }
  rewrite He. split.
  - assert (Hlo : (lo == lo * (1 - l) + lo * l)%Q) by ring.
    rewrite Hlo.
    apply Qplus_le_compat; apply Qmult_le_compat_r; assumption.
  - assert (Hhi : (hi == hi * (1 - l) + hi * l)%Q) by ring.
    rewrite Hhi.
    apply Qplus_le_compat; apply Qmult_le_compat_r; assumption.
Qed.

Lemma interp1d_range (x0 x1 : Z) (y0 y1 : cell) (t : Z) (c lo hi : Q) :
  interp1d x0 x1 y0 y1 t = Ok (Some c) ->
  (forall q, y0 = Some q -> (lo <= q <= hi)%Q) ->
  (forall q, y1 = Some q -> (lo <= q <= hi)%Q) ->
  (lo <= c <= hi)%Q.
Proof.
  unfold interp1d. intros H H0 H1.
  destruct (Z.leb_spec x0 x1) as [Hle|Hgt]; cbv beta iota zeta in H.
  - destruct (Z.ltb_spec t x0); [simpl in H; discriminate H|].
    destruct (Z.ltb_spec x1 t); [simpl in H; discriminate H|].
    cbv beta iota zeta delta [orb] in H.
    destruct y0 as [a|], y1 as [b|]; try discriminate H.
    destruct (Z.eqb_spec x1 x0); [discriminate H|].
    inversion H. apply convex_combination; auto; lia.
  - destruct (Z.ltb_spec t x1); [simpl in H; discriminate H|].
    destruct (Z.ltb_spec x0 t); [simpl in H; discriminate H|].
    cbv beta iota zeta delta [orb] in H.
    destruct y1 as [b|], y0 as [a|]; try discriminate H.
    destruct (Z.eqb_spec x0 x1); [discriminate H|].
    inversion H. apply convex_combination; auto; lia.
Qed.

(** X15: the matching never leaves the range of the survey: a survey value
    given to a satellite date, copied or interpolated, lies between the
    smallest and the largest surveyed chainage of the transect. *)
Theorem matched_value_within_survey_range (sett : match_settings) (gt : survey)
    (D : Z) (c lo hi : Q) :
  match_date sett gt D = Ok (Assign (Some c)) ->
  (forall q, Some q ∈ gt_chainage gt -> (lo <= q <= hi)%Q) ->
  (lo <= c <= hi)%Q.
Proof.
  intros H Hrange. apply match_date_assign in H as (m & _ & Hcases).
  destruct Hcases as [[_ Hn]|[(_ & _ & i & _ & Hch)|(_ & Hinterp)]].
  - discriminate Hn.
  - apply Hrange. apply list_elem_of_lookup. eauto.
  - destruct Hinterp as (ia & xb & xa & yb & ya & _ & _ & _ & Hyb & Hya & Hi).
    apply (interp1d_range _ _ _ _ _ _ _ _ Hi).
    + intros q ->. apply Hrange. apply (getitem_signed_elem _ _ _ Hyb).
    + intros q ->. apply Hrange. apply list_elem_of_lookup. eauto.
Qed.

Lemma matched_value_within_survey_range_witness :
  (10 <= 20 + (40 - 20) / inject_Z 10 * inject_Z 5 <= 40)%Q.
Proof.
  apply (matched_value_within_survey_range demo_match_settings demo_survey
           (day 115) (20 + (40 - 20) / inject_Z 10 * inject_Z 5) 10 40).
  - vm_compute. reflexivity.
  - intros q Hq. simpl in Hq.
    apply elem_of_cons in Hq as [Hq|Hq]; [inversion Hq; split; discriminate|].
    apply elem_of_cons in Hq as [Hq|Hq]; [inversion Hq; split; discriminate|].
    apply elem_of_cons in Hq as [Hq|Hq]; [inversion Hq; split; discriminate|].
    inversion Hq.
Defined.

(** ** Tidal correction (lines 301-307) *)

Lemma tidal_correction_nan_mask (tides_sat : list cell) (cross : list cell) :
  length cross = length tides_sat ->
  Forall (fun t => t <> NaN) tides_sat ->
  map (fun c => negb (isnan c))
      (zip_with (fun c t => cell_add c (correction t)) cross tides_sat)
  = map (fun c => negb (isnan c)) cross.
Proof.
  revert tides_sat. induction cross as [|c cross IH]; intros [|t tides] Hlen Hts;
    try reflexivity; try discriminate Hlen.
  apply Forall_cons in Hts as [Ht Hts].
  simpl. rewrite IH by (simpl in Hlen; lia || assumption).
  destruct c, t as [t|]; try reflexivity. exfalso. apply Ht. reflexivity.
Qed.

(** X16: with one tide level per observation, the tidal correction keeps the
    length of the series, moves an observation by (tide - 0.7) / 0.1, that is
    by nothing when the tide stands at the reference elevation, and gives NaN
    where the observation or the tide level is NaN; when no tide level is
    NaN, the observations that are NaN are the same before and after. *)
Theorem tidal_correction_keeps_nans (tides_sat : list cell) (cross : list cell) :
  length cross = length tides_sat ->
  exists out, tidal_correction tides_sat cross = Ok out /\
    length out = length cross /\
    (forall k t x, tides_sat !! k = Some (Some t) -> cross !! k = Some (Some x) ->
       out !! k = Some (Some (x + (t - (7 # 10)) / (1 # 10))%Q)) /\
    (forall k t x, tides_sat !! k = Some (Some t) -> cross !! k = Some (Some x) ->
       (t == 7 # 10)%Q ->
       exists y, out !! k = Some (Some y) /\ (y == x)%Q) /\
    (forall k, k < length cross ->
       cross !! k = Some NaN \/ tides_sat !! k = Some NaN ->
       out !! k = Some NaN) /\
    (Forall (fun t => t <> NaN) tides_sat ->
       where_not_nan out = where_not_nan cross).
Proof.
  intros Hlen. unfold tidal_correction.
  rewrite (proj2 (Nat.eqb_eq _ _) Hlen).
  eexists. split; [reflexivity|].
  assert (Hlk : forall k t x, tides_sat !! k = Some (Some t) ->
            cross !! k = Some (Some x) ->
            zip_with (fun c t => cell_add c (correction t)) cross tides_sat !! k
            = Some (Some (x + (t - (7 # 10)) / (1 # 10))%Q)).
  { intros k t x Ht Hx. rewrite lookup_zip_with, Hx. simpl. rewrite Ht. reflexivity. }
  split; [rewrite length_zip_with; lia|].
  split; [exact Hlk|]. split; [|split].
  - intros k t x Ht Hx Heq.
    eexists. split; [apply (Hlk k t x Ht Hx)|].
    rewrite Heq. field.
  - intros k Hk Hnan. rewrite lookup_zip_with.
    destruct (lookup_lt_is_Some_2 cross k Hk) as [c Hc].
    destruct (lookup_lt_is_Some_2 tides_sat k ltac:(lia)) as [t Ht].
    rewrite Hc. simpl. rewrite Ht. simpl.
    destruct Hnan as [Hn|Hn].
    + rewrite Hc in Hn. injection Hn as ->. reflexivity.
    + rewrite Ht in Hn. injection Hn as ->. destruct c; reflexivity.
  - intros Hts. unfold where_not_nan.
    rewrite tidal_correction_nan_mask by assumption. reflexivity.
Qed.

Lemma tidal_correction_keeps_nans_witness :
  exists out,
    tidal_correction [Some (7 # 10); NaN; Some 0]%Q [Some 12%Q; Some 5%Q; NaN]
    = Ok out /\
    length out = 3 /\
    (exists y, out !! 0 = Some (Some y) /\ (y == 12)%Q) /\
    out !! 1 = Some NaN /\ out !! 2 = Some NaN.
Proof.
  destruct (tidal_correction_keeps_nans [Some (7 # 10); NaN; Some 0]%Q
              [Some 12%Q; Some 5%Q; NaN] eq_refl)
    as (out & Hout & Hlen & _ & Href & Hnan & _).
  exists out. split; [exact Hout|]. split; [exact Hlen|]. split; [|split].
  - apply (Href 0 (7 # 10)%Q 12%Q); reflexivity.
  - apply (Hnan 1); [simpl; lia | right; reflexivity].
  - apply (Hnan 2); [simpl; lia | left; reflexivity].
Defined.

(** ** Errors grouped by satellite (lines 437-445 and 501-509) *)

Lemma str_lt_trans (x y z : string) : str_lt x y -> str_lt y z -> str_lt x z.
Proof.
  unfold str_lt. intros H1 H2.
  apply OrderedTypeEx.String_as_OT.cmp_lt.
  eapply OrderedTypeEx.String_as_OT.lt_trans;
    apply OrderedTypeEx.String_as_OT.cmp_lt; eassumption.
Qed.

Lemma str_lt_irrefl (x : string) : ~ str_lt x x.
Proof.
  unfold str_lt. intros H. pose proof (String.compare_antisym x x) as Ha.
  rewrite H in Ha. discriminate Ha.
Qed.

Lemma str_gt_lt (x y : string) : String.compare x y = Gt -> str_lt y x.
Proof.
  unfold str_lt. intros H. rewrite String.compare_antisym, H. reflexivity.
Qed.

Lemma insert_unique_str_elem (x y : string) (l : list string) :
  y ∈ insert_unique_str x l <-> y = x \/ y ∈ l.
Proof.
  induction l as [|z l IH]; simpl.
  - rewrite list_elem_of_singleton. split; [auto|].
    intros [H|H]; [exact H|inversion H].
  - destruct (String.compare x z) eqn:E.
    + apply String.compare_eq_iff in E. subst. rewrite elem_of_cons. tauto.
    + rewrite elem_of_cons. tauto.
    + rewrite !elem_of_cons, IH. tauto.
Qed.

Lemma insert_unique_str_sorted (x : string) (l : list string) :
  StronglySorted str_lt l -> StronglySorted str_lt (insert_unique_str x l).
Proof.
  induction l as [|z l IH]; simpl; intros Hs.
  - repeat constructor.
  - pose proof Hs as Hs'. apply StronglySorted_cons in Hs' as [Hz Hl].
    destruct (String.compare x z) eqn:E.
    + exact Hs.
    + apply StronglySorted_cons. split; [|exact Hs].
      constructor; [exact E|]. eapply Forall_impl; [exact Hz|].
      intros y Hy. exact (str_lt_trans x z y E Hy).
    + apply StronglySorted_cons. split; [|auto].
      apply Forall_forall. intros y Hy.
      apply insert_unique_str_elem in Hy as [->|Hy]; [apply str_gt_lt, E|].
      rewrite Forall_forall in Hz. auto.
Qed.

Lemma np_unique_str_elem (x : string) (l : list string) :
  x ∈ np_unique_str l <-> x ∈ l.
Proof.
  unfold np_unique_str. induction l as [|y l IH]; simpl.
  - reflexivity.
  - rewrite insert_unique_str_elem, elem_of_cons, IH. reflexivity.
Qed.

Lemma np_unique_str_sorted (l : list string) : StronglySorted str_lt (np_unique_str l).
Proof.
  unfold np_unique_str. induction l as [|y l IH]; simpl.
  - constructor.
  - apply insert_unique_str_sorted, IH.
Qed.

Lemma np_unique_str_NoDup (l : list string) : NoDup (np_unique_str l).
Proof.
  pose proof (np_unique_str_sorted l) as Hs.
  induction Hs as [|x r Hs IH Hx]; constructor; [|exact IH].
  intros Hin. rewrite Forall_forall in Hx.
  exact (str_lt_irrefl x (Hx x Hin)).
Qed.

Lemma np_where_snoc (mask : list bool) (b : bool) :
  np_where (mask ++ [b])
  = np_where mask ++ (if b then [length mask] else []).
Proof.
  unfold np_where. rewrite length_app. simpl length.
  rewrite Nat.add_1_r, seq_S, filter_app. simpl. f_equal.
  - apply filter_ext_elem. intros i Hi. apply elem_of_seq in Hi.
    rewrite lookup_app_l by lia. reflexivity.
  - rewrite filter_cons, filter_nil.
    rewrite list_lookup_middle by reflexivity.
    destruct b; destruct (decide _) as [H|H]; try reflexivity.
    + exfalso. apply H. reflexivity.
    + discriminate H.
Qed.

Lemma count_one (x : string) (us : list string) :
  NoDup us -> x ∈ us ->
  sum_list (map (fun u => if bool_decide (x = u) then 1 else 0) us) = 1.
Proof.
  induction 1 as [|u us Hu Hnd IH]; intros Hin; [inversion Hin|].
  simpl. destruct (bool_decide_reflect (x = u)) as [->|Hne].
  - assert (Hz : sum_list (map (fun v => if bool_decide (u = v) then 1 else 0) us) = 0).
    { clear IH Hin Hnd. induction us as [|v us IH]; [reflexivity|].
      simpl. rewrite not_elem_of_cons in Hu. destruct Hu as [Hv Hu].
      rewrite bool_decide_eq_false_2 by exact Hv. simpl. apply IH, Hu. }
    rewrite Hz. reflexivity.
  - apply elem_of_cons in Hin as [Heq|Hin]; [contradiction|].
    rewrite IH by exact Hin. reflexivity.
Qed.

Lemma groups_cover (satnames us : list string) :
  NoDup us -> (forall x, x ∈ satnames -> x ∈ us) ->
  sum_list (map (fun u => length (idx_of_sat satnames u)) us) = length satnames.
Proof.
  intros Hnd. induction satnames as [|x l IH] using rev_ind; intros Hsub.
  - clear. induction us as [|u us IH]; [reflexivity|]. simpl. exact IH.
  - rewrite length_app. simpl length.
    rewrite <- IH by (intros y Hy; apply Hsub, elem_of_app; left; exact Hy).
    rewrite <- (count_one x us Hnd)
      by (apply Hsub, elem_of_app; right; apply list_elem_of_here).
    clear. induction us as [|u us IHus]; [reflexivity|].
    simpl. rewrite IHus. unfold idx_of_sat at 1 3.
    rewrite map_app. simpl map. rewrite np_where_snoc, length_app.
    destruct (bool_decide (x = u)); simpl; lia.
Qed.

Lemma idx_of_sat_elem (satnames : list string) (sat : string) (k : nat) :
  k ∈ idx_of_sat satnames sat <-> satnames !! k = Some sat.
Proof.
  unfold idx_of_sat. rewrite np_where_elem, list_lookup_fmap.
  destruct (satnames !! k) as [x|]; simpl; [|split; discriminate].
  destruct (bool_decide_reflect (x = sat)) as [->|Hne]; split; intros H;
    try reflexivity; try discriminate H.
  inversion H; contradiction.
Qed.

Lemma for_each_map {A B C : Type} (f : A -> result B) (h : B -> C) (g : A -> C)
    (l : list A) (bs : list B) :
  for_each f l = Ok bs ->
  (forall a b, a ∈ l -> f a = Ok b -> h b = g a) ->
  map h bs = map g l.
Proof.
  revert bs. induction l as [|a l IH]; intros bs Hf Hh; simpl in Hf.
  - inversion Hf. reflexivity.
  - destruct (f a) as [b|e] eqn:Ea; [|discriminate Hf]. simpl in Hf.
    destruct (for_each f l) as [bs'|e] eqn:El; [|discriminate Hf]. simpl in Hf.
    inversion Hf; subst. simpl. f_equal.
    + apply Hh; [apply list_elem_of_here|exact Ea].
    + apply IH; [reflexivity|]. intros a' b' Ha'. apply Hh. right. exact Ha'.
Qed.

Lemma np_median_number (a : list Q) : a <> [] -> np_median a <> NaN.
Proof.
  intros Ha. unfold np_median.
  assert (Hn : 0 < length a) by (destruct a; [contradiction|simpl; lia]).
  destruct (Nat.eqb_spec (length a) 0) as [E|_]; [lia|].
  assert (Hhalf : length a / 2 < length (Qsort a)).
  { rewrite Qsort_length. apply Nat.div_lt; lia. }
  destruct (lookup_lt_is_Some_2 _ _ Hhalf) as [y Hy].
  destruct (Nat.even (length a)).
  - assert (Hprev : length a / 2 - 1 < length (Qsort a)) by lia.
    destruct (lookup_lt_is_Some_2 _ _ Hprev) as [x Hx].
    rewrite Hx, Hy. discriminate.
  - rewrite Hy. discriminate.
Qed.

(** X17: when the satellite names and the errors are aligned, the grouping by
    satellite succeeds and partitions the errors: one group per distinct
    name, holding exactly the errors of the observations of that satellite,
    never empty, so that every median is a number, and the group sizes add
    up to the number of errors. *)
Theorem satellite_groups_partition_errors (satnames : list string)
    (chain_error : list Q) :
  length chain_error = length satnames ->
  exists b, errors_by_satellite satnames chain_error = Ok b /\
    length (data b) = length (np_unique_str satnames) /\
    (forall j sat, np_unique_str satnames !! j = Some sat ->
       exists g, data b !! j = Some g /\ g <> [] /\
         forall e, e ∈ g <->
           exists k, satnames !! k = Some sat /\ chain_error !! k = Some e) /\
    sum_list (n_data b) = length chain_error /\
    Forall (fun n => 0 < n) (n_data b) /\
    Forall (fun m => m <> NaN) (median_data b).
Proof.
  intros Hlen. unfold errors_by_satellite.
  destruct (for_each_total
              (fun sat => select chain_error (idx_of_sat satnames sat))
              (np_unique_str satnames)) as [groups Hg].
  { intros sat _. apply select_total, Forall_forall. intros k Hk.
    apply idx_of_sat_elem, lookup_lt_Some in Hk. lia. }
  rewrite Hg. simpl. eexists. split; [reflexivity|]. simpl.
  destruct (for_each_Ok _ _ _ Hg) as [Hgl Hgs].
  assert (Hgroup : forall j sat, np_unique_str satnames !! j = Some sat ->
            exists g, groups !! j = Some g /\ g <> [] /\
              forall e, e ∈ g <->
                exists k, satnames !! k = Some sat /\ chain_error !! k = Some e).
  { intros j sat Hj. destruct (Hgs j sat Hj) as (g & Hgj & Hsel).
    exists g. split; [exact Hgj|].
    destruct (select_Ok _ _ _ Hsel) as [Hl Hpos].
    assert (Hmem : forall e, e ∈ g <->
              exists k, satnames !! k = Some sat /\ chain_error !! k = Some e).
    { intros e. split.
      - intros He. destruct (select_elem _ _ _ _ Hsel He) as (i & k & Hik & _ & Hk).
        exists k. split; [|exact Hk].
        apply idx_of_sat_elem, list_elem_of_lookup. eauto.
      - intros (k & Hk & He).
        apply idx_of_sat_elem, list_elem_of_lookup in Hk as [i Hi].
        destruct (Hpos i k Hi) as [Hik _].
        apply list_elem_of_lookup. exists i. rewrite Hik. exact He. }
    split; [|exact Hmem].
    assert (Hin : sat ∈ satnames).
    { apply np_unique_str_elem, list_elem_of_lookup. eauto. }
    apply list_elem_of_lookup in Hin as [k Hk].
    destruct (lookup_lt_is_Some_2 chain_error k) as [e He].
    { apply lookup_lt_Some in Hk. lia. }
    intros ->. apply (elem_of_nil e), Hmem. eauto. }
  split; [exact Hgl|]. split; [exact Hgroup|].
  assert (Hne : Forall (fun g : list Q => g <> []) groups).
  { apply Forall_lookup. intros j g Hj.
    destruct (lookup_lt_is_Some_2 (np_unique_str satnames) j) as [sat Hs].
    { apply lookup_lt_Some in Hj. lia. }
    destruct (Hgroup j sat Hs) as (g' & Hg' & Hn & _).
    rewrite Hj in Hg'. inversion Hg'; subst. exact Hn. }
  split; [|split].
  - rewrite (for_each_map _ length (fun u => length (idx_of_sat satnames u)) _ _ Hg).
    + rewrite Hlen. apply groups_cover; [apply np_unique_str_NoDup|].
      intros x Hx. apply np_unique_str_elem, Hx.
    + intros sat g _ Hsel. apply (select_Ok _ _ _ Hsel).
  - apply Forall_fmap. eapply Forall_impl; [exact Hne|].
    intros g Hn. simpl. destruct g; [contradiction|simpl; lia].
  - apply Forall_fmap. eapply Forall_impl; [exact Hne|].
    intros g Hn. simpl. apply np_median_number, Hn.
Qed.

Lemma satellite_groups_partition_errors_witness :
  exists b, errors_by_satellite ["S2"; "L8"; "S2"; "L5"] [1; -2; 3; 4 # 10]%Q = Ok b /\
    length (data b) = 3 /\ sum_list (n_data b) = 4.
Proof.
  destruct (satellite_groups_partition_errors ["S2"; "L8"; "S2"; "L5"]
              [1; -2; 3; 4 # 10]%Q eq_refl)
    as (b & Hb & Hl & _ & Hs & _).
  exists b. split; [exact Hb|]. split; [exact Hl|exact Hs].
Defined.
